(** * NEXUS PROTOCOL: state aggregator, chaos engine and WebSocket fan-out

    A shallow embedding of [backend/state.py], [backend/websocket_manager.py],
    [backend/models.py] and [chaos_engine/main.py], followed by the properties
    of the specification that concern them.

    Conventions of the embedding:
    - a Python [dict] is an insertion-ordered association list with unique
      keys ([Dict.t]); assignment overwrites in place or appends;
    - a Python [float] is an exact rational ([Q]); [round] is round-half-even
      on that exact value;
    - an [async with self._lock] body is one atomic state transition; a
      coroutine that takes the lock more than once is given the critical
      sections that other coroutines run in between;
    - clock readings ([datetime.now]) and random draws are explicit inputs;
    - a raised exception is the [Raise] case of [result]. *)

From Stdlib Require Import List String Ascii ZArith QArith Qround Lia Lqa Bool Arith.
From Stdlib Require Import DecimalString.
Import ListNotations.
Local Open Scope string_scope.
Local Open Scope list_scope.

(** ** Python prelude *)

Inductive exn : Type :=
  ValueError | KeyError | IndexError | ValidationError | ConnectionClosed.

Inductive result (A : Type) : Type :=
| Ok (a : A)
| Raise (e : exn).
Arguments Ok {A} a.
Arguments Raise {A} e.

(** JSON-like values carried by message and metadata dictionaries. *)
Local Unset Elimination Schemes.
Inductive pyval : Type :=
| PNone
| PBool (b : bool)
| PInt (z : Z)
| PFloat (q : Q)
| PStr (s : string)
| PList (l : list pyval)
| PDict (d : list (string * pyval)).
Local Set Elimination Schemes.

(** A reading of the clock: seconds since the epoch and its ISO-8601 text. *)
Record datetime : Type := { epoch : Q; isoformat : string }.

Module Dict.
Section Ops.
Context {V : Type}.

Definition t : Type := list (string * V).

(** [d.get(k)] *)
Fixpoint get (k : string) (d : t) : option V :=
  match d with
  | [] => None
  | (k', v) :: rest => if k' =? k then Some v else get k rest
  end.

(** [k in d] *)
Definition contains (k : string) (d : t) : bool :=
  match get k d with Some _ => true | None => false end.

(** [d.get(k, default)] *)
Definition get_default (k : string) (default : V) (d : t) : V :=
  match get k d with Some v => v | None => default end.

(** [d[k] = v]: an existing key keeps its place, a new key goes last. *)
Fixpoint set (k : string) (v : V) (d : t) : t :=
  match d with
  | [] => [(k, v)]
  | (k', v') :: rest =>
      if k' =? k then (k, v) :: rest else (k', v') :: set k v rest
  end.

(** [del d[k]]; [None] stands for [KeyError]. *)
Fixpoint del (k : string) (d : t) : option t :=
  match d with
  | [] => None
  | (k', v') :: rest =>
      if k' =? k then Some rest
      else match del k rest with
           | Some rest' => Some ((k', v') :: rest')
           | None => None
           end
  end.

Definition keys (d : t) : list string := map fst d.
Definition values (d : t) : list V := map snd d.

(** [{**d, **extra}]: the entries of [extra] are assigned in order. *)
Definition update (d extra : t) : t :=
  fold_left (fun acc kv => set (fst kv) (snd kv) acc) extra d.
End Ops.
Arguments t : clear implicits.
End Dict.

(** [l[start:]] with Python's treatment of negative and oversized bounds. *)
Definition slice_from {A : Type} (start : Z) (l : list A) : list A :=
  let n := Z.of_nat (List.length l) in
  let i := if (start <? 0)%Z then Z.max (start + n) 0 else Z.min start n in
  skipn (Z.to_nat i) l.

(** Nearest integer, ties to the even neighbour. *)
Definition round_half_even (x : Q) : Z :=
  let f := Qfloor x in
  match ((x - inject_Z f) ?= (1 # 2))%Q with
  | Lt => f
  | Gt => (f + 1)%Z
  | Eq => if Z.even f then f else (f + 1)%Z
  end.

(** [round(x, ndigits)] *)
Definition py_round (x : Q) (ndigits : nat) : Q :=
  let scale := inject_Z (10 ^ Z.of_nat ndigits) in
  Qred (inject_Z (round_half_even (x * scale)) / scale)%Q.

(** [int(x)]: truncation toward zero. *)
Definition py_int (x : Q) : Z := Z.quot (Qnum x) (Zpos (Qden x)).

(** ** backend/models.py *)

Inductive ServiceStatus : Type := HEALTHY | WARNING | CRITICAL.

Definition ServiceStatus_value (s : ServiceStatus) : string :=
  match s with
  | HEALTHY => "healthy"
  | WARNING => "warning"
  | CRITICAL => "critical"
  end.

(** [ServiceStatus(text)]: lookup of an enum member by value. *)
Definition ServiceStatus_of_value (text : string) : result ServiceStatus :=
  if text =? "healthy" then Ok HEALTHY
  else if text =? "warning" then Ok WARNING
  else if text =? "critical" then Ok CRITICAL
  else Raise ValueError.

Definition ServiceStatus_eqb (a b : ServiceStatus) : bool :=
  match a, b with
  | HEALTHY, HEALTHY | WARNING, WARNING | CRITICAL, CRITICAL => true
  | _, _ => false
  end.

Module TelemetryEvent.
Record t : Type := {
  timestamp : string;
  service_id : string;
  status : ServiceStatus;
  latency_ms : Z;
  error_rate : Q;
  traffic_volume : Z;
  message : string;
  metadata : Dict.t pyval
}.

(** The validating constructor: [status] is looked up among the enum's
    values and the three [Field(ge=..., le=...)] bounds are checked. *)
Definition __init__ (timestamp service_id status : string) (latency_ms : Z)
    (error_rate : Q) (traffic_volume : Z) (message : string)
    (metadata : Dict.t pyval) : result t :=
  match ServiceStatus_of_value status with
  | Raise _ => Raise ValidationError
  | Ok status =>
      if ((0 <=? latency_ms)%Z && (latency_ms <=? 10000)%Z
          && Qle_bool 0 error_rate && Qle_bool error_rate 1
          && (0 <=? traffic_volume)%Z && (traffic_volume <=? 100)%Z)%bool
      then Ok {| timestamp := timestamp;
                 service_id := service_id;
                 status := status;
                 latency_ms := latency_ms;
                 error_rate := error_rate;
                 traffic_volume := traffic_volume;
                 message := message;
                 metadata := metadata |}
      else Raise ValidationError
  end.
End TelemetryEvent.

Module ServiceState.
Record t : Type := {
  service_id : string;
  status : ServiceStatus;
  latency_ms : Z;
  error_rate : Q;
  traffic_volume : Z;
  last_updated : string;
  position : Q * Q * Q
}.
End ServiceState.

Module SystemState.
Record t : Type := {
  timestamp : string;
  system_integrity : Q;
  services : list ServiceState.t;
  active_incidents : Z;
  uptime_seconds : Z
}.
End SystemState.

(** ** backend/state.py *)

Definition SERVICE_POSITIONS : Dict.t (Q * Q * Q) := [
  ("gateway", (0, 0, 5));
  ("auth", (4.76, 0, 1.55));
  ("payment", (2.94, 0, -4.05));
  ("ai-brain", (-2.94, 0, -4.05));
  ("database", (-4.76, 0, 1.55))
]%Q.

Module StateManager.

Record t : Type := {
  services : Dict.t ServiceState.t;
  recent_events : list TelemetryEvent.t;
  max_events : nat;
  active_incidents : Z;
  start_time : datetime
}.

Definition _initialize_services (now : datetime)
    (services : Dict.t ServiceState.t) : Dict.t ServiceState.t :=
  fold_left
    (fun acc item =>
       let '(service_id, position) := item in
       Dict.set service_id
         {| ServiceState.service_id := service_id;
            ServiceState.status := HEALTHY;
            ServiceState.latency_ms := 500%Z;
            ServiceState.error_rate := 0.02%Q;
            ServiceState.traffic_volume := 75%Z;
            ServiceState.last_updated := isoformat now;
            ServiceState.position := position |}
         acc)
    SERVICE_POSITIONS services.

(** [StateManager()]; the constructor reads the clock twice. *)
Definition __init__ (start now : datetime) : t :=
  {| services := _initialize_services now [];
     recent_events := [];
     max_events := 100;
     active_incidents := 0%Z;
     start_time := start |}.

Definition update_from_event (event : TelemetryEvent.t) (self : t) : t :=
  let service_id := TelemetryEvent.service_id event in
  let services' :=
    if Dict.contains service_id (services self) then
      Dict.set service_id
        {| ServiceState.service_id := service_id;
           ServiceState.status := TelemetryEvent.status event;
           ServiceState.latency_ms := TelemetryEvent.latency_ms event;
           ServiceState.error_rate := TelemetryEvent.error_rate event;
           ServiceState.traffic_volume := TelemetryEvent.traffic_volume event;
           ServiceState.last_updated := TelemetryEvent.timestamp event;
           ServiceState.position :=
             Dict.get_default service_id (0, 0, 0)%Q SERVICE_POSITIONS |}
        (services self)
    else services self in
  let appended := recent_events self ++ [event] in
  let recent_events' :=
    if (max_events self <? List.length appended)%nat then tl appended
    else appended in
  {| services := services';
     recent_events := recent_events';
     max_events := max_events self;
     active_incidents := active_incidents self;
     start_time := start_time self |}.

Definition get_service_state (service_id : string) (self : t)
    : option ServiceState.t :=
  Dict.get service_id (services self).

Definition get_all_services (self : t) : list ServiceState.t :=
  Dict.values (services self).

Definition healthy_count (services : list ServiceState.t) : nat :=
  List.length (filter (fun s => ServiceStatus_eqb (ServiceState.status s) HEALTHY)
                 services).

Definition get_system_state (now : datetime) (self : t) : SystemState.t :=
  let services := Dict.values (services self) in
  let healthy_count := healthy_count services in
  let total_count := List.length services in
  let integrity : Q :=
    if (0 <? total_count)%nat
    then (inject_Z (Z.of_nat healthy_count)
          / inject_Z (Z.of_nat total_count) * 100)%Q
    else 0%Q in
  let uptime := (epoch now - epoch (start_time self))%Q in
  {| SystemState.timestamp := isoformat now;
     SystemState.system_integrity := py_round integrity 1;
     SystemState.services := services;
     SystemState.active_incidents := active_incidents self;
     SystemState.uptime_seconds := py_int uptime |}.

Definition get_recent_events (limit : Z) (self : t) : list TelemetryEvent.t :=
  slice_from (- limit) (recent_events self).

Definition set_service_status (service_id : string) (status : ServiceStatus)
    (now : datetime) (self : t) : t :=
  match Dict.get service_id (services self) with
  | Some current =>
      let healthy := ServiceStatus_eqb status HEALTHY in
      {| services :=
           Dict.set service_id
             {| ServiceState.service_id := service_id;
                ServiceState.status := status;
                ServiceState.latency_ms :=
                  if healthy then 500%Z else ServiceState.latency_ms current;
                ServiceState.error_rate :=
                  if healthy then 0.02%Q else ServiceState.error_rate current;
                ServiceState.traffic_volume :=
                  if healthy then 75%Z else ServiceState.traffic_volume current;
                ServiceState.last_updated := isoformat now;
                ServiceState.position := ServiceState.position current |}
             (services self);
         recent_events := recent_events self;
         max_events := max_events self;
         active_incidents := active_incidents self;
         start_time := start_time self |}
  | None => self
  end.

Definition increment_incidents (self : t) : t :=
  {| services := services self;
     recent_events := recent_events self;
     max_events := max_events self;
     active_incidents := (active_incidents self + 1)%Z;
     start_time := start_time self |}.

Definition decrement_incidents (self : t) : t :=
  if (0 <? active_incidents self)%Z then
    {| services := services self;
       recent_events := recent_events self;
       max_events := max_events self;
       active_incidents := (active_incidents self - 1)%Z;
       start_time := start_time self |}
  else self.

End StateManager.

(** ** chaos_engine/main.py *)

Module Chaos.

Record service : Type := { id : string; position : Q * Q * Q }.

Definition SERVICES : list service := [
  {| id := "gateway"; position := (0, 0, 5) |};
  {| id := "auth"; position := (4.76, 0, 1.55) |};
  {| id := "payment"; position := (2.94, 0, -4.05) |};
  {| id := "ai-brain"; position := (-2.94, 0, -4.05) |};
  {| id := "database"; position := (-4.76, 0, 1.55) |}
]%Q.

Definition LATENCY_RANGES : Dict.t (Z * Z) := [
  ("healthy", (200, 800));
  ("warning", (1000, 2000));
  ("critical", (3000, 6000))
]%Z.

Definition ERROR_RATE_RANGES : Dict.t (Q * Q) := [
  ("healthy", (0.01, 0.03));
  ("warning", (0.05, 0.10));
  ("critical", (0.15, 0.80))
]%Q.

Definition TRAFFIC_VOLUME_RANGES : Dict.t (Z * Z) := [
  ("healthy", (60, 100));
  ("warning", (30, 60));
  ("critical", (5, 30))
]%Z.

Module TelemetryEvent.
Record t : Type := {
  timestamp : string;
  service_id : string;
  status : string;
  latency_ms : Z;
  error_rate : Q;
  traffic_volume : Z;
  message : string;
  metadata : Dict.t pyval
}.
End TelemetryEvent.

(** *** The asyncio event loop, as far as [call_later] needs it *)

(** The bound methods that the engine hands to [call_later]. *)
Inductive handler : Type :=
| escalate_cascade_cb
| final_cascade_cb
| complete_recovery_cb.

Record timer : Type := { when : Z; callback : handler }.

(** [time] is [loop.time()]; [scheduled] holds the pending timers in the
    order in which they were scheduled. *)
Record EventLoop : Type := { time : Z; scheduled : list timer }.

Definition call_later (delay : Z) (cb : handler) (loop : EventLoop)
    : EventLoop :=
  {| time := time loop;
     scheduled := scheduled loop
                  ++ [{| when := (time loop + delay)%Z; callback := cb |}] |}.

(** The timer with the earliest deadline (the first scheduled among equal
    deadlines), together with the timers that stay pending. *)
Fixpoint pop_next (timers : list timer) : option (timer * list timer) :=
  match timers with
  | [] => None
  | t :: rest =>
      match pop_next rest with
      | None => Some (t, [])
      | Some (t', rest') =>
          if (when t' <? when t)%Z then Some (t', t :: rest')
          else Some (t, rest)
      end
  end.

(** *** ChaosEngine *)

Record ChaosEngine : Type := {
  mode : string;
  service_states : Dict.t string;
  running : bool;
  events_per_second : Z
}.

Definition with_mode (m : string) (self : ChaosEngine) : ChaosEngine :=
  {| mode := m;
     service_states := service_states self;
     running := running self;
     events_per_second := events_per_second self |}.

Definition with_service_states (states : Dict.t string) (self : ChaosEngine)
    : ChaosEngine :=
  {| mode := mode self;
     service_states := states;
     running := running self;
     events_per_second := events_per_second self |}.

(** [{s["id"]: "healthy" for s in SERVICES}] *)
Definition all_healthy : Dict.t string :=
  fold_left (fun acc s => Dict.set (id s) "healthy" acc) SERVICES [].

Definition __init__ : ChaosEngine :=
  {| mode := "steady_state";
     service_states := all_healthy;
     running := false;
     events_per_second := 10%Z |}.

Definition set_state (service_id status : string) (self : ChaosEngine)
    : ChaosEngine :=
  with_service_states (Dict.set service_id status (service_states self)) self.

Definition _trigger_cascade (self : ChaosEngine) (loop : EventLoop)
    : ChaosEngine * EventLoop :=
  let self := set_state "ai-brain" "critical" self in
  let self := set_state "payment" "warning" self in
  (self, call_later 2 escalate_cascade_cb loop).

Definition _escalate_cascade (self : ChaosEngine) (loop : EventLoop)
    : ChaosEngine * EventLoop :=
  if mode self =? "cascading_failure" then
    let self := set_state "payment" "critical" self in
    let self := set_state "auth" "warning" self in
    (self, call_later 2 final_cascade_cb loop)
  else (self, loop).

Definition _final_cascade (self : ChaosEngine) (loop : EventLoop)
    : ChaosEngine * EventLoop :=
  if mode self =? "cascading_failure" then
    let self := set_state "auth" "critical" self in
    let self := set_state "database" "warning" self in
    (self, loop)
  else (self, loop).

Definition _begin_recovery (self : ChaosEngine) (loop : EventLoop)
    : ChaosEngine * EventLoop :=
  let states :=
    fold_left
      (fun acc service_id =>
         match Dict.get service_id acc with
         | Some status =>
             if status =? "critical" then Dict.set service_id "warning" acc
             else acc
         | None => acc
         end)
      (Dict.keys (service_states self)) (service_states self) in
  (with_service_states states self, call_later 2 complete_recovery_cb loop).

Definition _complete_recovery (self : ChaosEngine) (loop : EventLoop)
    : ChaosEngine * EventLoop :=
  if mode self =? "recovery" then
    (with_mode "steady_state" (with_service_states all_healthy self), loop)
  else (self, loop).

Definition valid_modes : list string :=
  ["steady_state"; "latency_spike"; "cascading_failure"; "recovery"].

Definition set_mode (m : string) (self : ChaosEngine) (loop : EventLoop)
    : result (ChaosEngine * EventLoop) :=
  if negb (existsb (String.eqb m) valid_modes) then Raise ValueError
  else
    let self := with_mode m self in
    if m =? "steady_state" then
      Ok (with_service_states all_healthy self, loop)
    else if m =? "latency_spike" then
      Ok (set_state "ai-brain" "critical" self, loop)
    else if m =? "cascading_failure" then
      Ok (_trigger_cascade self loop)
    else if m =? "recovery" then
      Ok (_begin_recovery self loop)
    else Ok (self, loop).

(** *** Running the loop *)

Definition run_handler (cb : handler) (self : ChaosEngine) (loop : EventLoop)
    : ChaosEngine * EventLoop :=
  match cb with
  | escalate_cascade_cb => _escalate_cascade self loop
  | final_cascade_cb => _final_cascade self loop
  | complete_recovery_cb => _complete_recovery self loop
  end.

(** How many handler runs a pending timer can still cause: an escalation can
    schedule the final stage, the other two schedule nothing. *)
Definition rank (cb : handler) : nat :=
  match cb with
  | escalate_cascade_cb => 2
  | final_cascade_cb => 1
  | complete_recovery_cb => 1
  end.

Definition budget (timers : list timer) : nat :=
  fold_right (fun t acc => (rank (callback t) + acc)%nat) 0%nat timers.

(** Run, in deadline order, every timer that is due by [deadline]; a handler
    runs at its timer's deadline. *)
Fixpoint run_until (fuel : nat) (deadline : Z) (self : ChaosEngine)
    (loop : EventLoop) : ChaosEngine * EventLoop :=
  match fuel with
  | O => (self, loop)
  | S fuel' =>
      match pop_next (scheduled loop) with
      | None => (self, loop)
      | Some (t, rest) =>
          if (when t <=? deadline)%Z then
            let '(self', loop') :=
              run_handler (callback t) self
                {| time := Z.max (time loop) (when t); scheduled := rest |} in
            run_until fuel' deadline self' loop'
          else (self, loop)
      end
  end.

(** [await asyncio.sleep(delay)] seen from the caller: the loop runs what
    falls due and the caller resumes at [time + delay]. *)
Definition sleep (delay : Z) (self : ChaosEngine) (loop : EventLoop)
    : ChaosEngine * EventLoop :=
  let deadline := (time loop + delay)%Z in
  let '(self', loop') :=
    run_until (budget (scheduled loop)) deadline self loop in
  (self', {| time := Z.max (time loop') deadline;
             scheduled := scheduled loop' |}).

(** An execution of the engine: mode requests and the passing of time. *)
Inductive action : Type :=
| Call (m : string)
| Sleep (delay : Z).

(** A rejected mode request raises before it touches the engine. *)
Definition step (a : action) (w : ChaosEngine * EventLoop)
    : ChaosEngine * EventLoop :=
  match a with
  | Call m =>
      match set_mode m (fst w) (snd w) with
      | Ok w' => w'
      | Raise _ => w
      end
  | Sleep delay => sleep delay (fst w) (snd w)
  end.

Definition run (trace : list action) (w : ChaosEngine * EventLoop)
    : ChaosEngine * EventLoop :=
  fold_left (fun w a => step a w) trace w.

Definition idle_loop (now : Z) : EventLoop := {| time := now; scheduled := [] |}.

(** *** The [random] module

    A generator state [G] with the two primitives of [random.Random]:
    [random()] yields a fraction in [[0, 1)] and [_randbelow(n)] an integer
    in [[0, n)].  [randint], [uniform] and [choice] are defined from them as
    in the standard library. *)

Class RandomSource (G : Type) : Type := {
  random : G -> Q * G;
  _randbelow : Z -> G -> Z * G;
  random_unit : forall g, (0 <= fst (random g))%Q /\ (fst (random g) < 1)%Q;
  _randbelow_below :
    forall n g, (0 < n)%Z -> (0 <= fst (_randbelow n g) < n)%Z
}.

Definition string_of_Z (z : Z) : string :=
  NilZero.string_of_int (Z.to_int z).

Definition messages : Dict.t (list string) := [
  ("healthy", ["Operating within normal parameters";
               "All systems nominal";
               "Request processed successfully";
               "Connection stable"]);
  ("warning", ["Elevated latency detected";
               "Increased error rate observed";
               "Resource utilization above threshold";
               "Retry attempts increasing"]);
  ("critical", ["Service degradation severe";
                "Multiple timeouts detected";
                "Circuit breaker triggered";
                "Failover initiated"])
].

Section Generation.
Context {G : Type} {RS : RandomSource G}.

(** Computations that draw from the generator and may raise. *)
Definition M (A : Type) : Type := G -> result (A * G).

Definition ret {A : Type} (a : A) : M A := fun g => Ok (a, g).
Definition raise {A : Type} (e : exn) : M A := fun _ => Raise e.
Definition bind {A B : Type} (c : M A) (k : A -> M B) : M B :=
  fun g => match c g with
           | Ok (a, g') => k a g'
           | Raise e => Raise e
           end.

Notation "x <- c ;; k" := (bind c (fun x => k))
  (at level 61, c at next level, right associativity).

Definition random_random : M Q := fun g => Ok (random g).

Definition randint (a b : Z) : M Z :=
  if (b - a + 1 <=? 0)%Z then raise ValueError
  else fun g => let '(r, g') := _randbelow (b - a + 1)%Z g in
                Ok ((a + r)%Z, g').

Definition uniform (a b : Q) : M Q :=
  fun g => let '(u, g') := random g in Ok ((a + (b - a) * u)%Q, g').

Definition choice {A : Type} (seq : list A) : M A :=
  match seq with
  | [] => raise IndexError
  | _ => fun g =>
           let '(i, g') := _randbelow (Z.of_nat (List.length seq)) g in
           match nth_error seq (Z.to_nat i) with
           | Some x => Ok (x, g')
           | None => Raise IndexError
           end
  end.

(** [d[k]] *)
Definition getitem {V : Type} (d : Dict.t V) (k : string) : M V :=
  match Dict.get k d with
  | Some v => ret v
  | None => raise KeyError
  end.

Definition generate_event (now : datetime) (service_id : string)
    (self : ChaosEngine) : M TelemetryEvent.t :=
  let status := Dict.get_default service_id "healthy" (service_states self) in
  status <- (if status =? "healthy" then
               u <- random_random ;;
               ret (if negb (Qle_bool 0.05 u) then "warning" else status)
             else ret status) ;;
  latency_range <- getitem LATENCY_RANGES status ;;
  error_range <- getitem ERROR_RATE_RANGES status ;;
  traffic_range <- getitem TRAFFIC_VOLUME_RANGES status ;;
  latency_ms <- randint (fst latency_range) (snd latency_range) ;;
  drawn <- uniform (fst error_range) (snd error_range) ;;
  let error_rate := py_round drawn 4 in
  traffic_volume <- randint (fst traffic_range) (snd traffic_range) ;;
  pool <- getitem messages status ;;
  message <- choice pool ;;
  node <- randint 1 3 ;;
  region <- choice ["us-east-1"; "us-west-2"; "eu-west-1"] ;;
  let metadata : Dict.t pyval :=
    [("node_id",
      PStr ((service_id ++ "-node-") ++ string_of_Z node)%string);
     ("region", PStr region);
     ("version", PStr "v2.1.0")] in
  metadata <- (if service_id =? "ai-brain" then
                 let metadata :=
                   Dict.set "model" (PStr "gemini-2.0-flash") metadata in
                 tokens_in <- randint 100 500 ;;
                 let metadata :=
                   Dict.set "tokens_in" (PInt tokens_in) metadata in
                 tokens_out <- randint 50 200 ;;
                 ret (Dict.set "tokens_out" (PInt tokens_out) metadata)
               else ret metadata) ;;
  ret {| TelemetryEvent.timestamp := isoformat now;
         TelemetryEvent.service_id := service_id;
         TelemetryEvent.status := status;
         TelemetryEvent.latency_ms := latency_ms;
         TelemetryEvent.error_rate := error_rate;
         TelemetryEvent.traffic_volume := traffic_volume;
         TelemetryEvent.message := message;
         TelemetryEvent.metadata := metadata |}.

Fixpoint generate_for (now : datetime) (services : list service)
    (self : ChaosEngine) : M (list TelemetryEvent.t) :=
  match services with
  | [] => ret []
  | s :: rest =>
      event <- generate_event now (id s) self ;;
      events <- generate_for now rest self ;;
      ret (event :: events)
  end.

Definition generate_events (now : datetime) (self : ChaosEngine)
    : M (list TelemetryEvent.t) :=
  generate_for now SERVICES self.
End Generation.

End Chaos.

(** ** backend/main.py: the simulation callback

    [event_callback] rebuilds each generated event as a validated
    [TelemetryEvent] before it reaches the state manager. *)
Definition event_callback (event : Chaos.TelemetryEvent.t)
    (state : StateManager.t) : result StateManager.t :=
  match TelemetryEvent.__init__
          (Chaos.TelemetryEvent.timestamp event)
          (Chaos.TelemetryEvent.service_id event)
          (Chaos.TelemetryEvent.status event)
          (Chaos.TelemetryEvent.latency_ms event)
          (Chaos.TelemetryEvent.error_rate event)
          (Chaos.TelemetryEvent.traffic_volume event)
          (Chaos.TelemetryEvent.message event)
          (Chaos.TelemetryEvent.metadata event) with
  | Ok telemetry => Ok (StateManager.update_from_event telemetry state)
  | Raise e => Raise e
  end.

(** ** backend/websocket_manager.py *)

Module WebSocketManager.

Definition message : Type := Dict.t pyval.

(** A client connection as the manager sees it: whether the channel still
    accepts frames, and the frames the client has been sent. *)
Record WebSocket : Type := { connected : bool; received : list message }.

(** [await websocket.send_json(message)] raises on a closed channel. *)
Definition send_json (m : message) (websocket : WebSocket)
    : result WebSocket :=
  if connected websocket then
    Ok {| connected := true; received := received websocket ++ [m] |}
  else Raise ConnectionClosed.

Record t : Type := { active_connections : Dict.t WebSocket }.

Definition __init__ : t := {| active_connections := [] |}.

Definition connection_count (self : t) : nat :=
  List.length (active_connections self).

Definition send_personal (client_id : string) (m : message) (self : t) : t :=
  match Dict.get client_id (active_connections self) with
  | Some websocket =>
      match send_json m websocket with
      | Ok websocket' =>
          {| active_connections :=
               Dict.set client_id websocket' (active_connections self) |}
      | Raise _ => self
      end
  | None => self
  end.

(** The first critical section of [connect]; [client_id] is the fresh
    identifier drawn from [uuid4]. *)
Definition register (websocket : WebSocket) (client_id : string) (self : t)
    : t :=
  {| active_connections :=
       Dict.set client_id websocket (active_connections self) |}.

Definition disconnect (client_id : string) (self : t) : t :=
  if Dict.contains client_id (active_connections self) then
    match Dict.del client_id (active_connections self) with
    | Some connections => {| active_connections := connections |}
    | None => self
    end
  else self.

(** The sending loop of [broadcast]: [items] is what remains of
    [active_connections.items()], [connections] the dictionary whose
    sockets the sends act on, [disconnected] the identifiers collected so
    far. *)
Fixpoint send_each (m : message) (items : list (string * WebSocket))
    (connections : Dict.t WebSocket) (disconnected : list string)
    : Dict.t WebSocket * list string :=
  match items with
  | [] => (connections, disconnected)
  | (client_id, websocket) :: rest =>
      match send_json m websocket with
      | Ok websocket' =>
          send_each m rest (Dict.set client_id websocket' connections)
            disconnected
      | Raise _ =>
          send_each m rest connections (disconnected ++ [client_id])
      end
  end.

(** The clean-up loop of [broadcast]. *)
Fixpoint remove_each (disconnected : list string)
    (connections : Dict.t WebSocket) : result (Dict.t WebSocket) :=
  match disconnected with
  | [] => Ok connections
  | client_id :: rest =>
      match Dict.del client_id connections with
      | Some connections' => remove_each rest connections'
      | None => Raise KeyError
      end
  end.

Definition broadcast (m : message) (self : t) : result t :=
  match active_connections self with
  | [] => Ok self
  | _ =>
      let '(connections, disconnected) :=
        send_each m (active_connections self) (active_connections self) [] in
      match remove_each disconnected connections with
      | Ok connections' => Ok {| active_connections := connections' |}
      | Raise e => Raise e
      end
  end.

(** What a coroutine does to the connections while it holds [self._lock]:
    the body of one [async with self._lock] block of the class. *)
Inductive ws_op : Type :=
| WsRegister (websocket : WebSocket) (client_id : string)
| WsDisconnect (client_id : string)
| WsSendPersonal (client_id : string) (m : message)
| WsBroadcast (m : message).

Definition ws_step (op : ws_op) (self : t) : result t :=
  match op with
  | WsRegister websocket client_id => Ok (register websocket client_id self)
  | WsDisconnect client_id => Ok (disconnect client_id self)
  | WsSendPersonal client_id m => Ok (send_personal client_id m self)
  | WsBroadcast m => broadcast m self
  end.

(** Critical sections run one after the other, in the order in which the
    lock is granted; an exception ends the run. *)
Fixpoint ws_run (ops : list ws_op) (self : t) : result t :=
  match ops with
  | [] => Ok self
  | op :: rest =>
      match ws_step op self with
      | Ok self' => ws_run rest self'
      | Raise e => Raise e
      end
  end.

(** The acknowledgment that [connect] sends to a new client. *)
Definition connection_ack (client_id : string) (now : datetime) : message :=
  [("type", PStr "connection_ack");
   ("message", PStr "Connected to NEXUS PROTOCOL");
   ("client_id", PStr client_id);
   ("timestamp", PStr (isoformat now))].

(** [connect] holds the lock twice: once to register the socket, and once
    more inside [send_personal] to send the acknowledgment.  It gives the
    lock up in between, so the coroutines that were waiting for it go
    first: [queued] is the critical sections they run. *)
Definition connect (websocket : WebSocket) (client_id : string)
    (now : datetime) (queued : list ws_op) (self : t) : result t :=
  let self := register websocket client_id self in
  match ws_run queued self with
  | Ok self =>
      Ok (send_personal client_id (connection_ack client_id now) self)
  | Raise e => Raise e
  end.

Definition state_update_message (state : message) : message :=
  Dict.update [("type", PStr "state_update")] state.

Definition alert_message (now : datetime) (alert : message) : message :=
  Dict.update
    [("type", PStr "alert"); ("timestamp", PStr (isoformat now))] alert.

Definition remediation_result_message (outcome : message) : message :=
  Dict.update [("type", PStr "remediation_result")] outcome.


Definition broadcast_alert (now : datetime) (alert : message) (self : t)
    : result t :=
  broadcast (alert_message now alert) self.

Definition broadcast_remediation_result (outcome : message) (self : t)
    : result t :=
  broadcast (remediation_result_message outcome) self.

End WebSocketManager.

(** ** Vocabulary of the specification *)

Definition ServiceStatus_eq_dec (a b : ServiceStatus) : {a = b} + {a <> b}.
Proof. decide equality. Defined.

(** How many of the entities are healthy: the occurrences of [HEALTHY]
    among their statuses. *)
Definition number_healthy (entities : list ServiceState.t) : nat :=
  count_occ ServiceStatus_eq_dec (map ServiceState.status entities) HEALTHY.

(** The last [n] elements of a list, in their order. *)
Definition lastn {A : Type} (n : nat) (l : list A) : list A :=
  skipn (List.length l - n) l.

(** The most recent event of a sequence that names [service_id]. *)
Definition last_event_for (service_id : string)
    (events : list TelemetryEvent.t) : option TelemetryEvent.t :=
  find (fun e => TelemetryEvent.service_id e =? service_id) (rev events).

(** The entity state that an event stands for, at a given placement. *)
Definition derived_state (e : TelemetryEvent.t) (placement : Q * Q * Q)
    : ServiceState.t :=
  {| ServiceState.service_id := TelemetryEvent.service_id e;
     ServiceState.status := TelemetryEvent.status e;
     ServiceState.latency_ms := TelemetryEvent.latency_ms e;
     ServiceState.error_rate := TelemetryEvent.error_rate e;
     ServiceState.traffic_volume := TelemetryEvent.traffic_volume e;
     ServiceState.last_updated := TelemetryEvent.timestamp e;
     ServiceState.position := placement |}.

(** The state an entity is created with. *)
Definition initial_state (now : datetime) (id : string)
    (placement : Q * Q * Q) : ServiceState.t :=
  {| ServiceState.service_id := id;
     ServiceState.status := HEALTHY;
     ServiceState.latency_ms := 500%Z;
     ServiceState.error_rate := 0.02%Q;
     ServiceState.traffic_volume := 75%Z;
     ServiceState.last_updated := isoformat now;
     ServiceState.position := placement |}.

(** The scenario statuses once a cascade has run both escalations. *)
Definition cascaded (states : Dict.t string) : Dict.t string :=
  Dict.set "database" "warning"
    (Dict.set "auth" "critical"
       (Dict.set "auth" "warning"
          (Dict.set "payment" "critical"
             (Dict.set "payment" "warning"
                (Dict.set "ai-brain" "critical" states))))).

(** Timers that belong to the staged cascade. *)
Definition is_escalation (t : Chaos.timer) : bool :=
  match Chaos.callback t with
  | Chaos.escalate_cascade_cb | Chaos.final_cascade_cb => true
  | Chaos.complete_recovery_cb => false
  end.

Definition other_timer (t : Chaos.timer) : bool := negb (is_escalation t).

(** The event loop with its pending escalations taken out. *)
Definition drop_escalations (loop : Chaos.EventLoop) : Chaos.EventLoop :=
  {| Chaos.time := Chaos.time loop;
     Chaos.scheduled := filter other_timer (Chaos.scheduled loop) |}.

(** Does an execution ask for [cascading_failure]? *)
Definition requests_cascade (trace : list Chaos.action) : bool :=
  existsb (fun a => match a with
                    | Chaos.Call m => m =? "cascading_failure"
                    | Chaos.Sleep _ => false
                    end)
          trace.

(** The bounded-field constraints of the event model, on a generated
    event. *)
Definition within_model_bounds (event : Chaos.TelemetryEvent.t) : Prop :=
  In (Chaos.TelemetryEvent.status event) ["healthy"; "warning"; "critical"]
  /\ (200 <= Chaos.TelemetryEvent.latency_ms event <= 6000)%Z
  /\ (0.01 <= Chaos.TelemetryEvent.error_rate event)%Q
  /\ (Chaos.TelemetryEvent.error_rate event <= 0.80)%Q
  /\ (5 <= Chaos.TelemetryEvent.traffic_volume event <= 100)%Z.

(** A computation returns, and what it returns satisfies [P]. *)
Definition returns {G A : Type} (P : A -> Prop) (c : G -> result (A * G))
    (g : G) : Prop :=
  match c g with
  | Ok (a, _) => P a
  | Raise _ => False
  end.

(** Every scenario status of the engine is one of the model's three. *)
Definition statuses_in_model (states : Dict.t string) : Prop :=
  Forall (fun entry => In (snd entry) ["healthy"; "warning"; "critical"])
         states.

(** A small linear congruential generator, to run the engine on. *)
Definition lcg_next (seed : Z) : Z :=
  ((seed * 1103515245 + 12345) mod 2147483648)%Z.

Definition lcg_random (seed : Z) : Q * Z :=
  (Qmake (seed mod 1000)%Z 1000, lcg_next seed).

Definition lcg_randbelow (n seed : Z) : Z * Z :=
  ((seed mod n)%Z, lcg_next seed).

(** Fixtures for the worked examples. *)
Definition noon : datetime :=
  {| epoch := 0; isoformat := "2025-01-01T12:00:00+00:00" |}.

Definition critical_event (service_id : string) : TelemetryEvent.t :=
  {| TelemetryEvent.timestamp := "2025-01-01T12:00:01+00:00";
     TelemetryEvent.service_id := service_id;
     TelemetryEvent.status := CRITICAL;
     TelemetryEvent.latency_ms := 4200%Z;
     TelemetryEvent.error_rate := 0.5%Q;
     TelemetryEvent.traffic_volume := 12%Z;
     TelemetryEvent.message := "Circuit breaker triggered";
     TelemetryEvent.metadata := [] |}.

(** What a successful send leaves in the dictionary. *)
Definition delivered (m : WebSocketManager.message)
    (entry : string * WebSocketManager.WebSocket)
    : string * WebSocketManager.WebSocket :=
  (fst entry,
   {| WebSocketManager.connected := true;
      WebSocketManager.received :=
        WebSocketManager.received (snd entry) ++ [m] |}).

(** One pass of the sending loop: a live socket gets the message, a dead
    one keeps its state and has its identifier collected. *)
Definition attempted (m : WebSocketManager.message)
    (entry : string * WebSocketManager.WebSocket)
    : string * WebSocketManager.WebSocket :=
  if WebSocketManager.connected (snd entry) then delivered m entry else entry.

Definition live (entry : string * WebSocketManager.WebSocket) : bool :=
  WebSocketManager.connected (snd entry).

Definition dead (entry : string * WebSocketManager.WebSocket) : bool :=
  negb (WebSocketManager.connected (snd entry)).

(** A sequence of [update_from_event] calls. *)
Definition apply_events (events : list TelemetryEvent.t)
    (self : StateManager.t) : StateManager.t :=
  fold_left (fun s e => StateManager.update_from_event e s) events self.

(** * Properties *)

(** ** Dictionaries *)

Section DictFacts.
Context {V : Type}.
Implicit Types (d : Dict.t V) (k : string) (v : V).

Lemma get_set_same d k v : Dict.get k (Dict.set k v d) = Some v.
Proof.
  induction d as [|[k' v'] d IH]; simpl.
  - now rewrite String.eqb_refl.
  - destruct (k' =? k) eqn:E; simpl.
    + now rewrite String.eqb_refl.
    + now rewrite E.
Qed.

Lemma get_set_other d k k' v :
  k <> k' -> Dict.get k' (Dict.set k v d) = Dict.get k' d.
Proof.
  intros Hne. induction d as [|[k0 v0] d IH]; simpl.
  - destruct (k =? k') eqn:E; [apply String.eqb_eq in E; contradiction|reflexivity].
  - destruct (k0 =? k) eqn:E; simpl.
    + apply String.eqb_eq in E; subst k0.
      destruct (k =? k') eqn:E'; [apply String.eqb_eq in E'; contradiction|reflexivity].
    + now rewrite IH.
Qed.

Lemma contains_set d k k' v :
  Dict.contains k' d = true -> Dict.contains k' (Dict.set k v d) = true.
Proof.
  unfold Dict.contains. intros H.
  destruct (String.eqb_spec k k') as [->|Hne].
  - now rewrite get_set_same.
  - now rewrite get_set_other.
Qed.

Lemma keys_set_present d k v :
  Dict.contains k d = true -> Dict.keys (Dict.set k v d) = Dict.keys d.
Proof.
  unfold Dict.contains, Dict.keys.
  induction d as [|[k' v'] d IH]; simpl; [discriminate|].
  destruct (k' =? k) eqn:E; simpl; intros H.
  - apply String.eqb_eq in E. now subst.
  - now rewrite IH.
Qed.

Lemma get_in_keys d k :
  Dict.contains k d = true <-> In k (Dict.keys d).
Proof.
  unfold Dict.contains, Dict.keys.
  induction d as [|[k' v'] d IH]; simpl.
  - split; [discriminate|tauto].
  - destruct (String.eqb_spec k' k) as [->|Hne].
    + split; auto.
    + rewrite IH. split; [auto|intros [?|?]; [contradiction|assumption]].
Qed.
End DictFacts.

(** ** Lists *)

Section ListFacts.
Context {A : Type}.
Implicit Types (l : list A).

Lemma lastn_length n l : List.length (lastn n l) = Nat.min n (List.length l).
Proof. unfold lastn. rewrite length_skipn. lia. Qed.

Lemma lastn_all n l : (List.length l <= n)%nat -> lastn n l = l.
Proof.
  intros H. unfold lastn.
  replace (List.length l - n)%nat with 0%nat by lia. reflexivity.
Qed.

Lemma lastn_app_lastn n l1 l2 : lastn n (lastn n l1 ++ l2) = lastn n (l1 ++ l2).
Proof.
  unfold lastn at 1 3. rewrite !length_app, lastn_length.
  unfold lastn.
  destruct (Nat.le_gt_cases (List.length l1) n) as [Hle|Hgt].
  - replace (List.length l1 - n)%nat with 0%nat by lia. simpl.
    now rewrite Nat.min_r by lia.
  - rewrite Nat.min_l by lia.
    rewrite (skipn_app (List.length l1 + List.length l2 - n)).
    rewrite (skipn_app (n + List.length l2 - n)).
    rewrite length_skipn, skipn_skipn.
    f_equal; [f_equal; lia|f_equal; lia].
Qed.

Lemma tl_is_skipn l : tl l = skipn 1 l.
Proof. now destruct l. Qed.
End ListFacts.

(** ** State manager: events *)

Section UpdateFromEvent.
Import StateManager.

Lemma apply_events_snoc events e self :
  apply_events (events ++ [e]) self
  = update_from_event e (apply_events events self).
Proof. unfold apply_events. now rewrite fold_left_app. Qed.

Lemma last_event_for_snoc id events e :
  last_event_for id (events ++ [e])
  = if TelemetryEvent.service_id e =? id then Some e
    else last_event_for id events.
Proof. unfold last_event_for. now rewrite rev_unit. Qed.

Lemma update_from_event_max_events e self :
  max_events (update_from_event e self) = max_events self.
Proof. reflexivity. Qed.

Lemma apply_events_max_events events self :
  max_events (apply_events events self) = max_events self.
Proof.
  induction events as [|e events IH] using rev_ind; [reflexivity|].
  now rewrite apply_events_snoc, update_from_event_max_events.
Qed.

(** One call appends the event and keeps the newest [max_events]. *)
Lemma update_from_event_history e self :
  (List.length (recent_events self) <= max_events self)%nat ->
  recent_events (update_from_event e self)
  = lastn (max_events self) (recent_events self ++ [e]).
Proof.
  intros Hlen. unfold update_from_event; simpl.
  assert (Happ : List.length (recent_events self ++ [e])
                 = S (List.length (recent_events self)))
    by (rewrite length_app; simpl; lia).
  destruct (Nat.ltb_spec (max_events self)
              (List.length (recent_events self ++ [e]))) as [Hlt|Hge].
  - rewrite tl_is_skipn. unfold lastn. f_equal. lia.
  - now rewrite lastn_all.
Qed.

Lemma apply_events_history events self :
  (List.length (recent_events self) <= max_events self)%nat ->
  recent_events (apply_events events self)
  = lastn (max_events self) (recent_events self ++ events).
Proof.
  intros Hlen.
  induction events as [|e events IH] using rev_ind.
  - simpl. rewrite app_nil_r. now rewrite lastn_all.
  - rewrite apply_events_snoc, update_from_event_history.
    + rewrite apply_events_max_events, IH, lastn_app_lastn.
      now rewrite app_assoc.
    + rewrite apply_events_max_events, IH, lastn_length. lia.
Qed.

(** One call replaces the state of the entity it names, if known, and
    leaves every other entity alone. *)
Lemma update_from_event_services e self id :
  Dict.contains id (services self) = true ->
  Dict.get id (services (update_from_event e self))
  = if TelemetryEvent.service_id e =? id
    then Some (derived_state e
                 (Dict.get_default id (0, 0, 0)%Q SERVICE_POSITIONS))
    else Dict.get id (services self).
Proof.
  intros Hin. unfold update_from_event; cbn [services].
  destruct (String.eqb_spec (TelemetryEvent.service_id e) id) as [Heq|Hne].
  - rewrite Heq, Hin. cbv iota. rewrite get_set_same.
    unfold derived_state. now rewrite Heq.
  - destruct (Dict.contains (TelemetryEvent.service_id e) _); cbv iota;
      [now rewrite get_set_other|reflexivity].
Qed.

Lemma update_from_event_keys e self :
  Dict.keys (services (update_from_event e self)) = Dict.keys (services self).
Proof.
  unfold update_from_event; cbn [services].
  destruct (Dict.contains _ _) eqn:E; [now apply keys_set_present|reflexivity].
Qed.

Lemma apply_events_keys events self :
  Dict.keys (services (apply_events events self)) = Dict.keys (services self).
Proof.
  induction events as [|e events IH] using rev_ind; [reflexivity|].
  now rewrite apply_events_snoc, update_from_event_keys.
Qed.

Lemma apply_events_services events self id :
  Dict.contains id (services self) = true ->
  Dict.get id (services (apply_events events self))
  = match last_event_for id events with
    | Some e => Some (derived_state e
                        (Dict.get_default id (0, 0, 0)%Q SERVICE_POSITIONS))
    | None => Dict.get id (services self)
    end.
Proof.
  intros Hin.
  induction events as [|e events IH] using rev_ind; [reflexivity|].
  rewrite apply_events_snoc, last_event_for_snoc, update_from_event_services.
  - now destruct (_ =? _).
  - apply get_in_keys. rewrite apply_events_keys. now apply get_in_keys.
Qed.

(** C1. After any sequence of [update_from_event] calls on a fresh state
    manager, every entity of the registry holds the state derived from the
    last event that named it (its initial state if none did), at its fixed
    placement, and the history holds the most recent
    [min (number of events) 100] events in arrival order. *)
Theorem update_from_event_last_write_wins
    (start now : datetime) (events : list TelemetryEvent.t) :
  let s := apply_events events (StateManager.__init__ start now) in
  Forall (fun entry =>
            Dict.get (fst entry) (services s)
            = Some match last_event_for (fst entry) events with
                   | Some e => derived_state e (snd entry)
                   | None => initial_state now (fst entry) (snd entry)
                   end)
         SERVICE_POSITIONS
  /\ Dict.keys (services s) = Dict.keys SERVICE_POSITIONS
  /\ recent_events s = lastn (Nat.min (List.length events) 100) events.
Proof.
  intros s. subst s. split; [|split].
  - repeat constructor; cbn [fst snd];
      (rewrite apply_events_services by reflexivity;
       destruct (last_event_for _ events); reflexivity).
  - now rewrite apply_events_keys.
  - rewrite apply_events_history by (simpl; lia).
    cbn [StateManager.__init__ max_events recent_events app].
    unfold lastn. f_equal. lia.
Qed.
End UpdateFromEvent.

(** ** Rounding *)

Section Rounding.
Local Open Scope Q_scope.

Lemma round_half_even_comp x y :
  x == y -> round_half_even x = round_half_even y.
Proof.
  intros H. unfold round_half_even.
  rewrite (Qfloor_comp x y H).
  assert (Hc : (x - inject_Z (Qfloor y) ?= 1 # 2)
               = (y - inject_Z (Qfloor y) ?= 1 # 2))
    by (now rewrite H).
  now rewrite Hc.
Qed.

Lemma round_half_even_floor x :
  (Qfloor x <= round_half_even x <= Qfloor x + 1)%Z.
Proof.
  unfold round_half_even.
  destruct (x - inject_Z (Qfloor x) ?= 1 # 2); [destruct (Z.even _)| |]; lia.
Qed.

(** Rounding never leaves an interval whose ends are integers. *)
Lemma round_half_even_between (a b : Z) x :
  inject_Z a <= x -> x <= inject_Z b ->
  (a <= round_half_even x <= b)%Z.
Proof.
  intros Ha Hb.
  pose proof (round_half_even_floor x) as [Hlo Hhi].
  assert (Hfa : (a <= Qfloor x)%Z).
  { rewrite <- (Qfloor_Z a). now apply Qfloor_resp_le. }
  assert (Hfb : (Qfloor x <= b)%Z).
  { rewrite <- (Qfloor_Z b). now apply Qfloor_resp_le. }
  split; [lia|].
  destruct (Z.eq_dec (Qfloor x) b) as [Heq|Hne]; [|lia].
  unfold round_half_even.
  assert (Hx : x - inject_Z (Qfloor x) <= 0) by (rewrite Heq; lra).
  destruct (x - inject_Z (Qfloor x) ?= 1 # 2) eqn:E.
  - apply Qeq_alt in E. lra.
  - lia.
  - apply Qgt_alt in E. lra.
Qed.

Lemma py_round_comp x y n : x == y -> py_round x n = py_round y n.
Proof.
  intros H. unfold py_round. cbv zeta.
  rewrite (round_half_even_comp (x * inject_Z (10 ^ Z.of_nat n))
             (y * inject_Z (10 ^ Z.of_nat n))); [reflexivity|].
  now rewrite H.
Qed.

Lemma pow10_pos n : (0 < 10 ^ Z.of_nat n)%Z.
Proof. apply Z.pow_pos_nonneg; lia. Qed.

(** [round(x, n)] stays within bounds that have at most [n] decimals. *)
Lemma py_round_between (a b : Z) x n :
  inject_Z a / inject_Z (10 ^ Z.of_nat n) <= x ->
  x <= inject_Z b / inject_Z (10 ^ Z.of_nat n) ->
  inject_Z a / inject_Z (10 ^ Z.of_nat n) <= py_round x n
  /\ py_round x n <= inject_Z b / inject_Z (10 ^ Z.of_nat n).
Proof.
  intros Ha Hb. unfold py_round. cbv zeta. rewrite Qred_correct.
  pose proof (pow10_pos n) as Hp.
  assert (Hs : 0 < inject_Z (10 ^ Z.of_nat n))
    by (now rewrite <- (Zlt_Qlt 0)).
  set (s := inject_Z (10 ^ Z.of_nat n)) in *.
  assert (Hcancel : forall q, q / s * s == q).
  { intros q. field. intro E. rewrite E in Hs. now apply (Qlt_irrefl 0). }
  assert (Hr : (a <= round_half_even (x * s) <= b)%Z).
  { apply round_half_even_between.
    - rewrite <- (Hcancel (inject_Z a)).
      apply Qmult_le_compat_r; [assumption|lra].
    - rewrite <- (Hcancel (inject_Z b)).
      apply Qmult_le_compat_r; [assumption|lra]. }
  destruct Hr as [Hra Hrb].
  split; unfold Qdiv;
    (apply Qmult_le_compat_r;
     [now rewrite <- Zle_Qle
     |apply Qlt_le_weak, Qinv_lt_0_compat; assumption]).
Qed.
End Rounding.

(** ** State manager: snapshot *)

Section Snapshot.
Import StateManager.
Local Open Scope Q_scope.

Lemma healthy_count_le entities :
  (healthy_count entities <= List.length entities)%nat.
Proof. unfold healthy_count. apply filter_length_le. Qed.

Lemma share_bounds (h t : nat) :
  (h <= t)%nat -> (0 < t)%nat ->
  0 <= inject_Z (Z.of_nat h) / inject_Z (Z.of_nat t)
  /\ inject_Z (Z.of_nat h) / inject_Z (Z.of_nat t) <= 1.
Proof.
  intros Hle Hpos.
  assert (Ht : 0 < inject_Z (Z.of_nat t))
    by (rewrite <- (Zlt_Qlt 0); lia).
  split.
  - apply Qle_shift_div_l; [assumption|].
    rewrite Qmult_0_l. rewrite <- (Zle_Qle 0). lia.
  - apply Qle_shift_div_r; [assumption|].
    rewrite Qmult_1_l. rewrite <- Zle_Qle. lia.
Qed.

Lemma healthy_count_occurrences entities :
  healthy_count entities = number_healthy entities.
Proof.
  unfold healthy_count, number_healthy.
  induction entities as [|s rest IH]; [reflexivity|].
  cbn [filter map count_occ].
  destruct (ServiceState.status s);
    destruct (ServiceStatus_eq_dec _ HEALTHY) as [E|E];
    cbn [ServiceStatus_eqb List.length];
    try discriminate E; try (now exfalso; apply E);
    now rewrite IH.
Qed.

(** C2. The snapshot's integrity is [round(100 * healthy / total, 1)],
    where [healthy] is the number of entities whose status is [HEALTHY]
    and [total] the number of entities; it is [0] when there is no entity,
    and it always lies in [[0, 100]]. *)
Theorem get_system_state_integrity (now : datetime) (self : StateManager.t) :
  let entities := Dict.values (services self) in
  let healthy := inject_Z (Z.of_nat (number_healthy entities)) in
  let total := inject_Z (Z.of_nat (List.length entities)) in
  let integrity :=
    SystemState.system_integrity (get_system_state now self) in
  integrity = match entities with
              | [] => 0
              | _ :: _ => py_round (100 * healthy / total) 1
              end
  /\ 0 <= integrity /\ integrity <= 100.
Proof.
  intros entities healthy total integrity.
  subst integrity. unfold get_system_state. cbn [SystemState.system_integrity].
  fold entities.
  pose proof (healthy_count_le entities) as Hle.
  pose proof (healthy_count_occurrences entities) as Hocc.
  destruct entities as [|s rest] eqn:E.
  - cbn [List.length Nat.ltb Nat.leb]. repeat split; vm_compute; congruence.
  - assert (Hpos : (0 < List.length (s :: rest))%nat) by (simpl; lia).
    destruct (Nat.ltb_spec 0 (List.length (s :: rest))) as [_|Hbad]; [|lia].
    destruct (share_bounds _ _ Hle Hpos) as [H0 H1].
    split.
    + apply py_round_comp. subst healthy total. rewrite <- Hocc. field.
      intro Hz. apply (Qlt_irrefl 0). rewrite <- Hz at 2.
      rewrite <- (Zlt_Qlt 0). lia.
    + set (share := inject_Z (Z.of_nat (healthy_count (s :: rest)))
                    / inject_Z (Z.of_nat (List.length (s :: rest)))) in *.
      clearbody share.
      assert (E0 : inject_Z 0 / inject_Z (10 ^ Z.of_nat 1) == 0)
        by reflexivity.
      assert (E1 : inject_Z 1000 / inject_Z (10 ^ Z.of_nat 1) == 100)
        by reflexivity.
      assert (Hlo : inject_Z 0 / inject_Z (10 ^ Z.of_nat 1) <= share * 100)
        by (rewrite E0; lra).
      assert (Hhi : share * 100
                    <= inject_Z 1000 / inject_Z (10 ^ Z.of_nat 1))
        by (rewrite E1; lra).
      destruct (py_round_between 0 1000 _ 1 Hlo Hhi) as [Ha Hb].
      rewrite E0 in Ha. rewrite E1 in Hb. now split.
Qed.
End Snapshot.

(** ** State manager: manual override *)

Section SetServiceStatus.
Import StateManager.

(** C4. On a known entity, [set_service_status] with [HEALTHY] installs
    the baseline 500 / 0.02 / 75 whatever the metrics were, and with
    [WARNING] or [CRITICAL] keeps the three metrics; in both cases the
    placement and the identifier are kept, the status and the time stamp
    are the new ones, and no other entity, nor the history, nor the
    incident counter, nor any other field of the manager changes.  On an
    unknown entity the call changes nothing. *)
Theorem set_service_status_effect
    (id : string) (status : ServiceStatus) (now : datetime) (self : t) :
  let self' := set_service_status id status now self in
  match Dict.get id (services self) with
  | None => self' = self
  | Some current =>
      (exists updated,
          Dict.get id (services self') = Some updated
          /\ ServiceState.service_id updated = id
          /\ ServiceState.status updated = status
          /\ ServiceState.last_updated updated = isoformat now
          /\ ServiceState.position updated = ServiceState.position current
          /\ match status with
             | HEALTHY =>
                 ServiceState.latency_ms updated = 500%Z
                 /\ ServiceState.error_rate updated = 0.02%Q
                 /\ ServiceState.traffic_volume updated = 75%Z
             | WARNING | CRITICAL =>
                 ServiceState.latency_ms updated
                 = ServiceState.latency_ms current
                 /\ ServiceState.error_rate updated
                    = ServiceState.error_rate current
                 /\ ServiceState.traffic_volume updated
                    = ServiceState.traffic_volume current
             end)
      /\ (forall other, id <> other ->
            Dict.get other (services self') = Dict.get other (services self))
      /\ Dict.keys (services self') = Dict.keys (services self)
      /\ recent_events self' = recent_events self
      /\ active_incidents self' = active_incidents self
      /\ max_events self' = max_events self
      /\ start_time self' = start_time self
  end.
Proof.
  intros self'. subst self'. unfold set_service_status.
  destruct (Dict.get id (services self)) as [current|] eqn:Hget;
    [|reflexivity].
  cbn [services recent_events active_incidents max_events start_time].
  split; [|split; [|split; [|split; [|split; [|split]]]]].
  - eexists. rewrite get_set_same. split; [reflexivity|].
    destruct status; cbn; repeat split; reflexivity.
  - intros other Hne. now apply get_set_other.
  - apply keys_set_present. unfold Dict.contains. now rewrite Hget.
  - reflexivity.
  - reflexivity.
  - reflexivity.
  - reflexivity.
Qed.

Lemma set_service_status_effect_witness :
  let now := {| epoch := 10; isoformat := "t1" |} in
  let self := StateManager.__init__ now now in
  let self' := set_service_status "auth" CRITICAL now self in
  Dict.get "gateway" (services self') = Dict.get "gateway" (services self).
Proof.
  intros now self self'.
  pose proof (set_service_status_effect "auth" CRITICAL now self) as H.
  cbv zeta in H.
  change (Dict.get "auth" (services self))
    with (Some (initial_state now "auth" (4.76, 0, 1.55)%Q)) in H.
  cbv iota beta in H.
  destruct H as (_ & Hframe & _).
  apply Hframe. discriminate.
Defined.
End SetServiceStatus.

(** ** State manager: recent events *)

Section RecentEvents.
Import StateManager.

(** A positive limit selects the newest [min limit (history length)]
    events, most recent last. *)
Lemma get_recent_events_positive_limit (limit : Z) (self : t) :
  (0 < limit)%Z ->
  get_recent_events limit self
  = lastn (Nat.min (Z.to_nat limit) (List.length (recent_events self)))
          (recent_events self).
Proof.
  intros Hpos. unfold get_recent_events, slice_from, lastn.
  destruct (Z.ltb_spec (- limit) 0) as [_|Hbad]; [|lia].
  f_equal. lia.
Qed.

(** C8, at [limit = 0].  [recent_events[-0:]] is [recent_events[0:]]: the
    whole history comes back, not the empty list that "up to the last
    [limit] entries" calls for. *)
Theorem get_recent_events_limit_zero (self : t) :
  get_recent_events 0 self = recent_events self.
Proof.
  unfold get_recent_events, slice_from.
  change (- 0 <? 0)%Z with false. cbv iota.
  now rewrite Z.min_l by lia.
Qed.
End RecentEvents.

(** ** Broadcaster: message shapes *)

Section Messages.
Import WebSocketManager.

Lemma get_absent_keys {V : Type} (d : Dict.t V) k :
  ~ In k (Dict.keys d) -> Dict.get k d = None.
Proof.
  intros Hnot. destruct (Dict.get k d) eqn:E; [|reflexivity].
  exfalso. apply Hnot, get_in_keys. unfold Dict.contains. now rewrite E.
Qed.

(** In [{**d, **extra}] the entries of [extra] win. *)
Lemma get_update {V : Type} (d extra : Dict.t V) k :
  NoDup (Dict.keys extra) ->
  Dict.get k (Dict.update d extra)
  = match Dict.get k extra with
    | Some v => Some v
    | None => Dict.get k d
    end.
Proof.
  unfold Dict.update. revert d.
  induction extra as [|[k0 v0] extra IH]; intros d Hnd; [reflexivity|].
  cbn [fold_left fst snd Dict.keys map] in *.
  inversion Hnd as [|? ? Hnotin Hnd']; subst.
  rewrite IH by assumption. cbn [Dict.get].
  destruct (String.eqb_spec k0 k) as [->|Hne].
  - rewrite (get_absent_keys extra k Hnotin). apply get_set_same.
  - destruct (Dict.get k extra); [reflexivity|now apply get_set_other].
Qed.

(** C9, as the code has it.  An alert carries a time stamp: the payload's
    own if it has one, otherwise the clock reading taken when the message is
    built.  A state update and a remediation result carry exactly the
    payload's time stamp, hence none when the payload has none. *)
Theorem broadcast_messages_timestamp (now : datetime) (payload : message) :
  NoDup (Dict.keys payload) ->
  Dict.get "timestamp" (alert_message now payload)
  = Some match Dict.get "timestamp" payload with
         | Some own => own
         | None => PStr (isoformat now)
         end
  /\ Dict.get "timestamp" (state_update_message payload)
     = Dict.get "timestamp" payload
  /\ Dict.get "timestamp" (remediation_result_message payload)
     = Dict.get "timestamp" payload.
Proof.
  intros Hnd.
  unfold alert_message, state_update_message, remediation_result_message.
  rewrite !get_update by assumption.
  destruct (Dict.get "timestamp" payload); repeat split; reflexivity.
Qed.

Lemma broadcast_messages_timestamp_witness :
  Dict.get "timestamp"
    (alert_message {| epoch := 7; isoformat := "2025-01-01T00:00:07+00:00" |}
       [("severity", PStr "p2"); ("service_id", PStr "auth")])
  = Some (PStr "2025-01-01T00:00:07+00:00").
Proof.
  refine (proj1 (broadcast_messages_timestamp
                   {| epoch := 7; isoformat := "2025-01-01T00:00:07+00:00" |}
                   [("severity", PStr "p2"); ("service_id", PStr "auth")] _)).
  repeat constructor; simpl; intuition discriminate.
Defined.

(** C9 as stated fails: the remediation result that [apply_remediation]
    broadcasts has no time stamp, and a state update has one only if its
    payload does. *)
Lemma remediation_result_has_no_timestamp :
  Dict.get "timestamp"
    (remediation_result_message
       [("success", PBool true);
        ("service_id", PStr "auth");
        ("action", PStr "failover");
        ("message", PStr "Remediation applied: failover")])
  = None
  /\ Dict.get "timestamp" (state_update_message []) = None.
Proof. split; reflexivity. Qed.
End Messages.

(** ** Broadcaster: fan-out *)

Section Broadcast.
Import WebSocketManager.

Lemma set_in_place {V : Type} (pre post : Dict.t V) k v0 v :
  ~ In k (Dict.keys pre) ->
  Dict.set k v (pre ++ (k, v0) :: post) = pre ++ (k, v) :: post.
Proof.
  induction pre as [|[k' v'] pre IH]; intros Hnot; simpl.
  - now rewrite String.eqb_refl.
  - destruct (String.eqb_spec k' k) as [->|Hne].
    + exfalso. apply Hnot. now left.
    + rewrite IH; [reflexivity|]. intro Hin. apply Hnot. now right.
Qed.

Lemma keys_attempted m items :
  Dict.keys (map (attempted m) items) = Dict.keys items.
Proof.
  unfold Dict.keys. rewrite map_map. apply map_ext.
  intros [k ws]. unfold attempted, delivered. now destruct (connected _).
Qed.

Lemma send_each_spec m items : forall pre disconnected,
  NoDup (Dict.keys (pre ++ items)) ->
  send_each m items (pre ++ items) disconnected
  = (pre ++ map (attempted m) items,
     disconnected ++ Dict.keys (filter dead items)).
Proof.
  induction items as [|[client_id websocket] rest IH];
    intros pre disconnected Hnd.
  - simpl. now rewrite !app_nil_r.
  - assert (Hfresh : ~ In client_id (Dict.keys pre)).
    { unfold Dict.keys in *. rewrite map_app in Hnd.
      apply NoDup_remove_2 in Hnd. intro Hin. apply Hnd.
      apply in_or_app. now left. }
    cbn [send_each]. unfold send_json, attempted, dead, delivered.
    cbn [fst snd filter map].
    destruct (connected websocket) eqn:Hc; cbn [negb].
    + rewrite set_in_place by assumption.
      change (pre ++ (client_id,
                      {| connected := true;
                         received := received websocket ++ [m] |}) :: rest)
        with (pre ++ [(client_id,
                       {| connected := true;
                          received := received websocket ++ [m] |})] ++ rest).
      rewrite app_assoc, IH.
      * now rewrite <- app_assoc.
      * rewrite <- app_assoc. unfold Dict.keys in *.
        rewrite map_app in *. exact Hnd.
    + change (pre ++ (client_id, websocket) :: rest)
        with (pre ++ [(client_id, websocket)] ++ rest).
      rewrite app_assoc, IH.
      * rewrite <- !app_assoc. reflexivity.
      * now rewrite <- app_assoc.
Qed.

Lemma remove_each_skip disconnected : forall k ws connections,
  ~ In k disconnected ->
  remove_each disconnected ((k, ws) :: connections)
  = match remove_each disconnected connections with
    | Ok connections' => Ok ((k, ws) :: connections')
    | Raise e => Raise e
    end.
Proof.
  induction disconnected as [|c rest IH]; intros k ws connections Hnot;
    [reflexivity|].
  cbn [remove_each Dict.del].
  destruct (String.eqb_spec k c) as [->|Hne].
  - exfalso. apply Hnot. now left.
  - destruct (Dict.del c connections) as [connections'|]; [|reflexivity].
    apply IH. intro Hin. apply Hnot. now right.
Qed.

Lemma remove_each_spec connections :
  NoDup (Dict.keys connections) ->
  remove_each (Dict.keys (filter dead connections)) connections
  = Ok (filter live connections).
Proof.
  induction connections as [|[k ws] rest IH]; intros Hnd; [reflexivity|].
  cbn [Dict.keys map fst] in Hnd. inversion Hnd as [|? ? Hnotin Hnd']; subst.
  unfold dead, live in *. cbn [filter snd].
  destruct (connected ws) eqn:Hc; cbn [negb].
  - rewrite remove_each_skip.
    + now rewrite IH.
    + intro Hin. apply Hnotin. unfold Dict.keys in *.
      apply in_map_iff in Hin as ([k' ws'] & Hk & Hin).
      apply filter_In in Hin as [Hin _].
      apply in_map_iff. now exists (k', ws').
  - cbn [Dict.keys map fst remove_each Dict.del].
    rewrite String.eqb_refl. now apply IH.
Qed.

Lemma filter_attempted m items :
  filter live (map (attempted m) items) = map (delivered m) (filter live items)
  /\ filter dead (map (attempted m) items) = filter dead items.
Proof.
  induction items as [|[k ws] rest [IH1 IH2]]; [now split|].
  cbn [map filter]. unfold live, dead, attempted in *. cbn [snd] in *.
  destruct (connected ws) eqn:Hc; cbn [delivered snd connected negb];
    rewrite ?Hc; cbn [negb]; rewrite IH1, IH2; now split.
Qed.

(** One broadcast, in closed form: it never raises, every live subscriber
    is sent the message and stays, every dead one is dropped. *)
Lemma broadcast_spec m self :
  NoDup (Dict.keys (active_connections self)) ->
  broadcast m self
  = Ok {| active_connections :=
            map (delivered m) (filter live (active_connections self)) |}.
Proof.
  intros Hnd. unfold broadcast.
  destruct self as [connections]. cbn [active_connections] in *.
  destruct connections as [|entry rest]; [reflexivity|].
  cbv iota.
  pose proof (send_each_spec m (entry :: rest) [] [] Hnd) as Hsend.
  cbn [app] in Hsend. rewrite Hsend. clear Hsend.
  set (connections := entry :: rest) in *.
  destruct (filter_attempted m connections) as [Hlive Hdead].
  rewrite <- Hdead, remove_each_spec.
  - now rewrite Hlive.
  - now rewrite keys_attempted.
Qed.
End Broadcast.

Section FaultIsolation.
Import WebSocketManager.

Lemma filter_all_live items :
  forallb live items = true -> filter live items = items.
Proof.
  induction items as [|entry rest IH]; [reflexivity|].
  cbn [forallb filter]. intros H. apply andb_true_iff in H as [Hl Hr].
  now rewrite Hl, IH.
Qed.

Lemma keys_delivered m items :
  Dict.keys (map (delivered m) items) = Dict.keys items.
Proof. unfold Dict.keys. rewrite map_map. now apply map_ext. Qed.

(** C3. Broadcasting to no subscriber changes nothing.  With exactly one
    faulty subscriber among [N], the broadcast does not raise, appends the
    message to what each of the other [N - 1] subscribers has been sent,
    keeps them registered in their order, and unregisters the faulty one
    and nobody else. *)
Theorem broadcast_fault_isolation
    (m : message) (self : t) (before after : Dict.t WebSocket)
    (client_id : string) (faulty : WebSocket) :
  NoDup (Dict.keys (active_connections self)) ->
  active_connections self = before ++ (client_id, faulty) :: after ->
  connected faulty = false ->
  forallb live (before ++ after) = true ->
  broadcast m {| active_connections := [] |}
  = Ok {| active_connections := [] |}
  /\ exists self',
      broadcast m self = Ok self'
      /\ active_connections self' = map (delivered m) (before ++ after)
      /\ Dict.keys (active_connections self') = Dict.keys (before ++ after)
      /\ Dict.get client_id (active_connections self') = None
      /\ S (connection_count self') = connection_count self.
Proof.
  intros Hnd Hshape Hdead Hlive. split; [reflexivity|].
  assert (Hfilter : filter live (active_connections self) = before ++ after).
  { rewrite Hshape, filter_app. cbn [filter]. unfold live at 2. cbn [snd].
    rewrite Hdead, <- filter_app. now apply filter_all_live. }
  eexists. split; [now apply broadcast_spec|].
  cbn [active_connections]. rewrite Hfilter.
  split; [reflexivity|]. split; [apply keys_delivered|]. split.
  - apply get_absent_keys. rewrite keys_delivered.
    rewrite Hshape in Hnd. unfold Dict.keys in *. rewrite map_app in *.
    now apply NoDup_remove_2 in Hnd.
  - unfold connection_count. cbn [active_connections].
    rewrite Hshape, length_map, !length_app. simpl. lia.
Qed.

Lemma broadcast_fault_isolation_witness :
  let m : message := [("type", PStr "state_update")] in
  let up := {| connected := true; received := [] |} in
  let down := {| connected := false; received := [] |} in
  exists self',
    broadcast m {| active_connections := [("a", up); ("b", down); ("c", up)] |}
    = Ok self'
    /\ active_connections self'
       = [("a", {| connected := true; received := [m] |});
          ("c", {| connected := true; received := [m] |})].
Proof.
  intros m up down.
  destruct (broadcast_fault_isolation m
              {| active_connections := [("a", up); ("b", down); ("c", up)] |}
              [("a", up)] [("c", up)] "b" down)
    as (_ & self' & Hrun & Hconns & _).
  - simpl. repeat constructor; simpl; intuition discriminate.
  - reflexivity.
  - reflexivity.
  - reflexivity.
  - exists self'. split; [exact Hrun|exact Hconns].
Defined.
End FaultIsolation.

(** ** Chaos engine: mode changes *)

Section SetMode.
Import Chaos.

(** C7. Whatever the mode and the statuses were, [set_mode("steady_state")]
    succeeds, leaves the event loop alone and makes every entity healthy;
    a second call returns the very same engine. *)
Theorem set_mode_steady_state_idempotent
    (self : ChaosEngine) (loop : EventLoop) :
  exists self',
    set_mode "steady_state" self loop = Ok (self', loop)
    /\ mode self' = "steady_state"
    /\ Dict.keys (service_states self') = map id SERVICES
    /\ Forall (fun entry => snd entry = "healthy") (service_states self')
    /\ set_mode "steady_state" self' loop = Ok (self', loop).
Proof.
  eexists. split; [reflexivity|].
  cbn [mode service_states with_mode with_service_states].
  split; [reflexivity|]. split; [reflexivity|].
  split; [repeat constructor|reflexivity].
Qed.
End SetMode.

(** ** Chaos engine: the cascade *)

Section Cascade.
Import Chaos.

Lemma run_until_due fuel deadline self loop t rest :
  pop_next (scheduled loop) = Some (t, rest) ->
  (when t <= deadline)%Z ->
  run_until (S fuel) deadline self loop
  = run_until fuel deadline
      (fst (run_handler (callback t) self
              {| time := Z.max (time loop) (when t); scheduled := rest |}))
      (snd (run_handler (callback t) self
              {| time := Z.max (time loop) (when t); scheduled := rest |})).
Proof.
  intros Hpop Hdue. cbn [run_until]. rewrite Hpop.
  apply Z.leb_le in Hdue. rewrite Hdue.
  now destruct (run_handler _ _ _).
Qed.

Lemma run_until_not_due fuel deadline self loop t rest :
  pop_next (scheduled loop) = Some (t, rest) ->
  (deadline < when t)%Z ->
  run_until fuel deadline self loop = (self, loop).
Proof.
  intros Hpop Hlate. destruct fuel; [reflexivity|].
  cbn [run_until]. rewrite Hpop.
  apply Z.leb_gt in Hlate. now rewrite Hlate.
Qed.

Lemma escalate_in_cascade self loop :
  mode self = "cascading_failure" ->
  _escalate_cascade self loop
  = (set_state "auth" "warning" (set_state "payment" "critical" self),
     call_later 2 final_cascade_cb loop).
Proof. intros H. unfold _escalate_cascade. now rewrite H. Qed.

Lemma final_in_cascade self loop :
  mode self = "cascading_failure" ->
  _final_cascade self loop
  = (set_state "database" "warning" (set_state "auth" "critical" self), loop).
Proof. intros H. unfold _final_cascade. now rewrite H. Qed.

(** The cascade, once both escalations have run. *)
Lemma cascade_closed_form self now delay :
  (4 <= delay)%Z ->
  run [Call "cascading_failure"; Sleep delay] (self, idle_loop now)
  = ({| mode := "cascading_failure";
        service_states := cascaded (service_states self);
        running := running self;
        events_per_second := events_per_second self |},
     idle_loop (now + delay)).
Proof.
  intros Hd. unfold run. cbn [fold_left step].
  change (set_mode "cascading_failure" (fst (self, idle_loop now))
            (snd (self, idle_loop now)))
    with (Ok (_trigger_cascade (with_mode "cascading_failure" self)
                (idle_loop now))).
  cbv iota. unfold _trigger_cascade, call_later, idle_loop.
  cbn [fst snd time scheduled app]. unfold sleep.
  cbn [time scheduled budget fold_right callback rank Nat.add].
  erewrite run_until_due; [|reflexivity|cbn [when]; lia].
  cbn [callback when run_handler time].
  rewrite escalate_in_cascade by reflexivity.
  unfold call_later. cbn [fst snd time scheduled app].
  erewrite run_until_due; [|reflexivity|cbn [when]; lia].
  cbn [callback when run_handler time].
  rewrite final_in_cascade by reflexivity.
  cbn [fst snd run_until time scheduled].
  unfold cascaded, set_state, with_service_states, with_mode.
  cbn [mode service_states running events_per_second].
  do 2 f_equal. lia.
Qed.

(** With less than two time units nothing has escalated yet. *)
Lemma cascade_before_first_escalation self now delay :
  (delay < 2)%Z ->
  fst (run [Call "cascading_failure"; Sleep delay] (self, idle_loop now))
  = set_state "payment" "warning"
      (set_state "ai-brain" "critical" (with_mode "cascading_failure" self)).
Proof.
  intros Hd. unfold run. cbn [fold_left step].
  change (set_mode "cascading_failure" (fst (self, idle_loop now))
            (snd (self, idle_loop now)))
    with (Ok (_trigger_cascade (with_mode "cascading_failure" self)
                (idle_loop now))).
  cbv iota. unfold _trigger_cascade, call_later, idle_loop.
  cbn [fst snd time scheduled app]. unfold sleep.
  cbn [time scheduled budget fold_right callback rank Nat.add].
  erewrite run_until_not_due; [reflexivity|reflexivity|cbn [when]; lia].
Qed.

(** C5. From an engine with no timer pending, entering
    [cascading_failure] and letting at least four time units pass with no
    other mode request leaves ai-brain, payment and auth critical and
    database at warning, keeps gateway as it was, and leaves no timer
    pending; from the fresh, all-healthy engine that is exactly three
    critical entities, one at warning and a healthy gateway. *)
Theorem cascade_runs_to_completion
    (self : ChaosEngine) (now delay : Z) :
  (4 <= delay)%Z ->
  let after :=
    run [Call "cascading_failure"; Sleep delay] (self, idle_loop now) in
  let states := service_states (fst after) in
  mode (fst after) = "cascading_failure"
  /\ Dict.get "ai-brain" states = Some "critical"
  /\ Dict.get "payment" states = Some "critical"
  /\ Dict.get "auth" states = Some "critical"
  /\ Dict.get "database" states = Some "warning"
  /\ Dict.get "gateway" states = Dict.get "gateway" (service_states self)
  /\ scheduled (snd after) = []
  /\ service_states
       (fst (run [Call "cascading_failure"; Sleep delay]
               (Chaos.__init__, idle_loop now)))
     = [("gateway", "healthy"); ("auth", "critical"); ("payment", "critical");
        ("ai-brain", "critical"); ("database", "warning")].
Proof.
  intros Hd after states. subst states after.
  rewrite !cascade_closed_form by assumption.
  cbn [fst snd mode service_states scheduled idle_loop]. unfold cascaded.
  split; [reflexivity|].
  repeat split;
    repeat first
      [ rewrite get_set_same; reflexivity
      | rewrite get_set_other by discriminate
      | reflexivity ].
Qed.

Lemma cascade_runs_to_completion_witness :
  service_states
    (fst (run [Call "cascading_failure"; Sleep 4]
            (Chaos.__init__, idle_loop 0)))
  = [("gateway", "healthy"); ("auth", "critical"); ("payment", "critical");
     ("ai-brain", "critical"); ("database", "warning")].
Proof.
  refine (proj2 (proj2 (proj2 (proj2 (proj2 (proj2 (proj2
    (cascade_runs_to_completion Chaos.__init__ 0 4 _)))))))).
  lia.
Defined.
End Cascade.

(** ** Chaos engine: stale escalations *)

Section StaleEscalations.
Import Chaos.

Lemma pop_next_none timers : pop_next timers = None -> timers = [].
Proof.
  destruct timers as [|t rest]; [reflexivity|]. cbn [pop_next].
  destruct (pop_next rest) as [[t' rest']|]; [|discriminate].
  destruct (when t' <? when t)%Z; discriminate.
Qed.

(** [pop_next] takes out one timer, and it is one with the least deadline. *)
Lemma pop_next_least timers : forall t rest,
  pop_next timers = Some (t, rest) ->
  In t timers
  /\ (forall x, In x timers -> (when t <= when x)%Z)
  /\ (forall x, In x rest -> In x timers)
  /\ budget timers = (rank (callback t) + budget rest)%nat.
Proof.
  induction timers as [|x timers IH]; intros t rest Hpop; [discriminate|].
  cbn [pop_next] in Hpop.
  destruct (pop_next timers) as [[t' rest']|] eqn:E.
  - destruct (IH t' rest' eq_refl) as (Hin & Hleast & Hsub & Hbudget).
    destruct (Z.ltb_spec (when t') (when x)) as [Hlt|Hge];
      inversion Hpop; subst; clear Hpop.
    + split; [now right|]. split; [|split].
      * intros y [<-|Hy]; [lia|now apply Hleast].
      * intros y [<-|Hy]; [now left|right; now apply Hsub].
      * cbn [budget fold_right] in *. unfold budget in *. lia.
    + split; [now left|]. split; [|split].
      * intros y [<-|Hy]; [lia|]. specialize (Hleast y Hy). lia.
      * intros y Hy. now right.
      * reflexivity.
  - inversion Hpop; subst; clear Hpop. apply pop_next_none in E. subst.
    split; [now left|]. split; [|split].
    + intros y [<-|[]]. lia.
    + intros y [].
    + reflexivity.
Qed.

Lemma pop_next_dropped timers : forall t rest,
  pop_next timers = Some (t, rest) ->
  other_timer t = false ->
  filter other_timer rest = filter other_timer timers.
Proof.
  induction timers as [|x timers IH]; intros t rest Hpop Hdrop; [discriminate|].
  cbn [pop_next] in Hpop.
  destruct (pop_next timers) as [[t' rest']|] eqn:E.
  - destruct (when t' <? when x)%Z; inversion Hpop; subst; clear Hpop.
    + cbn [filter]. now rewrite (IH t rest' eq_refl Hdrop).
    + cbn [filter]. now rewrite Hdrop.
  - inversion Hpop; subst; clear Hpop. apply pop_next_none in E. subst.
    cbn [filter]. now rewrite Hdrop.
Qed.

Lemma pop_next_kept timers : forall t rest,
  pop_next timers = Some (t, rest) ->
  other_timer t = true ->
  pop_next (filter other_timer timers) = Some (t, filter other_timer rest).
Proof.
  induction timers as [|x timers IH]; intros t rest Hpop Hkeep; [discriminate|].
  cbn [pop_next] in Hpop.
  destruct (pop_next timers) as [[t' rest']|] eqn:E.
  - destruct (pop_next_least _ _ _ E) as (_ & Hleast & _).
    destruct (Z.ltb_spec (when t') (when x)) as [Hlt|Hge];
      inversion Hpop; subst; clear Hpop.
    + specialize (IH t rest' eq_refl Hkeep). cbn [filter].
      destruct (other_timer x); [|exact IH].
      cbn [pop_next]. rewrite IH.
      apply Z.ltb_lt in Hlt. now rewrite Hlt.
    + cbn [filter]. rewrite Hkeep. cbn [pop_next].
      destruct (pop_next (filter other_timer _)) as [[t'' rest'']|] eqn:E';
        [|apply pop_next_none in E'; now rewrite E'].
      destruct (pop_next_least _ _ _ E') as (Hin & _).
      apply filter_In in Hin as [Hin _]. specialize (Hleast t'' Hin).
      destruct (Z.ltb_spec (when t'') (when t)) as [Hbad|_]; [lia|reflexivity].
  - inversion Hpop; subst; clear Hpop. apply pop_next_none in E. subst.
    cbn [filter]. now rewrite Hkeep.
Qed.
Lemma budget_zero timers : budget timers = 0%nat -> timers = [].
Proof.
  destruct timers as [|t rest]; [reflexivity|].
  cbn [budget fold_right]. destruct (callback t); cbn [rank]; lia.
Qed.

Lemma rank_positive cb : (1 <= rank cb)%nat.
Proof. destruct cb; cbn [rank]; lia. Qed.

Lemma run_until_idle fuel deadline self loop :
  scheduled loop = [] -> run_until fuel deadline self loop = (self, loop).
Proof.
  intros H. destruct fuel; [reflexivity|]. cbn [run_until]. now rewrite H.
Qed.

Lemma run_handler_time cb self loop :
  time (snd (run_handler cb self loop)) = time loop.
Proof.
  destruct cb; cbn [run_handler];
    unfold _escalate_cascade, _final_cascade, _complete_recovery;
    destruct (mode self =? _); reflexivity.
Qed.

(** Running the due timers never moves the clock past the deadline. *)
Lemma run_until_time fuel : forall deadline self loop,
  Z.max (time (snd (run_until fuel deadline self loop))) deadline
  = Z.max (time loop) deadline.
Proof.
  induction fuel as [|fuel IH]; intros deadline self loop; [reflexivity|].
  destruct (pop_next (scheduled loop)) as [[t rest]|] eqn:Hpop.
  - destruct (Z.le_gt_cases (when t) deadline) as [Hdue|Hlate].
    + rewrite (run_until_due _ _ _ _ _ _ Hpop Hdue), IH, run_handler_time.
      cbn [time]. lia.
    + rewrite (run_until_not_due _ _ _ _ _ _ Hpop); [reflexivity|lia].
  - apply pop_next_none in Hpop. now rewrite run_until_idle.
Qed.

(** Outside [cascading_failure] the two cascade handlers do nothing. *)
Lemma escalation_guarded t self loop :
  other_timer t = false ->
  mode self <> "cascading_failure" ->
  run_handler (callback t) self loop = (self, loop).
Proof.
  unfold other_timer, is_escalation. intros Hesc Hmode.
  apply String.eqb_neq in Hmode.
  destruct (callback t); cbn [run_handler negb] in *;
    [unfold _escalate_cascade|unfold _final_cascade|discriminate];
    now rewrite Hmode.
Qed.

(** The recovery handler neither reads nor changes the loop, and never
    enters [cascading_failure]. *)
Lemma recovery_handler t self loop :
  other_timer t = true ->
  mode self <> "cascading_failure" ->
  snd (run_handler (callback t) self loop) = loop
  /\ fst (run_handler (callback t) self loop)
     = fst (_complete_recovery self loop)
  /\ (forall loop', fst (_complete_recovery self loop')
                    = fst (_complete_recovery self loop))
  /\ mode (fst (_complete_recovery self loop)) <> "cascading_failure".
Proof.
  unfold other_timer, is_escalation. intros Hkeep Hmode.
  destruct (callback t); cbn [run_handler negb] in *; try discriminate.
  unfold _complete_recovery.
  destruct (mode self =? "recovery"); cbn [fst snd mode with_mode];
    repeat split; try assumption; discriminate.
Qed.

(** Outside [cascading_failure], running the loop with the pending
    escalations or without them gives the same engine and the same
    remaining timers, escalations apart. *)
Lemma run_until_stale fuel : forall fuel' deadline self loop loop',
  mode self <> "cascading_failure" ->
  filter other_timer (scheduled loop) = scheduled loop' ->
  (budget (scheduled loop) <= fuel)%nat ->
  (budget (scheduled loop') <= fuel')%nat ->
  fst (run_until fuel deadline self loop)
  = fst (run_until fuel' deadline self loop')
  /\ filter other_timer (scheduled (snd (run_until fuel deadline self loop)))
     = scheduled (snd (run_until fuel' deadline self loop'))
  /\ mode (fst (run_until fuel deadline self loop)) <> "cascading_failure".
Proof.
  induction fuel as [|fuel IH];
    intros fuel' deadline self loop loop' Hmode Hsim Hfuel Hfuel'.
  - assert (Hnil : scheduled loop = []) by (apply budget_zero; lia).
    rewrite Hnil in Hsim. cbn [filter] in Hsim.
    rewrite (run_until_idle fuel') by now symmetry.
    cbn [run_until fst snd]. now rewrite Hnil.
  - destruct (pop_next (scheduled loop)) as [[t rest]|] eqn:Hpop.
    + destruct (pop_next_least _ _ _ Hpop) as (_ & Hleast & _ & Hbudget).
      pose proof (rank_positive (callback t)) as Hrank.
      destruct (Z.le_gt_cases (when t) deadline) as [Hdue|Hlate].
      * rewrite (run_until_due _ _ _ _ _ _ Hpop Hdue).
        destruct (other_timer t) eqn:Hkind.
        -- pose proof (pop_next_kept _ _ _ Hpop Hkind) as Hpop'.
           rewrite Hsim in Hpop'.
           destruct (pop_next_least _ _ _ Hpop') as (_ & _ & _ & Hbudget').
           destruct fuel' as [|fuel']; [lia|].
           rewrite (run_until_due _ _ _ _ _ _ Hpop' Hdue).
           destruct (recovery_handler t self
                       {| time := Z.max (time loop) (when t);
                          scheduled := rest |} Hkind Hmode)
             as (Hsnd & Hfst & Hany & Hmode').
           destruct (recovery_handler t self
                       {| time := Z.max (time loop') (when t);
                          scheduled := filter other_timer rest |}
                       Hkind Hmode)
             as (Hsnd' & Hfst' & _ & _).
           rewrite Hsnd, Hsnd', Hfst, Hfst'.
           rewrite (Hany {| time := Z.max (time loop') (when t);
                            scheduled := filter other_timer rest |}).
           apply IH; cbn [scheduled]; [assumption|reflexivity|lia|lia].
        -- rewrite (escalation_guarded _ _ _ Hkind Hmode). cbn [fst snd].
           apply IH; cbn [scheduled]; [assumption| |lia|assumption].
           now rewrite (pop_next_dropped _ _ _ Hpop Hkind).
      * rewrite (run_until_not_due _ _ _ _ _ _ Hpop) by lia.
        cbn [fst snd].
        destruct (pop_next (scheduled loop')) as [[t' rest']|] eqn:Hpop'.
        -- destruct (pop_next_least _ _ _ Hpop') as (Hin & _).
           rewrite <- Hsim in Hin. apply filter_In in Hin as [Hin _].
           specialize (Hleast t' Hin).
           rewrite (run_until_not_due _ _ _ _ _ _ Hpop') by lia.
           now repeat split.
        -- apply pop_next_none in Hpop'.
           rewrite (run_until_idle fuel') by assumption. now repeat split.
    + apply pop_next_none in Hpop. rewrite Hpop in Hsim. cbn [filter] in Hsim.
      rewrite (run_until_idle (S fuel)) by assumption.
      rewrite (run_until_idle fuel') by now symmetry.
      cbn [fst snd]. now rewrite Hpop.
Qed.
Lemma sleep_stale delay self loop :
  mode self <> "cascading_failure" ->
  fst (sleep delay self loop) = fst (sleep delay self (drop_escalations loop))
  /\ drop_escalations (snd (sleep delay self loop))
     = snd (sleep delay self (drop_escalations loop))
  /\ mode (fst (sleep delay self loop)) <> "cascading_failure".
Proof.
  intros Hmode. unfold sleep.
  cbn [drop_escalations time scheduled].
  set (deadline := (time loop + delay)%Z).
  destruct (run_until_stale (budget (scheduled loop))
              (budget (filter other_timer (scheduled loop))) deadline self
              loop (drop_escalations loop) Hmode eq_refl (Nat.le_refl _)
              (Nat.le_refl _))
    as (Hfst & Hsched & Hmode').
  pose proof (run_until_time (budget (scheduled loop)) deadline self loop)
    as Htime.
  pose proof (run_until_time (budget (filter other_timer (scheduled loop)))
                deadline self (drop_escalations loop)) as Htime'.
  unfold drop_escalations in *. cbn [time scheduled] in *.
  destruct (run_until (budget (scheduled loop)) deadline self loop)
    as [self1 loop1].
  destruct (run_until (budget (filter other_timer (scheduled loop))) deadline
              self {| time := time loop;
                      scheduled := filter other_timer (scheduled loop) |})
    as [self2 loop2].
  cbn [fst snd time scheduled] in *.
  repeat split; [assumption| |assumption].
  rewrite Hsched. f_equal. lia.
Qed.

Lemma drop_call_later delay cb loop :
  other_timer {| when := (time loop + delay)%Z; callback := cb |} = true ->
  drop_escalations (call_later delay cb loop)
  = call_later delay cb (drop_escalations loop).
Proof.
  intros Hkeep. unfold drop_escalations, call_later.
  cbn [time scheduled]. rewrite filter_app. cbn [filter]. now rewrite Hkeep.
Qed.

(** A mode request other than [cascading_failure] does not look at the
    pending escalations. *)
Lemma call_stale m self loop :
  (m =? "cascading_failure") = false ->
  fst (step (Call m) (self, loop))
  = fst (step (Call m) (self, drop_escalations loop))
  /\ drop_escalations (snd (step (Call m) (self, loop)))
     = snd (step (Call m) (self, drop_escalations loop))
  /\ (mode self <> "cascading_failure" ->
      mode (fst (step (Call m) (self, loop))) <> "cascading_failure").
Proof.
  intros Hm. assert (Hne : m <> "cascading_failure")
    by now apply String.eqb_neq.
  unfold step, set_mode. cbn [fst snd existsb valid_modes].
  rewrite Hm.
  destruct (m =? "steady_state") eqn:E1; cbn [orb negb].
  { cbn [fst snd mode with_mode with_service_states]. now repeat split. }
  destruct (m =? "latency_spike") eqn:E2; cbn [orb negb].
  { cbn [fst snd mode with_mode with_service_states set_state].
    now repeat split. }
  destruct (m =? "recovery") eqn:E3; cbn [orb negb].
  { unfold _begin_recovery.
    cbn [fst snd mode with_mode with_service_states service_states].
    repeat split; [|now intros _].
    now apply drop_call_later. }
  now repeat split.
Qed.

Lemma step_stale a self loop :
  requests_cascade [a] = false ->
  mode self <> "cascading_failure" ->
  fst (step a (self, loop)) = fst (step a (self, drop_escalations loop))
  /\ drop_escalations (snd (step a (self, loop)))
     = snd (step a (self, drop_escalations loop))
  /\ mode (fst (step a (self, loop))) <> "cascading_failure".
Proof.
  intros Hreq Hmode. destruct a as [m|delay].
  - cbn [requests_cascade existsb] in Hreq. rewrite orb_false_r in Hreq.
    destruct (call_stale m self loop Hreq) as (H1 & H2 & H3).
    repeat split; [assumption|assumption|now apply H3].
  - cbn [step fst snd]. now apply sleep_stale.
Qed.

(** C6, as the code has it.  Once the mode is no longer
    [cascading_failure], and for as long as no request returns to it, the
    pending escalations are inert: the execution leaves the same engine
    (mode and entity statuses) and the same other timers as the execution
    in which those escalations had been cancelled. *)
Theorem stale_escalations_inert
    (trace : list action) (self : ChaosEngine) (loop : EventLoop) :
  mode self <> "cascading_failure" ->
  requests_cascade trace = false ->
  fst (run trace (self, loop))
  = fst (run trace (self, drop_escalations loop))
  /\ drop_escalations (snd (run trace (self, loop)))
     = snd (run trace (self, drop_escalations loop))
  /\ mode (fst (run trace (self, loop))) <> "cascading_failure".
Proof.
  revert self loop.
  induction trace as [|a trace IH]; intros self loop Hmode Hreq.
  - now repeat split.
  - unfold requests_cascade in Hreq. cbn [existsb] in Hreq.
    apply orb_false_iff in Hreq as [Ha Htrace].
    assert (Hsingle : requests_cascade [a] = false).
    { unfold requests_cascade. cbn [existsb]. now rewrite Ha. }
    destruct (step_stale a self loop Hsingle Hmode) as (Hfst & Hsnd & Hmode').
    unfold run. cbn [fold_left]. fold (run trace (step a (self, loop))).
    fold (run trace (step a (self, drop_escalations loop))).
    destruct (step a (self, loop)) as [self1 loop1].
    destruct (step a (self, drop_escalations loop)) as [self2 loop2].
    cbn [fst snd] in *. subst self2 loop2.
    now apply IH.
Qed.

Lemma stale_escalations_inert_witness :
  let pending :=
    {| time := 1;
       scheduled := [{| when := 2; callback := escalate_cascade_cb |}] |} in
  fst (run [Call "latency_spike"; Sleep 5] (Chaos.__init__, pending))
  = fst (run [Call "latency_spike"; Sleep 5]
           (Chaos.__init__, drop_escalations pending)).
Proof.
  intros pending.
  refine (proj1 (stale_escalations_inert [Call "latency_spike"; Sleep 5]
                   Chaos.__init__ pending _ _)).
  - discriminate.
  - reflexivity.
Defined.

(** C6 as stated fails.  The guard reads the mode only: when the engine
    has left [cascading_failure] and returned to it before the old
    escalation is due, that escalation fires.  Here the cascade entered at
    time 0 is abandoned and re-entered at time 1; at time 2 the escalation
    of the first cascade makes payment critical and auth warning, one time
    unit before the second cascade is due to escalate. *)
Lemma stale_escalation_fires_after_return :
  let left :=
    run [Call "cascading_failure"; Sleep 1; Call "steady_state"]
      (Chaos.__init__, idle_loop 0) in
  let back := [Call "cascading_failure"; Sleep 1] in
  mode (fst left) = "steady_state"
  /\ scheduled (snd left)
     = [{| when := 2; callback := escalate_cascade_cb |}]
  /\ service_states (fst (run back left))
     = [("gateway", "healthy"); ("auth", "warning"); ("payment", "critical");
        ("ai-brain", "critical"); ("database", "healthy")]
  /\ service_states (fst (run back (fst left, drop_escalations (snd left))))
     = [("gateway", "healthy"); ("auth", "healthy"); ("payment", "warning");
        ("ai-brain", "critical"); ("database", "healthy")].
Proof. repeat split; vm_compute; reflexivity. Qed.
End StaleEscalations.

(** ** Chaos engine: generated events *)

Section GenerateEvent.
Import Chaos.
Context {G : Type} {RS : RandomSource G}.

Lemma returns_ret {A : Type} (P : A -> Prop) (a : A) (g : G) :
  P a -> returns P (ret a) g.
Proof. intros H. exact H. Qed.

Lemma returns_bind {A B : Type} (P : B -> Prop) (c : M A) (k : A -> M B)
    (g : G) :
  returns (fun a => forall g', returns P (k a) g') c g ->
  returns P (bind c k) g.
Proof.
  unfold returns, bind. destruct (c g) as [[a g']|e]; [|trivial].
  intros H. apply H.
Qed.

Lemma returns_elim {A : Type} (P : A -> Prop) (c : M A) (g : G) :
  returns P c g -> exists a g', c g = Ok (a, g') /\ P a.
Proof.
  unfold returns. destruct (c g) as [[a g']|e]; [|contradiction].
  intros H. now exists a, g'.
Qed.

Lemma returns_random (P : Q -> Prop) (g : G) :
  (forall u, (0 <= u)%Q -> (u < 1)%Q -> P u) ->
  returns P random_random g.
Proof.
  intros H. unfold returns, random_random.
  pose proof (random_unit g) as [H0 H1].
  destruct (random g) as [u g']. now apply H.
Qed.

Lemma returns_randint (P : Z -> Prop) (a b : Z) (g : G) :
  (a <= b)%Z ->
  (forall r, (a <= r <= b)%Z -> P r) ->
  returns P (randint a b) g.
Proof.
  intros Hab H. unfold returns, randint.
  destruct (Z.leb_spec (b - a + 1) 0) as [Hbad|_]; [lia|].
  pose proof (_randbelow_below (b - a + 1)%Z g ltac:(lia)) as Hr.
  destruct (_randbelow (b - a + 1)%Z g) as [r g']. cbn [fst] in Hr.
  apply H. lia.
Qed.

Lemma returns_uniform (P : Q -> Prop) (a b : Q) (g : G) :
  (a <= b)%Q ->
  (forall x, (a <= x)%Q -> (x <= b)%Q -> P x) ->
  returns P (uniform a b) g.
Proof.
  intros Hab H. unfold returns, uniform.
  pose proof (random_unit g) as [H0 H1].
  destruct (random g) as [u g']. cbn [fst] in *.
  apply H; nra.
Qed.

Lemma returns_choice {A : Type} (P : A -> Prop) (seq : list A) (g : G) :
  seq <> [] ->
  (forall x, In x seq -> P x) ->
  returns P (choice seq) g.
Proof.
  intros Hne H. unfold returns, choice.
  destruct seq as [|x0 seq0]; [contradiction|].
  set (seq := x0 :: seq0) in *.
  assert (Hlen : (0 < Z.of_nat (List.length seq))%Z) by (simpl; lia).
  pose proof (_randbelow_below _ g Hlen) as Hi.
  destruct (_randbelow (Z.of_nat (List.length seq)) g) as [i g'].
  cbn [fst] in Hi.
  destruct (nth_error seq (Z.to_nat i)) as [x|] eqn:E.
  - apply H. now apply nth_error_In in E.
  - apply nth_error_None in E. lia.
Qed.

Lemma returns_getitem {V : Type} (P : V -> Prop) (d : Dict.t V) k v (g : G) :
  Dict.get k d = Some v -> P v -> returns P (getitem d k) g.
Proof. intros Hget H. unfold returns, getitem. now rewrite Hget. Qed.
Lemma get_in {V : Type} (d : Dict.t V) k v :
  Dict.get k d = Some v -> exists k', In (k', v) d.
Proof.
  induction d as [|[k0 v0] d IH]; [discriminate|]. cbn [Dict.get].
  destruct (k0 =? k).
  - intros H. inversion H; subst. exists k0. now left.
  - intros H. destruct (IH H) as [k' Hin]. exists k'. now right.
Qed.

Lemma status_in_model (self : ChaosEngine) (service_id : string) :
  statuses_in_model (service_states self) ->
  In (Dict.get_default service_id "healthy" (service_states self))
     ["healthy"; "warning"; "critical"].
Proof.
  intros Hall. unfold Dict.get_default.
  destruct (Dict.get service_id (service_states self)) as [v|] eqn:E.
  - destruct (get_in _ _ _ E) as [k' Hin].
    unfold statuses_in_model in Hall.
    rewrite Forall_forall in Hall. exact (Hall _ Hin).
  - now left.
Qed.

Lemma py_round_within (lo hi : Q) (a b : Z) (x : Q) (n : nat) :
  (lo == inject_Z a / inject_Z (10 ^ Z.of_nat n))%Q ->
  (hi == inject_Z b / inject_Z (10 ^ Z.of_nat n))%Q ->
  (lo <= x)%Q -> (x <= hi)%Q ->
  (lo <= py_round x n)%Q /\ (py_round x n <= hi)%Q.
Proof.
  intros Hlo Hhi Hx1 Hx2. rewrite Hlo in Hx1 |- *. rewrite Hhi in Hx2 |- *.
  now apply py_round_between.
Qed.

Ltac draw :=
  apply returns_bind;
  first
    [ eapply returns_getitem; [reflexivity|]; intros ?g; cbn [fst snd]
    | apply returns_randint; [lia|]; intros ?r ?Hr ?g
    | apply returns_uniform; [unfold Qle; simpl; lia|];
      intros ?x ?Hlo ?Hhi ?g
    | apply returns_choice; [discriminate|]; intros ?c ?Hc ?g ].

Ltac finish_event :=
  match goal with
  | |- returns _ (bind (if ?b then _ else _) _) _ =>
      destruct b; apply returns_bind; [cbv zeta; draw; cbv zeta; draw|];
      apply returns_ret; intros ?g; apply returns_ret
  end;
  unfold within_model_bounds;
  cbn [TelemetryEvent.status TelemetryEvent.latency_ms
       TelemetryEvent.error_rate TelemetryEvent.traffic_volume];
  (split; [simpl; tauto|]);
  (split; [lia|]);
  (split; [|split; [|lia]]);
  match goal with
  | Hlo : (_ <= ?x)%Q, Hhi : (?x <= _)%Q |- context [py_round ?x 4] =>
      apply (py_round_within 0.01 0.80 100 8000 x 4);
      [reflexivity|reflexivity|lra|lra]
  end.

(** Every draw of [generate_event] succeeds on an engine whose scenario
    statuses are among the three of the model, and the event it builds is
    within the model's bounds. *)
Lemma generate_event_returns (now : datetime) (service_id : string)
    (self : ChaosEngine) (g : G) :
  statuses_in_model (service_states self) ->
  returns within_model_bounds (generate_event now service_id self) g.
Proof.
  intros Hall. pose proof (status_in_model self service_id Hall) as Hstatus.
  unfold generate_event.
  destruct Hstatus as [<-|[<-|[<-|[]]]].
  - change ("healthy" =? "healthy") with true. cbv iota.
    apply returns_bind, returns_bind, returns_random.
    intros u _ _ g0. apply returns_ret. intros g1.
    destruct (negb (Qle_bool 0.05 u)); do 10 draw; finish_event.
  - change ("warning" =? "healthy") with false. cbv iota.
    apply returns_bind, returns_ret. intros g1.
    do 10 draw; finish_event.
  - change ("critical" =? "healthy") with false. cbv iota.
    apply returns_bind, returns_ret. intros g1.
    do 10 draw; finish_event.
Qed.
(** An event within the model's bounds passes the validating constructor. *)
Lemma within_model_bounds_accepted (event : TelemetryEvent.t)
    (state : StateManager.t) :
  within_model_bounds event ->
  exists state', event_callback event state = Ok state'.
Proof.
  intros (Hstatus & Hlat & Herr1 & Herr2 & Htraffic).
  unfold event_callback, TelemetryEvent.__init__.
  assert (H1 : (0 <=? TelemetryEvent.latency_ms event)%Z = true)
    by (apply Z.leb_le; lia).
  assert (H2 : (TelemetryEvent.latency_ms event <=? 10000)%Z = true)
    by (apply Z.leb_le; lia).
  assert (H3 : Qle_bool 0 (TelemetryEvent.error_rate event) = true)
    by (apply Qle_bool_iff; lra).
  assert (H4 : Qle_bool (TelemetryEvent.error_rate event) 1 = true)
    by (apply Qle_bool_iff; lra).
  assert (H5 : (0 <=? TelemetryEvent.traffic_volume event)%Z = true)
    by (apply Z.leb_le; lia).
  assert (H6 : (TelemetryEvent.traffic_volume event <=? 100)%Z = true)
    by (apply Z.leb_le; lia).
  rewrite H1, H2, H3, H4, H5, H6. cbn [andb].
  destruct Hstatus as [<-|[<-|[<-|[]]]]; cbn; eexists; reflexivity.
Qed.

(** C10. On an engine whose scenario statuses are among healthy, warning
    and critical, [generate_event] returns for every draw of the random
    source; the event's status is one of the three, its latency lies in
    [[200, 6000]], its error rate in [[0.01, 0.80]], its traffic volume in
    [[5, 100]], and the validating constructor accepts it. *)
Theorem generate_event_within_bounds (now : datetime) (service_id : string)
    (self : ChaosEngine) (g : G) :
  statuses_in_model (service_states self) ->
  exists event g',
    generate_event now service_id self g = Ok (event, g')
    /\ In (TelemetryEvent.status event) ["healthy"; "warning"; "critical"]
    /\ (200 <= TelemetryEvent.latency_ms event <= 6000)%Z
    /\ (0.01 <= TelemetryEvent.error_rate event)%Q
    /\ (TelemetryEvent.error_rate event <= 0.80)%Q
    /\ (5 <= TelemetryEvent.traffic_volume event <= 100)%Z
    /\ forall state, exists state', event_callback event state = Ok state'.
Proof.
  intros Hall.
  destruct (returns_elim _ _ _ (generate_event_returns now service_id self g
                                  Hall))
    as (event & g' & Hrun & Hbounds).
  exists event, g'. split; [exact Hrun|].
  pose proof Hbounds as (H1 & H2 & H3 & H4 & H5).
  repeat (split; [assumption|]).
  intros state. now apply within_model_bounds_accepted.
Qed.
End GenerateEvent.

(** ** A concrete random source *)

Section ConcreteSource.
Import Chaos.

Lemma lcg_random_unit (seed : Z) :
  (0 <= fst (lcg_random seed))%Q /\ (fst (lcg_random seed) < 1)%Q.
Proof.
  unfold lcg_random. cbn [fst].
  pose proof (Z.mod_pos_bound seed 1000 ltac:(lia)) as Hm.
  unfold Qle, Qlt. cbn [Qnum Qden]. lia.
Qed.

Lemma lcg_randbelow_below (n seed : Z) :
  (0 < n)%Z -> (0 <= fst (lcg_randbelow n seed) < n)%Z.
Proof. intros Hn. unfold lcg_randbelow. cbn [fst]. now apply Z.mod_pos_bound. Qed.

Definition lcg_source : RandomSource Z :=
  {| random := lcg_random;
     _randbelow := lcg_randbelow;
     random_unit := lcg_random_unit;
     _randbelow_below := lcg_randbelow_below |}.
End ConcreteSource.

Section GeneratedOnReachableEngines.
Import Chaos.

Lemma generate_event_within_bounds_witness :
  exists event g',
    generate_event (RS := lcg_source) noon "ai-brain" Chaos.__init__ 42%Z
    = Ok (event, g')
    /\ (200 <= TelemetryEvent.latency_ms event <= 6000)%Z.
Proof.
  destruct (generate_event_within_bounds (RS := lcg_source) noon "ai-brain"
              Chaos.__init__ 42%Z)
    as (event & g' & Hrun & _ & Hlat & _).
  - unfold statuses_in_model. repeat constructor; simpl; tauto.
  - exists event, g'. split; [exact Hrun|exact Hlat].
Defined.

Lemma statuses_set (states : Dict.t string) k v :
  In v ["healthy"; "warning"; "critical"] ->
  statuses_in_model states -> statuses_in_model (Dict.set k v states).
Proof.
  unfold statuses_in_model. intros Hv Hall.
  induction states as [|[k0 v0] states IH]; cbn [Dict.set].
  - constructor; [exact Hv|constructor].
  - inversion Hall as [|? ? Hhead Htail]; subst.
    destruct (k0 =? k); constructor;
      [exact Hv|exact Htail|exact Hhead|now apply IH].
Qed.

Lemma statuses_all_healthy : statuses_in_model all_healthy.
Proof. unfold statuses_in_model. repeat constructor; simpl; tauto. Qed.

Lemma statuses_begin_recovery self loop :
  statuses_in_model (service_states self) ->
  statuses_in_model (service_states (fst (_begin_recovery self loop))).
Proof.
  unfold _begin_recovery. cbn [fst service_states with_service_states].
  generalize (Dict.keys (service_states self)) as ids.
  generalize (service_states self) as states.
  intros states ids. revert states.
  induction ids as [|service_id ids IH]; intros states Hall; [exact Hall|].
  cbn [fold_left]. apply IH.
  destruct (Dict.get service_id states) as [status|]; [|exact Hall].
  destruct (status =? "critical"); [|exact Hall].
  apply statuses_set; [simpl; tauto|exact Hall].
Qed.

Lemma statuses_run_handler cb self loop :
  statuses_in_model (service_states self) ->
  statuses_in_model (service_states (fst (run_handler cb self loop))).
Proof.
  intros Hall.
  destruct cb; cbn [run_handler];
    unfold _escalate_cascade, _final_cascade, _complete_recovery;
    destruct (mode self =? _); cbn [fst]; try exact Hall.
  - unfold set_state. cbn [service_states with_service_states].
    repeat (apply statuses_set; [simpl; tauto|]). exact Hall.
  - unfold set_state. cbn [service_states with_service_states].
    repeat (apply statuses_set; [simpl; tauto|]). exact Hall.
  - cbn [service_states with_mode with_service_states].
    exact statuses_all_healthy.
Qed.

Lemma statuses_run_until fuel : forall deadline self loop,
  statuses_in_model (service_states self) ->
  statuses_in_model
    (service_states (fst (run_until fuel deadline self loop))).
Proof.
  induction fuel as [|fuel IH]; intros deadline self loop Hall; [exact Hall|].
  cbn [run_until].
  destruct (pop_next (scheduled loop)) as [[t rest]|]; [|exact Hall].
  destruct (when t <=? deadline)%Z; [|exact Hall].
  pose proof (statuses_run_handler (callback t) self
                {| time := Z.max (time loop) (when t); scheduled := rest |}
                Hall) as Hnext.
  destruct (run_handler _ _ _) as [self' loop']. now apply IH.
Qed.

Lemma statuses_step a self loop :
  statuses_in_model (service_states self) ->
  statuses_in_model (service_states (fst (step a (self, loop)))).
Proof.
  intros Hall. destruct a as [m|delay]; cbn [step fst snd].
  - unfold set_mode.
    destruct (negb (existsb (String.eqb m) valid_modes)); [exact Hall|].
    destruct (m =? "steady_state"); [exact statuses_all_healthy|].
    destruct (m =? "latency_spike").
    { cbn [fst]. unfold set_state.
      cbn [service_states with_service_states with_mode].
      apply statuses_set; [simpl; tauto|exact Hall]. }
    destruct (m =? "cascading_failure").
    { unfold _trigger_cascade, set_state.
      cbn [fst service_states with_service_states with_mode].
      repeat (apply statuses_set; [simpl; tauto|]). exact Hall. }
    destruct (m =? "recovery"); [|exact Hall].
    now apply statuses_begin_recovery.
  - unfold sleep.
    pose proof (statuses_run_until (budget (scheduled loop))
                  (time loop + delay)%Z self loop Hall) as Hnext.
    now destruct (run_until _ _ _ _) as [self' loop'].
Qed.

(** Every engine reached from a fresh one has its statuses in the model. *)
Lemma reachable_statuses_in_model (trace : list action) (now : Z) :
  statuses_in_model
    (service_states (fst (run trace (Chaos.__init__, idle_loop now)))).
Proof.
  unfold run.
  assert (Hgen : forall w,
             statuses_in_model (service_states (fst w)) ->
             statuses_in_model
               (service_states (fst (fold_left (fun w a => step a w) trace w)))).
  { induction trace as [|a trace IH]; intros [self loop] Hall; [exact Hall|].
    cbn [fold_left]. apply IH. now apply statuses_step. }
  apply Hgen. exact statuses_all_healthy.
Qed.
End GeneratedOnReachableEngines.

(** ** Worked examples *)

Section Examples.

(** The hundred-and-first event evicts the first. *)
Example history_evicts_oldest :
  let first := critical_event "auth" in
  let others := repeat (critical_event "payment") 100 in
  StateManager.recent_events
    (apply_events (first :: others) (StateManager.__init__ noon noon))
  = others.
Proof. vm_compute. reflexivity. Qed.

(** One critical entity out of five gives an integrity of 80. *)
Example integrity_after_one_critical :
  SystemState.system_integrity
    (StateManager.get_system_state noon
       (StateManager.update_from_event (critical_event "ai-brain")
          (StateManager.__init__ noon noon)))
  = 80%Q.
Proof. vm_compute. reflexivity. Qed.

(** An event for an entity outside the registry is recorded, nothing else. *)
Example unknown_entity_only_recorded :
  let before := StateManager.__init__ noon noon in
  let after := StateManager.update_from_event (critical_event "cache") before in
  StateManager.services after = StateManager.services before
  /\ StateManager.recent_events after = [critical_event "cache"].
Proof. split; reflexivity. Qed.

(** [limit = 0] on a history of one event returns that event. *)
Example recent_events_limit_zero_on_one_event :
  StateManager.get_recent_events 0
    (StateManager.update_from_event (critical_event "auth")
       (StateManager.__init__ noon noon))
  = [critical_event "auth"].
Proof. reflexivity. Qed.

(** Two sleeps of two time units complete the cascade like one of four. *)
Example cascade_in_two_sleeps :
  Chaos.service_states
    (fst (Chaos.run
            [Chaos.Call "cascading_failure"; Chaos.Sleep 2; Chaos.Sleep 2]
            (Chaos.__init__, Chaos.idle_loop 0)))
  = [("gateway", "healthy"); ("auth", "critical"); ("payment", "critical");
     ("ai-brain", "critical"); ("database", "warning")].
Proof. vm_compute. reflexivity. Qed.

(** Leaving the cascade for recovery before the second escalation: that
    escalation finds the guard closed and recovery completes. *)
Example recovery_cancels_pending_escalation :
  Chaos.run
    [Chaos.Call "cascading_failure"; Chaos.Sleep 3;
     Chaos.Call "recovery"; Chaos.Sleep 2]
    (Chaos.__init__, Chaos.idle_loop 0)
  = (Chaos.__init__, Chaos.idle_loop 5).
Proof. vm_compute. reflexivity. Qed.

(** An unknown mode name is rejected and the engine is untouched. *)
Example set_mode_rejects_unknown :
  Chaos.set_mode "meltdown" Chaos.__init__ (Chaos.idle_loop 0)
  = Raise ValueError.
Proof. reflexivity. Qed.

(** Stale escalations are not inert in general: the execution that leaves
    the cascade and returns to it tells the two loops apart. *)
Example stale_escalations_not_inert_in_general :
  ~ (forall trace self loop,
        Chaos.mode self <> "cascading_failure" ->
        fst (Chaos.run trace (self, loop))
        = fst (Chaos.run trace (self, drop_escalations loop))).
Proof.
  intros H.
  specialize (H [Chaos.Call "cascading_failure"; Chaos.Sleep 1]
                (fst (Chaos.run
                        [Chaos.Call "cascading_failure"; Chaos.Sleep 1;
                         Chaos.Call "steady_state"]
                        (Chaos.__init__, Chaos.idle_loop 0)))
                (snd (Chaos.run
                        [Chaos.Call "cascading_failure"; Chaos.Sleep 1;
                         Chaos.Call "steady_state"]
                        (Chaos.__init__, Chaos.idle_loop 0)))
                ltac:(vm_compute; discriminate)).
  vm_compute in H. discriminate H.
Qed.

(** A generated event for ai-brain, with the concrete source seeded at 42:
    the first draw is 0.042, below 0.05, so the healthy status blips to
    warning. *)
Example generated_event_sample :
  match Chaos.generate_event (RS := lcg_source) noon "ai-brain"
          Chaos.__init__ 42%Z with
  | Ok (event, _) =>
      Chaos.TelemetryEvent.status event = "warning"
      /\ Chaos.TelemetryEvent.latency_ms event = 1781%Z
      /\ Chaos.TelemetryEvent.traffic_volume event = 38%Z
      /\ Dict.get "tokens_in" (Chaos.TelemetryEvent.metadata event)
         = Some (PInt 381)
  | Raise _ => False
  end.
Proof. vm_compute. repeat split. Qed.
End Examples.

(** * Further coverage

    The remaining operations of the state manager, the broadcaster and the
    chaos engine, the endpoints of [backend/main.py] that drive them, and
    what their code guarantees. *)

(** ** State manager: any sequence of operations *)

(** The calls that mutate a state manager. *)
Inductive state_op : Type :=
| OpEvent (event : TelemetryEvent.t)
| OpSetStatus (service_id : string) (status : ServiceStatus) (now : datetime)
| OpIncrement
| OpDecrement.

Definition apply_op (op : state_op) (self : StateManager.t) : StateManager.t :=
  match op with
  | OpEvent event => StateManager.update_from_event event self
  | OpSetStatus service_id status now =>
      StateManager.set_service_status service_id status now self
  | OpIncrement => StateManager.increment_incidents self
  | OpDecrement => StateManager.decrement_incidents self
  end.

Definition apply_ops (ops : list state_op) (self : StateManager.t)
    : StateManager.t :=
  fold_left (fun s op => apply_op op s) ops self.

(** An entry of [services] that sits under its own identifier, at the
    placement the registry gives that identifier. *)
Definition registered (entry : string * ServiceState.t) : Prop :=
  ServiceState.service_id (snd entry) = fst entry
  /\ Dict.get (fst entry) SERVICE_POSITIONS
     = Some (ServiceState.position (snd entry)).

Section StateInvariant.
Import StateManager.

Lemma get_In_pair {V : Type} (d : Dict.t V) k v :
  Dict.get k d = Some v -> In (k, v) d.
Proof.
  induction d as [|[k0 v0] d IH]; [discriminate|]. cbn [Dict.get].
  destruct (String.eqb_spec k0 k) as [->|Hne].
  - intros H. inversion H; subst. now left.
  - intros H. right. now apply IH.
Qed.

Lemma Forall_set {V : Type} (P : string * V -> Prop) (d : Dict.t V) k v :
  P (k, v) -> Forall P d -> Forall P (Dict.set k v d).
Proof.
  intros Hnew Hall.
  induction d as [|[k0 v0] d IH]; cbn [Dict.set].
  - constructor; [exact Hnew|constructor].
  - inversion Hall as [|? ? Hhead Htail]; subst.
    destruct (k0 =? k); constructor;
      [exact Hnew|exact Htail|exact Hhead|now apply IH].
Qed.

Lemma set_service_status_keys id status now self :
  Dict.keys (services (set_service_status id status now self))
  = Dict.keys (services self).
Proof.
  unfold set_service_status.
  destruct (Dict.get id (services self)) as [current|] eqn:E; [|reflexivity].
  cbn [services]. apply keys_set_present.
  unfold Dict.contains. now rewrite E.
Qed.

Lemma apply_op_keys op self :
  Dict.keys (services (apply_op op self)) = Dict.keys (services self).
Proof.
  destruct op as [event|id status now| |]; cbn [apply_op].
  - apply update_from_event_keys.
  - apply set_service_status_keys.
  - reflexivity.
  - unfold decrement_incidents. now destruct (0 <? active_incidents self)%Z.
Qed.

Lemma apply_op_registered op self :
  Dict.keys (services self) = Dict.keys SERVICE_POSITIONS ->
  Forall registered (services self) ->
  Forall registered (services (apply_op op self)).
Proof.
  intros Hkeys Hall.
  destruct op as [event|id status now| |]; cbn [apply_op].
  - unfold update_from_event. cbn [services].
    destruct (Dict.contains (TelemetryEvent.service_id event) (services self))
      eqn:Hin; [|exact Hall].
    apply Forall_set; [|exact Hall].
    split; [reflexivity|]. cbn [fst snd ServiceState.position].
    apply get_in_keys in Hin. rewrite Hkeys in Hin.
    apply get_in_keys in Hin. unfold Dict.contains, Dict.get_default in *.
    now destruct (Dict.get _ SERVICE_POSITIONS).
  - unfold set_service_status.
    destruct (Dict.get id (services self)) as [current|] eqn:E; [|exact Hall].
    cbn [services]. apply Forall_set; [|exact Hall].
    apply get_In_pair in E. rewrite Forall_forall in Hall.
    destruct (Hall _ E) as [_ Hpos]. now split.
  - exact Hall.
  - unfold decrement_incidents. now destruct (0 <? active_incidents self)%Z.
Qed.

Lemma apply_op_history op self :
  max_events self = 100%nat ->
  (List.length (recent_events self) <= 100)%nat ->
  max_events (apply_op op self) = 100%nat
  /\ (List.length (recent_events (apply_op op self)) <= 100)%nat.
Proof.
  intros Hmax Hlen.
  destruct op as [event|id status now| |]; cbn [apply_op].
  - split; [exact Hmax|].
    rewrite update_from_event_history by lia.
    rewrite lastn_length. lia.
  - unfold set_service_status.
    destruct (Dict.get id (services self)); now split.
  - now split.
  - unfold decrement_incidents.
    destruct (0 <? active_incidents self)%Z; now split.
Qed.

Lemma apply_op_incidents op self :
  (0 <= active_incidents self)%Z ->
  (0 <= active_incidents (apply_op op self))%Z.
Proof.
  intros Hpos.
  destruct op as [event|id status now| |]; cbn [apply_op].
  - exact Hpos.
  - unfold set_service_status. now destruct (Dict.get id (services self)).
  - cbn [increment_incidents active_incidents]. lia.
  - unfold decrement_incidents.
    destruct (Z.ltb_spec 0 (active_incidents self));
      cbn [active_incidents]; lia.
Qed.

Lemma apply_ops_preserves (ops : list state_op) :
  forall self,
  Dict.keys (services self) = Dict.keys SERVICE_POSITIONS ->
  Forall registered (services self) ->
  max_events self = 100%nat ->
  (List.length (recent_events self) <= 100)%nat ->
  (0 <= active_incidents self)%Z ->
  let s := apply_ops ops self in
  Dict.keys (services s) = Dict.keys SERVICE_POSITIONS
  /\ Forall registered (services s)
  /\ (List.length (recent_events s) <= 100)%nat
  /\ (0 <= active_incidents s)%Z.
Proof.
  unfold apply_ops.
  induction ops as [|op ops IH]; intros self Hk Hr Hm Hl Hi.
  - cbn [fold_left]. now repeat split.
  - cbn [fold_left]. destruct (apply_op_history op self Hm Hl) as [Hm' Hl'].
    apply IH.
    + now rewrite apply_op_keys.
    + now apply apply_op_registered.
    + exact Hm'.
    + exact Hl'.
    + now apply apply_op_incidents.
Qed.

Lemma fresh_manager_registered (start now : datetime) :
  Forall registered (services (StateManager.__init__ start now)).
Proof. repeat constructor. Qed.

(** X1. Whatever events, manual overrides and incident-counter updates a
    fresh state manager goes through, it tracks exactly the entities of the
    registry, each under its own identifier and at its registry placement,
    keeps at most 100 events, and its incident counter is never negative. *)
Theorem state_manager_invariant
    (start now : datetime) (ops : list state_op) :
  let s := apply_ops ops (StateManager.__init__ start now) in
  Dict.keys (services s) = Dict.keys SERVICE_POSITIONS
  /\ Forall registered (services s)
  /\ (List.length (recent_events s) <= 100)%nat
  /\ (0 <= active_incidents s)%Z.
Proof.
  apply apply_ops_preserves.
  - reflexivity.
  - apply fresh_manager_registered.
  - reflexivity.
  - cbn [StateManager.__init__ recent_events List.length]. lia.
  - cbn [StateManager.__init__ active_incidents]. lia.
Qed.
End StateInvariant.

Section StateManagerFurther.
Import StateManager.

Lemma values_length_keys {V : Type} (d : Dict.t V) :
  List.length (Dict.values d) = List.length (Dict.keys d).
Proof. unfold Dict.values, Dict.keys. now rewrite !length_map. Qed.

Lemma registered_ids (d : Dict.t ServiceState.t) :
  Forall registered d ->
  map ServiceState.service_id (Dict.values d) = Dict.keys d.
Proof.
  unfold Dict.values, Dict.keys.
  induction 1 as [|[k v] d [Hid _] _ IH]; [reflexivity|].
  cbn [map fst snd] in *. now rewrite Hid, IH.
Qed.

(** X2. On every state a fresh manager can reach, the snapshot lists the
    five entities in registry order and its integrity is exactly twenty
    times the number of entities whose status is [HEALTHY]. *)
Theorem snapshot_of_reachable_state
    (start now at_ : datetime) (ops : list state_op) :
  let s := apply_ops ops (StateManager.__init__ start now) in
  let snapshot := get_system_state at_ s in
  map ServiceState.service_id (SystemState.services snapshot)
  = ["gateway"; "auth"; "payment"; "ai-brain"; "database"]
  /\ SystemState.system_integrity snapshot
     = inject_Z (20 * Z.of_nat (number_healthy (SystemState.services snapshot)))
  /\ SystemState.active_incidents snapshot = active_incidents s.
Proof.
  intros s snapshot.
  destruct (apply_ops_preserves ops (StateManager.__init__ start now))
    as (Hkeys & Hreg & _ & _);
    [reflexivity | apply fresh_manager_registered | reflexivity
    | simpl; lia | simpl; lia |].
  fold s in Hkeys, Hreg. subst snapshot. unfold get_system_state.
  cbn [SystemState.services SystemState.system_integrity
       SystemState.active_incidents].
  split; [|split; [|reflexivity]].
  - rewrite registered_ids by assumption. now rewrite Hkeys.
  - rewrite <- healthy_count_occurrences.
    pose proof (healthy_count_le (Dict.values (services s))) as Hle.
    assert (Hlen : List.length (Dict.values (services s)) = 5%nat).
    { rewrite values_length_keys. now rewrite Hkeys. }
    rewrite Hlen in *.
    assert (Hcases : In (healthy_count (Dict.values (services s)))
                        [0; 1; 2; 3; 4; 5]%nat).
    { destruct (healthy_count (Dict.values (services s))) as [|[|[|[|[|[|n]]]]]];
        simpl; try tauto. lia. }
    cbn [Nat.ltb Nat.leb].
    destruct Hcases as [<-|[<-|[<-|[<-|[<-|[<-|[]]]]]]];
      vm_compute; reflexivity.
Qed.

Lemma update_from_event_services_only e s1 s2 :
  services s1 = services s2 ->
  services (update_from_event e s1) = services (update_from_event e s2).
Proof. intros H. unfold update_from_event. cbn [services]. now rewrite H. Qed.

Lemma apply_events_services_only events : forall s1 s2,
  services s1 = services s2 ->
  services (apply_events events s1) = services (apply_events events s2).
Proof.
  induction events as [|e events IH]; intros s1 s2 H; [exact H|].
  unfold apply_events. cbn [fold_left].
  apply IH. now apply update_from_event_services_only.
Qed.

Lemma contains_by_keys {V : Type} (d1 d2 : Dict.t V) k :
  Dict.keys d1 = Dict.keys d2 -> Dict.contains k d1 = Dict.contains k d2.
Proof.
  intros Hkeys.
  destruct (Dict.contains k d1) eqn:E1, (Dict.contains k d2) eqn:E2;
    try reflexivity.
  - apply get_in_keys in E1. rewrite Hkeys in E1.
    apply get_in_keys in E1. congruence.
  - apply get_in_keys in E2. rewrite <- Hkeys in E2.
    apply get_in_keys in E2. congruence.
Qed.

(** X3. Events that name an entity the manager does not track never
    influence any entity state: the services after a sequence of events
    are those after the events for tracked entities alone, while the
    history still records every event up to its capacity. *)
Theorem unknown_entities_leave_services_alone
    (events : list TelemetryEvent.t) (self : StateManager.t) :
  let tracked e := Dict.contains (TelemetryEvent.service_id e) (services self) in
  services (apply_events events self)
  = services (apply_events (filter tracked events) self)
  /\ ((List.length (recent_events self) <= max_events self)%nat ->
      recent_events (apply_events events self)
      = lastn (max_events self) (recent_events self ++ events)).
Proof.
  intros tracked. split; [|apply apply_events_history].
  subst tracked. revert self.
  induction events as [|e events IH]; intros self; [reflexivity|].
  cbn [filter]. unfold apply_events at 1. cbn [fold_left].
  fold (apply_events events (update_from_event e self)).
  rewrite IH.
  rewrite (filter_ext
             (fun e0 => Dict.contains (TelemetryEvent.service_id e0)
                          (services (update_from_event e self)))
             (fun e0 => Dict.contains (TelemetryEvent.service_id e0)
                          (services self)))
    by (intros e0; apply contains_by_keys, update_from_event_keys).
  destruct (Dict.contains (TelemetryEvent.service_id e) (services self)) eqn:E.
  - reflexivity.
  - apply apply_events_services_only.
    unfold update_from_event. cbn [services]. now rewrite E.
Qed.

Lemma unknown_entities_leave_services_alone_witness :
  let self := StateManager.__init__ noon noon in
  recent_events
    (apply_events [critical_event "cache"; critical_event "auth"] self)
  = [critical_event "cache"; critical_event "auth"].
Proof.
  intros self.
  refine (proj2 (unknown_entities_leave_services_alone
                   [critical_event "cache"; critical_event "auth"] self) _).
  simpl. lia.
Defined.

(** X4. The incident counter is floored at zero: decrementing at zero
    changes nothing, and on a non-negative counter a decrement undoes an
    increment. *)
Theorem incident_counter_round_trip (self : StateManager.t) :
  (0 <= active_incidents self)%Z ->
  decrement_incidents (increment_incidents self) = self
  /\ (active_incidents self = 0%Z -> decrement_incidents self = self)
  /\ active_incidents (decrement_incidents self)
     = Z.max 0 (active_incidents self - 1).
Proof.
  intros Hpos. destruct self as [sv ev mx ai st]. cbn [active_incidents] in *.
  unfold decrement_incidents, increment_incidents. cbn [active_incidents].
  destruct (Z.ltb_spec 0 (ai + 1)) as [_|Hbad]; [|lia].
  split; [f_equal; lia|]. split.
  - intros ->. reflexivity.
  - destruct (Z.ltb_spec 0 ai); cbn [active_incidents]; lia.
Qed.

Lemma incident_counter_round_trip_witness :
  let self := StateManager.__init__ noon noon in
  decrement_incidents (increment_incidents self) = self.
Proof.
  intros self.
  refine (proj1 (incident_counter_round_trip self _)). simpl. lia.
Defined.

(** X5. [get_recent_events] with a positive limit returns the newest
    [min limit (history length)] events in arrival order; with a negative
    limit [-k] it returns instead the history without its [k] oldest
    events. *)
Theorem get_recent_events_by_sign (limit : Z) (self : StateManager.t) :
  limit <> 0%Z ->
  get_recent_events limit self
  = if (0 <? limit)%Z
    then lastn (Nat.min (Z.to_nat limit) (List.length (recent_events self)))
               (recent_events self)
    else skipn (Z.to_nat (- limit)) (recent_events self).
Proof.
  intros Hnz. destruct (Z.ltb_spec 0 limit) as [Hpos|Hneg].
  - now apply get_recent_events_positive_limit.
  - unfold get_recent_events, slice_from.
    destruct (Z.ltb_spec (- limit) 0) as [Hbad|_]; [lia|].
    destruct (Z.le_gt_cases (- limit)
                (Z.of_nat (List.length (recent_events self)))) as [Hle|Hgt].
    + now rewrite Z.min_l by lia.
    + rewrite Z.min_r by lia. rewrite Nat2Z.id.
      rewrite skipn_all. symmetry. apply skipn_all2. lia.
Qed.

Lemma get_recent_events_by_sign_witness :
  get_recent_events 1
    (apply_events [critical_event "auth"; critical_event "payment"]
       (StateManager.__init__ noon noon))
  = [critical_event "payment"].
Proof.
  rewrite (get_recent_events_by_sign 1) by discriminate. reflexivity.
Defined.
End StateManagerFurther.

(** ** Event model: boundary validation *)

Section Validation.

Lemma ServiceStatus_round_trip (text : string) (status : ServiceStatus) :
  ServiceStatus_of_value text = Ok status <-> ServiceStatus_value status = text.
Proof.
  unfold ServiceStatus_of_value. split.
  - destruct (String.eqb_spec text "healthy") as [->|_];
      [intros H; inversion H; reflexivity|].
    destruct (String.eqb_spec text "warning") as [->|_];
      [intros H; inversion H; reflexivity|].
    destruct (String.eqb_spec text "critical") as [->|_];
      [intros H; inversion H; reflexivity|discriminate].
  - intros <-. now destruct status.
Qed.

(** X6. The validating constructor of [TelemetryEvent] accepts exactly the
    inputs whose status is the value of an enum member and whose latency,
    error rate and traffic volume lie within their inclusive bounds
    (0..10000, 0..1, 0..100); what it accepts it stores unchanged, and
    everything else is a validation error. *)
Theorem telemetry_event_validation
    (timestamp service_id status : string) (latency_ms : Z) (error_rate : Q)
    (traffic_volume : Z) (message : string) (metadata : Dict.t pyval) :
  let built :=
    TelemetryEvent.__init__ timestamp service_id status latency_ms error_rate
      traffic_volume message metadata in
  ((exists member, ServiceStatus_value member = status)
   /\ (0 <= latency_ms <= 10000)%Z
   /\ (0 <= error_rate)%Q /\ (error_rate <= 1)%Q
   /\ (0 <= traffic_volume <= 100)%Z
   <-> exists event, built = Ok event)
  /\ match built with
     | Ok event =>
         TelemetryEvent.timestamp event = timestamp
         /\ TelemetryEvent.service_id event = service_id
         /\ ServiceStatus_value (TelemetryEvent.status event) = status
         /\ TelemetryEvent.latency_ms event = latency_ms
         /\ TelemetryEvent.error_rate event = error_rate
         /\ TelemetryEvent.traffic_volume event = traffic_volume
         /\ TelemetryEvent.message event = message
         /\ TelemetryEvent.metadata event = metadata
     | Raise e => e = ValidationError
     end.
Proof.
  intros built. subst built. unfold TelemetryEvent.__init__.
  destruct (ServiceStatus_of_value status) as [member|e] eqn:Hstatus.
  - apply ServiceStatus_round_trip in Hstatus.
    destruct (Z.leb_spec 0 latency_ms) as [L1|L1];
      destruct (Z.leb_spec latency_ms 10000) as [L2|L2];
      destruct (Qle_bool 0 error_rate) eqn:E1;
      destruct (Qle_bool error_rate 1) eqn:E2;
      destruct (Z.leb_spec 0 traffic_volume) as [T1|T1];
      destruct (Z.leb_spec traffic_volume 100) as [T2|T2];
      cbn [andb];
      try apply Qle_bool_iff in E1; try apply Qle_bool_iff in E2;
      (split;
       [split;
        [intros (_ & Hl & He1 & He2 & Ht);
         try (eexists; reflexivity);
         try lia;
         try (apply Qle_bool_iff in He1; congruence);
         try (apply Qle_bool_iff in He2; congruence)
        |intros [event Hev]; try discriminate;
         repeat split; try assumption; try lia; now exists member]
       |try reflexivity; now repeat split]).
  - split; [|reflexivity].
    split.
    + intros ([member Hm] & _). apply ServiceStatus_round_trip in Hm.
      congruence.
    + intros [event Hev]. discriminate.
Qed.

(** The boundary values themselves are accepted and reach the entity state
    as they are. *)
Example boundary_event_round_trip :
  match TelemetryEvent.__init__ "t" "auth" "warning" 10000 1 0 "m" [] with
  | Ok event =>
      Dict.get "auth"
        (StateManager.services
           (StateManager.update_from_event event
              (StateManager.__init__ noon noon)))
      = Some {| ServiceState.service_id := "auth";
                ServiceState.status := WARNING;
                ServiceState.latency_ms := 10000;
                ServiceState.error_rate := 1;
                ServiceState.traffic_volume := 0;
                ServiceState.last_updated := "t";
                ServiceState.position := (4.76, 0, 1.55)%Q |}
  | Raise _ => False
  end.
Proof. reflexivity. Qed.
End Validation.

(** ** Broadcaster: registration *)

(** ** Broadcaster: registration *)

(** Whether a critical section names the client [client_id]; a broadcast
    names nobody. *)
Definition names (client_id : string) (op : WebSocketManager.ws_op) : bool :=
  match op with
  | WebSocketManager.WsRegister _ id
  | WebSocketManager.WsDisconnect id
  | WebSocketManager.WsSendPersonal id _ => id =? client_id
  | WebSocketManager.WsBroadcast _ => false
  end.

(** The critical sections of other coroutines: until [connect] returns the
    identifier it drew, no other coroutine has it to name (two draws of
    [uuid4] are taken to differ). *)
Definition foreign_to (client_id : string)
    (ops : list WebSocketManager.ws_op) : bool :=
  forallb (fun op => negb (names client_id op)) ops.

(** The message that a critical section sends to everybody, if any. *)
Definition heard (op : WebSocketManager.ws_op)
    : list WebSocketManager.message :=
  match op with
  | WebSocketManager.WsBroadcast m => [m]
  | _ => []
  end.

(** The messages that a run of critical sections broadcasts, in order. *)
Definition broadcasts (ops : list WebSocketManager.ws_op)
    : list WebSocketManager.message :=
  flat_map heard ops.

(** What becomes of a registered socket that nobody names while the
    messages [ms] are broadcast: a live socket is sent each of them, a dead
    one stays as it is until the first broadcast drops it. *)
Definition after_broadcasts (websocket : WebSocketManager.WebSocket)
    (ms : list WebSocketManager.message)
    : option WebSocketManager.WebSocket :=
  if WebSocketManager.connected websocket then
    Some {| WebSocketManager.connected := true;
            WebSocketManager.received :=
              WebSocketManager.received websocket ++ ms |}
  else match ms with
       | [] => Some websocket
       | _ :: _ => None
       end.

(** What [send_personal] leaves of the socket it addresses. *)
Definition sent (m : WebSocketManager.message)
    (websocket : WebSocketManager.WebSocket) : WebSocketManager.WebSocket :=
  if WebSocketManager.connected websocket then
    {| WebSocketManager.connected := true;
       WebSocketManager.received :=
         WebSocketManager.received websocket ++ [m] |}
  else websocket.

Section Registration.
Import WebSocketManager.

Lemma contains_false_keys {V : Type} (d : Dict.t V) k :
  Dict.contains k d = false <-> ~ In k (Dict.keys d).
Proof.
  split.
  - intros H Hin. apply get_in_keys in Hin. congruence.
  - intros Hnot. destruct (Dict.contains k d) eqn:E; [|reflexivity].
    exfalso. apply Hnot. now apply get_in_keys.
Qed.

Lemma set_absent {V : Type} (d : Dict.t V) k v :
  Dict.contains k d = false -> Dict.set k v d = d ++ [(k, v)].
Proof.
  unfold Dict.contains.
  induction d as [|[k0 v0] d IH]; [reflexivity|]. cbn [Dict.get Dict.set app].
  destruct (k0 =? k); [discriminate|]. intros H. now rewrite IH.
Qed.

Lemma del_last {V : Type} (d : Dict.t V) k v :
  Dict.contains k d = false -> Dict.del k (d ++ [(k, v)]) = Some d.
Proof.
  unfold Dict.contains.
  induction d as [|[k0 v0] d IH]; cbn [Dict.get Dict.del app].
  - now rewrite String.eqb_refl.
  - destruct (k0 =? k); [discriminate|]. intros H. now rewrite IH.
Qed.

(** [del] takes out the first entry under the key. *)
Lemma del_spec {V : Type} (d : Dict.t V) k :
  match Dict.del k d with
  | Some d' =>
      exists pre v post,
        d = pre ++ (k, v) :: post /\ d' = pre ++ post
        /\ ~ In k (Dict.keys pre)
  | None => Dict.contains k d = false
  end.
Proof.
  unfold Dict.contains.
  induction d as [|[k0 v0] d IH]; [reflexivity|]. cbn [Dict.del Dict.get].
  destruct (String.eqb_spec k0 k) as [->|Hne].
  - now exists [], v0, d.
  - destruct (Dict.del k d) as [d'|]; [|exact IH].
    destruct IH as (pre & v & post & -> & -> & Hnot).
    exists ((k0, v0) :: pre), v, post. repeat split.
    intros [Heq|Hin]; [now apply Hne|now apply Hnot].
Qed.

Lemma keys_app {V : Type} (d1 d2 : Dict.t V) :
  Dict.keys (d1 ++ d2) = Dict.keys d1 ++ Dict.keys d2.
Proof. unfold Dict.keys. apply map_app. Qed.

Lemma get_app_absent {V : Type} (d1 d2 : Dict.t V) k :
  ~ In k (Dict.keys d1) -> Dict.get k (d1 ++ d2) = Dict.get k d2.
Proof.
  induction d1 as [|[k0 v0] d1 IH]; [reflexivity|]. cbn [Dict.keys map fst].
  intros Hnot. cbn [app Dict.get].
  destruct (String.eqb_spec k0 k) as [->|Hne].
  - exfalso. apply Hnot. now left.
  - apply IH. intros Hin. apply Hnot. now right.
Qed.

Lemma get_app_present {V : Type} (d1 d2 : Dict.t V) k :
  In k (Dict.keys d1) -> Dict.get k (d1 ++ d2) = Dict.get k d1.
Proof.
  induction d1 as [|[k0 v0] d1 IH]; [intros []|]. cbn [Dict.keys map fst].
  intros Hin. cbn [app Dict.get].
  destruct (String.eqb_spec k0 k) as [->|Hne]; [reflexivity|].
  apply IH. destruct Hin as [Heq|Hin]; [contradiction|exact Hin].
Qed.

Lemma NoDup_keys_set {V : Type} (d : Dict.t V) k v :
  NoDup (Dict.keys d) -> NoDup (Dict.keys (Dict.set k v d)).
Proof.
  intros Hnd. destruct (Dict.contains k d) eqn:E.
  - now rewrite keys_set_present.
  - rewrite set_absent, keys_app by assumption.
    apply contains_false_keys in E. cbn [Dict.keys map fst].
    apply NoDup_rev in Hnd. rewrite <- (rev_involutive (_ ++ _)).
    apply NoDup_rev. rewrite rev_unit. constructor; [|exact Hnd].
    intros Hin. apply E. now apply in_rev.
Qed.

Lemma NoDup_keys_filter {V : Type} (f : string * V -> bool) (d : Dict.t V) :
  NoDup (Dict.keys d) -> NoDup (Dict.keys (filter f d)).
Proof.
  unfold Dict.keys.
  induction d as [|[k v] d IH]; intros Hnd; [constructor|].
  cbn [map fst] in Hnd. inversion Hnd as [|? ? Hnot Hnd']; subst.
  cbn [filter]. destruct (f (k, v)); [|now apply IH].
  cbn [map fst]. constructor; [|now apply IH].
  intros Hin. apply Hnot.
  apply in_map_iff in Hin as ([k' v'] & Hk & Hin).
  apply filter_In in Hin as [Hin _].
  apply in_map_iff. now exists (k', v').
Qed.

Lemma get_without_entry {V : Type} (pre post : Dict.t V) k v other :
  k <> other ->
  Dict.get other (pre ++ (k, v) :: post) = Dict.get other (pre ++ post).
Proof.
  intros Hne. induction pre as [|[k0 v0] pre IH]; cbn [app Dict.get].
  - destruct (String.eqb_spec k other); [contradiction|reflexivity].
  - now rewrite IH.
Qed.

Lemma del_in_place {V : Type} (pre post : Dict.t V) k v :
  ~ In k (Dict.keys pre) ->
  Dict.del k (pre ++ (k, v) :: post) = Some (pre ++ post).
Proof.
  induction pre as [|[k0 v0] pre IH]; cbn [app Dict.del Dict.keys map fst].
  - now rewrite String.eqb_refl.
  - intros Hnot. destruct (String.eqb_spec k0 k) as [->|Hne].
    + exfalso. apply Hnot. now left.
    + rewrite IH; [reflexivity|]. intros Hin. apply Hnot. now right.
Qed.

Lemma get_in_place {V : Type} (pre post : Dict.t V) k v :
  ~ In k (Dict.keys pre) -> Dict.get k (pre ++ (k, v) :: post) = Some v.
Proof.
  intros Hnot. rewrite get_app_absent by assumption.
  cbn [Dict.get]. now rewrite String.eqb_refl.
Qed.

(** An assignment under another key leaves an entry where it is. *)
Lemma set_around {V : Type} (pre post : Dict.t V) k v id w :
  k <> id ->
  exists pre' post',
    Dict.set k v (pre ++ (id, w) :: post) = pre' ++ (id, w) :: post'
    /\ Dict.set k v (pre ++ post) = pre' ++ post'.
Proof.
  intros Hne. induction pre as [|[k0 v0] pre IH]; cbn [app Dict.set].
  - destruct (String.eqb_spec id k) as [E|_]; [now symmetry in E|].
    now exists [], (Dict.set k v post).
  - destruct (k0 =? k).
    + now exists ((k, v) :: pre), post.
    + destruct IH as (pre' & post' & E1 & E2).
      exists ((k0, v0) :: pre'), post'. cbn [app]. now rewrite E1, E2.
Qed.

(** So does a deletion under another key. *)
Lemma del_around {V : Type} (pre post : Dict.t V) k id w :
  k <> id ->
  match Dict.del k (pre ++ post) with
  | Some d =>
      exists pre' post',
        d = pre' ++ post'
        /\ Dict.del k (pre ++ (id, w) :: post)
           = Some (pre' ++ (id, w) :: post')
  | None => Dict.del k (pre ++ (id, w) :: post) = None
  end.
Proof.
  intros Hne. induction pre as [|[k0 v0] pre IH]; cbn [app Dict.del].
  - destruct (String.eqb_spec id k) as [E|_]; [now symmetry in E|].
    destruct (Dict.del k post) as [d|]; [|reflexivity].
    now exists [], d.
  - destruct (k0 =? k).
    + now exists pre, post.
    + destruct (Dict.del k (pre ++ post)) as [d|].
      * destruct IH as (pre' & post' & -> & E).
        exists ((k0, v0) :: pre'), post'. split; [reflexivity|].
        now rewrite E.
      * now rewrite IH.
Qed.

Lemma NoDup_keys_around {V : Type} (pre post : Dict.t V) id w :
  NoDup (Dict.keys (pre ++ (id, w) :: post)) ->
  NoDup (Dict.keys (pre ++ post))
  /\ ~ In id (Dict.keys (pre ++ post))
  /\ ~ In id (Dict.keys pre).
Proof.
  rewrite !keys_app. cbn [Dict.keys map fst]. intros Hnd.
  split; [now apply NoDup_remove_1 in Hnd|].
  apply NoDup_remove_2 in Hnd. split; [exact Hnd|].
  intros Hin. apply Hnd, in_or_app. now left.
Qed.

Lemma NoDup_keys_registered {V : Type} (d : Dict.t V) id w :
  NoDup (Dict.keys d) -> Dict.contains id d = false ->
  NoDup (Dict.keys (d ++ [(id, w)])).
Proof.
  intros Hnd Hfresh. rewrite <- (set_absent _ _ _ Hfresh).
  now apply NoDup_keys_set.
Qed.

(** Every critical section returns, and keeps the keys distinct. *)
Lemma ws_step_distinct op self :
  NoDup (Dict.keys (active_connections self)) ->
  exists self',
    ws_step op self = Ok self'
    /\ NoDup (Dict.keys (active_connections self')).
Proof.
  intros Hnd. destruct op as [websocket client_id|client_id|client_id m|m];
    cbn [ws_step].
  - eexists. split; [reflexivity|].
    unfold register. cbn [active_connections]. now apply NoDup_keys_set.
  - eexists. split; [reflexivity|]. unfold disconnect.
    destruct (Dict.contains client_id (active_connections self));
      [|exact Hnd].
    pose proof (del_spec (active_connections self) client_id) as Hdel.
    destruct (Dict.del client_id (active_connections self)) as [d'|];
      [|exact Hnd].
    destruct Hdel as (pre & v & post & Hd & -> & _).
    cbn [active_connections]. rewrite Hd in Hnd.
    rewrite keys_app in *. cbn [Dict.keys map fst] in Hnd.
    now apply NoDup_remove_1 in Hnd.
  - eexists. split; [reflexivity|]. unfold send_personal.
    destruct (Dict.get client_id (active_connections self)); [|exact Hnd].
    destruct (send_json m w); [|exact Hnd].
    cbn [active_connections]. now apply NoDup_keys_set.
  - eexists. split; [now apply broadcast_spec|].
    cbn [active_connections]. rewrite keys_delivered.
    now apply NoDup_keys_filter.
Qed.

Lemma ws_run_distinct ops : forall self,
  NoDup (Dict.keys (active_connections self)) ->
  exists self',
    ws_run ops self = Ok self'
    /\ NoDup (Dict.keys (active_connections self')).
Proof.
  induction ops as [|op ops IH]; intros self Hnd.
  - now exists self.
  - destruct (ws_step_distinct op self Hnd) as (self1 & Hstep & Hnd1).
    cbn [ws_run]. rewrite Hstep. now apply IH.
Qed.

Lemma ws_run_app ops1 ops2 self :
  ws_run (ops1 ++ ops2) self
  = match ws_run ops1 self with
    | Ok self' => ws_run ops2 self'
    | Raise e => Raise e
    end.
Proof.
  revert self. induction ops1 as [|op ops1 IH]; intros self; [reflexivity|].
  cbn [app ws_run]. destruct (ws_step op self); [apply IH|reflexivity].
Qed.

Lemma after_no_broadcast websocket :
  after_broadcasts websocket [] = Some websocket.
Proof.
  unfold after_broadcasts. destruct websocket as [[|] inbox]; [|reflexivity].
  cbn [connected received]. now rewrite app_nil_r.
Qed.

Lemma after_broadcasts_app websocket ms1 ms2 :
  after_broadcasts websocket (ms1 ++ ms2)
  = match after_broadcasts websocket ms1 with
    | Some websocket' => after_broadcasts websocket' ms2
    | None => None
    end.
Proof.
  unfold after_broadcasts. destruct (connected websocket) eqn:Hc.
  - cbn [connected received]. now rewrite app_assoc.
  - destruct ms1; cbn [app]; [now rewrite Hc|reflexivity].
Qed.

(** [send_personal] to a registered client, in closed form. *)
Lemma send_personal_in_place pre post client_id websocket m :
  ~ In client_id (Dict.keys pre) ->
  send_personal client_id m
    {| active_connections := pre ++ (client_id, websocket) :: post |}
  = {| active_connections := pre ++ (client_id, sent m websocket) :: post |}.
Proof.
  intros Hnot. unfold send_personal, send_json, sent.
  cbn [active_connections]. rewrite get_in_place by assumption.
  destruct (connected websocket); [|reflexivity].
  now rewrite set_in_place.
Qed.

Lemma send_personal_absent client_id m self :
  ~ In client_id (Dict.keys (active_connections self)) ->
  send_personal client_id m self = self.
Proof.
  intros Hnot. unfold send_personal. now rewrite get_absent_keys.
Qed.

(** One critical section of another coroutine acts on the other
    connections as if the client were not registered; of the client's own
    socket it changes only what a broadcast changes. *)
Lemma foreign_step op client_id websocket pre post :
  names client_id op = false ->
  NoDup (Dict.keys (pre ++ (client_id, websocket) :: post)) ->
  exists pre' post',
    ws_step op {| active_connections := pre ++ post |}
    = Ok {| active_connections := pre' ++ post' |}
    /\ ws_step op
         {| active_connections := pre ++ (client_id, websocket) :: post |}
       = Ok {| active_connections :=
                 match after_broadcasts websocket (heard op) with
                 | Some websocket' =>
                     pre' ++ (client_id, websocket') :: post'
                 | None => pre' ++ post'
                 end |}.
Proof.
  intros Hforeign Hnd.
  destruct (NoDup_keys_around _ _ _ _ Hnd) as (Hnd' & _ & _).
  destruct op as [websocket' k|k|k m|m]; cbn [names] in Hforeign;
    cbn [heard ws_step]; rewrite ?after_no_broadcast;
    try (apply String.eqb_neq in Hforeign).
  - unfold register. cbn [active_connections].
    destruct (set_around pre post k websocket' client_id websocket Hforeign)
      as (pre' & post' & E1 & E2).
    exists pre', post'. now rewrite E1, E2.
  - unfold disconnect, Dict.contains. cbn [active_connections].
    rewrite get_without_entry by congruence.
    destruct (Dict.get k (pre ++ post)); [|now exists pre, post].
    pose proof (del_around pre post k client_id websocket Hforeign) as Hdel.
    destruct (Dict.del k (pre ++ post)) as [d|].
    + destruct Hdel as (pre' & post' & -> & E).
      exists pre', post'. now rewrite E.
    + rewrite Hdel. now exists pre, post.
  - unfold send_personal. cbn [active_connections].
    rewrite get_without_entry by congruence.
    destruct (Dict.get k (pre ++ post)) as [target|]; [|now exists pre, post].
    destruct (send_json m target) as [target'|]; [|now exists pre, post].
    cbn [active_connections].
    destruct (set_around pre post k target' client_id websocket Hforeign)
      as (pre' & post' & E1 & E2).
    exists pre', post'. now rewrite E1, E2.
  - exists (map (delivered m) (filter live pre)),
           (map (delivered m) (filter live post)).
    rewrite !broadcast_spec by assumption. cbn [active_connections].
    rewrite !filter_app, !map_app. split; [reflexivity|].
    cbn [filter]. unfold live at 2, after_broadcasts. cbn [snd].
    now destruct (connected websocket).
Qed.

(** The same for a whole run of them. *)
Lemma foreign_run queued : forall client_id websocket pre post,
  foreign_to client_id queued = true ->
  NoDup (Dict.keys (pre ++ (client_id, websocket) :: post)) ->
  exists others,
    ws_run queued {| active_connections := pre ++ post |} = Ok others
    /\ NoDup (Dict.keys (active_connections others))
    /\ match after_broadcasts websocket (broadcasts queued) with
       | Some websocket' =>
           exists pre' post',
             active_connections others = pre' ++ post'
             /\ ws_run queued
                  {| active_connections :=
                       pre ++ (client_id, websocket) :: post |}
                = Ok {| active_connections :=
                          pre' ++ (client_id, websocket') :: post' |}
             /\ NoDup (Dict.keys (pre' ++ (client_id, websocket') :: post'))
       | None =>
           ws_run queued
             {| active_connections := pre ++ (client_id, websocket) :: post |}
           = Ok others
       end.
Proof.
  induction queued as [|op queued IH];
    intros client_id websocket pre post Hforeign Hnd.
  - exists {| active_connections := pre ++ post |}.
    split; [reflexivity|].
    split; [now apply (NoDup_keys_around _ _ _ _ Hnd)|].
    cbn [broadcasts flat_map]. rewrite after_no_broadcast.
    now exists pre, post.
  - cbn [foreign_to forallb] in Hforeign.
    apply andb_true_iff in Hforeign as [Hop Hrest].
    apply negb_true_iff in Hop.
    destruct (foreign_step op client_id websocket pre post Hop Hnd)
      as (pre1 & post1 & E1 & E2).
    destruct (ws_step_distinct op
                {| active_connections :=
                     pre ++ (client_id, websocket) :: post |} Hnd)
      as (with1 & Hwith & Hnd1).
    rewrite E2 in Hwith. injection Hwith as <-.
    cbn [active_connections] in Hnd1.
    cbn [ws_run broadcasts flat_map]. rewrite E1, E2.
    fold (broadcasts queued). rewrite after_broadcasts_app.
    destruct (after_broadcasts websocket (heard op)) as [websocket1|].
    + apply (IH client_id websocket1 pre1 post1 Hrest Hnd1).
    + destruct (ws_run_distinct queued
                  {| active_connections := pre1 ++ post1 |} Hnd1)
        as (others & Hrun & Hnd').
      exists others. now rewrite Hrun.
Qed.

(** What the other coroutines do never registers the client. *)
Lemma foreign_run_absent queued client_id self others :
  foreign_to client_id queued = true ->
  NoDup (Dict.keys (active_connections self)) ->
  Dict.contains client_id (active_connections self) = false ->
  ws_run queued self = Ok others ->
  ~ In client_id (Dict.keys (active_connections others)).
Proof.
  intros Hforeign Hnd Hfresh Hrun.
  set (probe := {| connected := true; received := [] |}).
  destruct (foreign_run queued client_id probe (active_connections self) []
              Hforeign (NoDup_keys_registered _ _ _ Hnd Hfresh))
    as (others' & Hrun' & _ & Hsim).
  rewrite app_nil_r in Hrun'. destruct self as [d].
  cbn [active_connections] in *. rewrite Hrun in Hrun'.
  injection Hrun' as <-.
  unfold after_broadcasts in Hsim. cbn [probe connected] in Hsim.
  destruct Hsim as (pre' & post' & -> & _ & Hnd').
  now apply (NoDup_keys_around _ _ _ _ Hnd').
Qed.

(** [connect] with nothing waiting for the lock. *)
Lemma connect_alone
    (websocket : WebSocket) (client_id : string) (now : datetime) (self : t) :
  Dict.contains client_id (active_connections self) = false ->
  connect websocket client_id now [] self
  = Ok {| active_connections :=
            active_connections self
            ++ [(client_id, sent (connection_ack client_id now) websocket)] |}.
Proof.
  intros Hfresh. unfold connect, register. cbn [ws_run]. f_equal.
  rewrite (set_absent (active_connections self)) by assumption.
  apply send_personal_in_place. now apply contains_false_keys.
Qed.

(** [connect] in closed form: the other connections are what the waiting
    coroutines make of them, and the new socket, unless a broadcast has
    dropped it in between, is registered with the acknowledgment sent after
    whatever was broadcast in between. *)
Lemma connect_spec
    (websocket : WebSocket) (client_id : string) (now : datetime)
    (queued : list ws_op) (self : t) :
  NoDup (Dict.keys (active_connections self)) ->
  Dict.contains client_id (active_connections self) = false ->
  foreign_to client_id queued = true ->
  exists others,
    ws_run queued self = Ok others
    /\ NoDup (Dict.keys (active_connections others))
    /\ ~ In client_id (Dict.keys (active_connections others))
    /\ match after_broadcasts websocket (broadcasts queued) with
       | Some websocket' =>
           exists pre post,
             active_connections others = pre ++ post
             /\ ~ In client_id (Dict.keys pre)
             /\ connect websocket client_id now queued self
                = Ok {| active_connections :=
                          pre ++ (client_id,
                                  sent (connection_ack client_id now)
                                    websocket') :: post |}
       | None => connect websocket client_id now queued self = Ok others
       end.
Proof.
  intros Hnd Hfresh Hforeign.
  pose proof (NoDup_keys_registered _ client_id websocket Hnd Hfresh) as Hnd1.
  destruct (foreign_run queued client_id websocket (active_connections self)
              [] Hforeign Hnd1) as (others & Hrun & Hnd' & Hsim).
  rewrite app_nil_r in Hrun.
  assert (Hself : {| active_connections := active_connections self |} = self)
    by now destruct self.
  rewrite Hself in Hrun.
  pose proof (foreign_run_absent queued client_id self others Hforeign Hnd
                Hfresh Hrun) as Habsent.
  exists others. split; [exact Hrun|]. split; [exact Hnd'|].
  split; [exact Habsent|].
  unfold connect, register.
  rewrite (set_absent (active_connections self)) by assumption.
  destruct (after_broadcasts websocket (broadcasts queued)) as [websocket'|].
  - destruct Hsim as (pre & post & Hothers & Hwith & Hnd2).
    destruct (NoDup_keys_around _ _ _ _ Hnd2) as (_ & _ & Hpre).
    exists pre, post. split; [exact Hothers|]. split; [exact Hpre|].
    rewrite Hwith. now rewrite send_personal_in_place.
  - rewrite Hsim. now rewrite send_personal_absent.
Qed.

(** X7. [connect] under a fresh identifier returns, whatever the coroutines
    waiting for the lock do between its registration and its
    acknowledgment.  A live socket ends up registered, having been sent
    the broadcasts that ran in between and then the acknowledgment that
    carries its identifier; a dead socket is registered and left as it is,
    the failed acknowledgment being swallowed, unless a broadcast in
    between has already dropped it.  The other connections are exactly what
    the waiting coroutines make of them; with nothing waiting, the socket is
    registered last and the count goes up by one. *)
Theorem connect_registers
    (websocket : WebSocket) (client_id : string) (now : datetime)
    (queued : list ws_op) (self : t) :
  NoDup (Dict.keys (active_connections self)) ->
  Dict.contains client_id (active_connections self) = false ->
  foreign_to client_id queued = true ->
  exists others self',
    ws_run queued self = Ok others
    /\ connect websocket client_id now queued self = Ok self'
    /\ (forall other, client_id <> other ->
          Dict.get other (active_connections self')
          = Dict.get other (active_connections others))
    /\ Dict.get client_id (active_connections self')
       = (if connected websocket
          then Some {| connected := true;
                       received := received websocket ++ broadcasts queued
                                   ++ [connection_ack client_id now] |}
          else match broadcasts queued with
               | [] => Some websocket
               | _ :: _ => None
               end)
    /\ (queued = [] ->
        active_connections self'
        = active_connections self
          ++ [(client_id,
               if connected websocket
               then {| connected := true;
                       received := received websocket
                                   ++ [connection_ack client_id now] |}
               else websocket)]
        /\ connection_count self' = S (connection_count self)).
Proof.
  intros Hnd Hfresh Hforeign.
  destruct (connect_spec websocket client_id now queued self Hnd Hfresh
              Hforeign) as (others & Hrun & _ & Habsent & Hconnect).
  exists others.
  assert (Hsimple : forall self',
             connect websocket client_id now queued self = Ok self' ->
             queued = [] ->
             active_connections self'
             = active_connections self
               ++ [(client_id,
                    if connected websocket
                    then {| connected := true;
                            received := received websocket
                                        ++ [connection_ack client_id now] |}
                    else websocket)]
             /\ connection_count self' = S (connection_count self)).
  { intros self' Hself' ->. rewrite connect_alone in Hself' by assumption.
    injection Hself' as <-. unfold connection_count.
    cbn [active_connections]. rewrite length_app. unfold sent.
    split; [reflexivity|]. simpl. lia. }
  unfold after_broadcasts in Hconnect.
  destruct (connected websocket) eqn:Hlive.
  - destruct Hconnect as (pre & post & Hothers & Hpre & Hconnect).
    eexists. split; [exact Hrun|]. split; [exact Hconnect|].
    cbn [active_connections]. rewrite Hothers.
    split; [intros other Hne; now apply get_without_entry|].
    split; [|exact (Hsimple _ Hconnect)].
    rewrite get_in_place by assumption. unfold sent.
    cbn [connected received]. now rewrite <- app_assoc.
  - destruct (broadcasts queued) as [|m ms].
    + destruct Hconnect as (pre & post & Hothers & Hpre & Hconnect).
      eexists. split; [exact Hrun|]. split; [exact Hconnect|].
      cbn [active_connections]. rewrite Hothers.
      split; [intros other Hne; now apply get_without_entry|].
      split; [|exact (Hsimple _ Hconnect)].
      rewrite get_in_place by assumption. unfold sent. now rewrite Hlive.
    + exists others. split; [exact Hrun|]. split; [exact Hconnect|].
      split; [reflexivity|].
      split; [now apply get_absent_keys|exact (Hsimple _ Hconnect)].
Qed.

Lemma connect_registers_witness :
  let up := {| connected := true; received := [] |} in
  exists others self',
    ws_run [WsBroadcast [("type", PStr "alert")]] WebSocketManager.__init__
    = Ok others
    /\ connect up "c1" noon [WsBroadcast [("type", PStr "alert")]]
         WebSocketManager.__init__
       = Ok self'
    /\ Dict.get "c1" (active_connections self')
       = Some {| connected := true;
                 received := [[("type", PStr "alert")];
                              connection_ack "c1" noon] |}.
Proof.
  intros up.
  destruct (connect_registers up "c1" noon
              [WsBroadcast [("type", PStr "alert")]] WebSocketManager.__init__)
    as (others & self' & Hrun & Hconnect & _ & Hget & _).
  - constructor.
  - reflexivity.
  - reflexivity.
  - exists others, self'. split; [exact Hrun|]. split; [exact Hconnect|].
    exact Hget.
Defined.

(** X8. Connecting under a fresh identifier and disconnecting it again
    gives back the manager as it was, whether or not the acknowledgment
    could be delivered; and if other coroutines held the lock in between,
    it gives back the manager as they alone would have left it. *)
Theorem connect_then_disconnect
    (websocket : WebSocket) (client_id : string) (now : datetime) (self : t) :
  Dict.contains client_id (active_connections self) = false ->
  (exists self',
      connect websocket client_id now [] self = Ok self'
      /\ disconnect client_id self' = self)
  /\ (NoDup (Dict.keys (active_connections self)) ->
      forall queued, foreign_to client_id queued = true ->
      exists self',
        connect websocket client_id now queued self = Ok self'
        /\ Ok (disconnect client_id self') = ws_run queued self).
Proof.
  intros Hfresh. split.
  - eexists. split; [now apply connect_alone|].
    unfold disconnect. cbn [active_connections].
    rewrite del_last by assumption.
    unfold Dict.contains. rewrite get_app_absent
      by now apply contains_false_keys.
    cbn [Dict.get]. rewrite String.eqb_refl. now destruct self.
  - intros Hnd queued Hforeign.
    destruct (connect_spec websocket client_id now queued self Hnd Hfresh
                Hforeign) as (others & Hrun & _ & Habsent & Hconnect).
    rewrite Hrun.
    destruct (after_broadcasts websocket (broadcasts queued))
      as [websocket'|].
    + destruct Hconnect as (pre & post & Hothers & Hpre & Hconnect).
      eexists. split; [exact Hconnect|]. f_equal.
      unfold disconnect, Dict.contains. cbn [active_connections].
      rewrite get_in_place, del_in_place by assumption.
      destruct others as [d]. cbn [active_connections] in Hothers.
      now rewrite Hothers.
    + exists others. split; [exact Hconnect|]. f_equal.
      unfold disconnect. apply contains_false_keys in Habsent.
      now rewrite Habsent.
Qed.

Lemma connect_then_disconnect_witness :
  exists self',
    connect {| connected := false; received := [] |} "c1" noon []
      WebSocketManager.__init__
    = Ok self'
    /\ disconnect "c1" self' = WebSocketManager.__init__.
Proof.
  apply (connect_then_disconnect {| connected := false; received := [] |}
           "c1" noon WebSocketManager.__init__).
  reflexivity.
Defined.

(** X9. [disconnect] removes the named client and nobody else, and is
    idempotent; on an identifier that is not registered it changes
    nothing. *)
Theorem disconnect_effect (client_id : string) (self : t) :
  NoDup (Dict.keys (active_connections self)) ->
  let self' := disconnect client_id self in
  Dict.get client_id (active_connections self') = None
  /\ (forall other, client_id <> other ->
        Dict.get other (active_connections self')
        = Dict.get other (active_connections self))
  /\ disconnect client_id self' = self'
  /\ (Dict.contains client_id (active_connections self) = false ->
      self' = self).
Proof.
  intros Hnd self'. subst self'. unfold disconnect.
  destruct (Dict.contains client_id (active_connections self)) eqn:Hin.
  - pose proof (del_spec (active_connections self) client_id) as Hdel.
    destruct (Dict.del client_id (active_connections self)) as [d'|];
      [|congruence].
    destruct Hdel as (pre & v & post & Hd & -> & Hpre).
    rewrite Hd in Hnd. rewrite keys_app in Hnd. cbn [Dict.keys map fst] in Hnd.
    apply NoDup_remove_2 in Hnd.
    assert (Hgone : Dict.get client_id (pre ++ post) = None).
    { apply get_absent_keys. now rewrite keys_app. }
    cbn [active_connections]. repeat split.
    + exact Hgone.
    + intros other Hne. rewrite Hd. symmetry. now apply get_without_entry.
    + unfold Dict.contains. now rewrite Hgone.
    + discriminate.
  - repeat split.
    + unfold Dict.contains in Hin.
      now destruct (Dict.get client_id (active_connections self)).
    + now rewrite Hin.
Qed.

Lemma disconnect_effect_witness :
  let up := {| connected := true; received := [] |} in
  Dict.get "a"
    (active_connections
       (disconnect "a" {| active_connections := [("a", up); ("b", up)] |}))
  = None.
Proof.
  intros up.
  refine (proj1 (disconnect_effect "a"
                   {| active_connections := [("a", up); ("b", up)] |} _)).
  simpl. repeat constructor; simpl; intuition discriminate.
Defined.

(** X10. [send_personal] never changes who is registered: the target, if
    registered and alive, has the message appended; a dead or unknown
    target leaves the manager exactly as it was, the dead socket still
    registered. *)
Theorem send_personal_effect
    (client_id : string) (m : message) (self : t) :
  let self' := send_personal client_id m self in
  Dict.keys (active_connections self') = Dict.keys (active_connections self)
  /\ (forall other, client_id <> other ->
        Dict.get other (active_connections self')
        = Dict.get other (active_connections self))
  /\ match Dict.get client_id (active_connections self) with
     | Some websocket =>
         if connected websocket
         then Dict.get client_id (active_connections self')
              = Some {| connected := true;
                        received := received websocket ++ [m] |}
         else self' = self
     | None => self' = self
     end.
Proof.
  intros self'. subst self'. unfold send_personal, send_json.
  destruct (Dict.get client_id (active_connections self)) as [websocket|]
    eqn:Hget; [|now repeat split].
  destruct (connected websocket); [|now repeat split].
  cbn [active_connections]. repeat split.
  - apply keys_set_present. unfold Dict.contains. now rewrite Hget.
  - intros other Hne. now apply get_set_other.
  - apply get_set_same.
Qed.

Lemma send_personal_effect_witness :
  let up := {| connected := true; received := [] |} in
  let self := {| active_connections := [("a", up); ("b", up)] |} in
  Dict.get "b" (active_connections (send_personal "a" [] self))
  = Dict.get "b" (active_connections self).
Proof.
  intros up self.
  refine (proj1 (proj2 (send_personal_effect "a" [] self)) "b" _).
  discriminate.
Defined.

Lemma live_delivered m items :
  forallb live (map (delivered m) items) = true.
Proof. induction items as [|entry items IH]; [reflexivity|exact IH]. Qed.

(** X11. A broadcast over any mix of live and dead connections does not
    raise; it keeps exactly the live ones, in order, each with the message
    appended, so that afterwards every registered connection is live and a
    further broadcast reaches all of them and removes none. *)
Theorem broadcast_prunes_and_stabilises (m m' : message) (self : t) :
  NoDup (Dict.keys (active_connections self)) ->
  exists self1 self2,
    broadcast m self = Ok self1
    /\ active_connections self1
       = map (delivered m) (filter live (active_connections self))
    /\ forallb live (active_connections self1) = true
    /\ broadcast m' self1 = Ok self2
    /\ active_connections self2
       = map (delivered m') (active_connections self1).
Proof.
  intros Hnd.
  assert (Hnd1 : NoDup (Dict.keys (map (delivered m)
                                     (filter live (active_connections self))))).
  { rewrite keys_delivered. now apply NoDup_keys_filter. }
  eexists. eexists. split; [now apply broadcast_spec|].
  cbn [active_connections]. split; [reflexivity|].
  split; [apply live_delivered|].
  rewrite broadcast_spec by exact Hnd1. cbn [active_connections].
  rewrite (filter_all_live _ (live_delivered m _)). now split.
Qed.

Lemma broadcast_prunes_and_stabilises_witness :
  let up := {| connected := true; received := [] |} in
  let down := {| connected := false; received := [] |} in
  exists self1 self2,
    broadcast [] {| active_connections := [("a", down); ("b", up);
                                           ("c", down)] |}
    = Ok self1
    /\ broadcast [] self1 = Ok self2
    /\ Dict.keys (active_connections self2) = ["b"].
Proof.
  intros up down.
  destruct (broadcast_prunes_and_stabilises [] []
              {| active_connections := [("a", down); ("b", up); ("c", down)] |})
    as (self1 & self2 & H1 & Hc1 & _ & H2 & Hc2).
  - simpl. repeat constructor; simpl; intuition discriminate.
  - exists self1, self2. split; [exact H1|]. split; [exact H2|].
    rewrite Hc2, Hc1. reflexivity.
Defined.

(** X12. A socket that was already dead when it connected is pruned by the
    next broadcast, which then behaves exactly as if that socket had never
    connected, whatever the coroutines waiting for the lock did while it
    was connecting. *)
Theorem dead_connection_pruned_by_broadcast
    (websocket : WebSocket) (client_id : string) (now : datetime)
    (m : message) (queued : list ws_op) (self : t) :
  NoDup (Dict.keys (active_connections self)) ->
  Dict.contains client_id (active_connections self) = false ->
  connected websocket = false ->
  foreign_to client_id queued = true ->
  exists others self',
    ws_run queued self = Ok others
    /\ connect websocket client_id now queued self = Ok self'
    /\ broadcast m self'
       = Ok {| active_connections :=
                 map (delivered m) (filter live (active_connections others)) |}.
Proof.
  intros Hnd Hfresh Hdead Hforeign.
  destruct (connect_spec websocket client_id now queued self Hnd Hfresh
              Hforeign) as (others & Hrun & Hnd' & Habsent & Hconnect).
  exists others.
  unfold after_broadcasts in Hconnect. rewrite Hdead in Hconnect.
  destruct (broadcasts queued) as [|m' ms].
  - destruct Hconnect as (pre & post & Hothers & Hpre & Hconnect).
    eexists. split; [exact Hrun|]. split; [exact Hconnect|].
    unfold sent. rewrite Hdead. rewrite Hothers in *.
    rewrite broadcast_spec; cbn [active_connections].
    + rewrite !filter_app. cbn [filter]. unfold live at 2. cbn [snd].
      now rewrite Hdead.
    + rewrite keys_app in *. cbn [Dict.keys map fst].
      apply NoDup_Add with (a := client_id) (l := map fst pre ++ map fst post).
      * apply Add_app.
      * split; [exact Hnd'|exact Habsent].
  - exists others. split; [exact Hrun|]. split; [exact Hconnect|].
    now apply broadcast_spec.
Qed.

Lemma dead_connection_pruned_by_broadcast_witness :
  exists others self',
    ws_run [] WebSocketManager.__init__ = Ok others
    /\ connect {| connected := false; received := [] |} "c1" noon []
         WebSocketManager.__init__
       = Ok self'
    /\ broadcast [] self'
       = Ok {| active_connections :=
                 map (delivered []) (filter live (active_connections others)) |}.
Proof.
  apply (dead_connection_pruned_by_broadcast
           {| connected := false; received := [] |} "c1" noon [] []
           WebSocketManager.__init__).
  - constructor.
  - reflexivity.
  - reflexivity.
  - reflexivity.
Defined.

(** X13. Starting from no connection, no sequence of critical sections of
    [connect], [disconnect], [send_personal] and [broadcast], however the
    calls interleave, raises: in particular the clean-up of a broadcast
    always finds the identifiers it deletes. *)
Theorem connection_manager_never_raises (ops : list ws_op) :
  exists self,
    ws_run ops WebSocketManager.__init__ = Ok self
    /\ NoDup (Dict.keys (active_connections self)).
Proof.
  assert (Hgen : forall self0,
             NoDup (Dict.keys (active_connections self0)) ->
             exists self,
               ws_run ops self0 = Ok self
               /\ NoDup (Dict.keys (active_connections self))).
  { induction ops as [|op ops IH]; intros self0 Hnd.
    - now exists self0.
    - destruct (ws_step_distinct op self0 Hnd) as (self1 & Hstep & Hnd1).
      cbn [ws_run]. rewrite Hstep. now apply IH. }
  apply Hgen. constructor.
Qed.
End Registration.

(** ** Chaos engine: the other modes *)

(** What entering recovery does to one status. *)
Definition demoted (status : string) : string :=
  if status =? "critical" then "warning" else status.

Section OtherModes.
Import Chaos.

(** X14. [set_mode] raises [ValueError] exactly on names outside the four
    modes; on a valid name it succeeds, the engine is in that mode, and the
    clock of the event loop and what was already scheduled are kept. *)
Theorem set_mode_accepts_exactly_valid_modes
    (m : string) (self : ChaosEngine) (loop : EventLoop) :
  match set_mode m self loop with
  | Ok (self', loop') =>
      In m valid_modes
      /\ mode self' = m
      /\ time loop' = time loop
      /\ exists added, scheduled loop' = scheduled loop ++ added
  | Raise e => e = ValueError /\ ~ In m valid_modes
  end.
Proof.
  unfold set_mode.
  destruct (existsb (String.eqb m) valid_modes) eqn:Hvalid; cbn [negb].
  - assert (Hin : In m valid_modes).
    { apply existsb_exists in Hvalid as (x & Hx & Heq).
      apply String.eqb_eq in Heq. now subst. }
    destruct (m =? "steady_state");
      [split; [exact Hin|]; repeat split; exists []; now rewrite app_nil_r|].
    destruct (m =? "latency_spike");
      [split; [exact Hin|]; repeat split; exists []; now rewrite app_nil_r|].
    destruct (m =? "cascading_failure");
      [split; [exact Hin|]; repeat split; eexists; reflexivity|].
    destruct (m =? "recovery");
      [split; [exact Hin|]; repeat split; eexists; reflexivity|].
    split; [exact Hin|]. repeat split. exists []. now rewrite app_nil_r.
  - split; [reflexivity|]. intros Hin.
    assert (Hex : existsb (String.eqb m) valid_modes = true).
    { apply existsb_exists. exists m. split; [exact Hin|apply String.eqb_refl]. }
    congruence.
Qed.

(** X15. [latency_spike] marks ai-brain critical and changes nothing else
    of the engine but its mode, and it schedules nothing: with no timer
    pending the engine stays as it is however long it is left alone. *)
Theorem latency_spike_is_stationary
    (self : ChaosEngine) (now delay : Z) :
  (0 <= delay)%Z ->
  let after :=
    run [Call "latency_spike"; Sleep delay] (self, idle_loop now) in
  mode (fst after) = "latency_spike"
  /\ Dict.get "ai-brain" (service_states (fst after)) = Some "critical"
  /\ (forall other, "ai-brain" <> other ->
        Dict.get other (service_states (fst after))
        = Dict.get other (service_states self))
  /\ snd after = idle_loop (now + delay)
  /\ running (fst after) = running self
  /\ events_per_second (fst after) = events_per_second self.
Proof.
  intros Hd after. subst after. unfold run. cbn [fold_left step].
  change (set_mode "latency_spike" (fst (self, idle_loop now))
            (snd (self, idle_loop now)))
    with (Ok (set_state "ai-brain" "critical" (with_mode "latency_spike" self),
              idle_loop now)).
  cbv iota. cbn [fst snd]. unfold sleep, idle_loop.
  cbn [time scheduled budget fold_right run_until fst snd].
  unfold set_state.
  cbn [mode service_states running events_per_second with_service_states
       with_mode].
  split; [reflexivity|]. split; [apply get_set_same|]. split; [|split].
  - intros other Hne. now apply get_set_other.
  - f_equal. lia.
  - now split.
Qed.

Lemma latency_spike_is_stationary_witness :
  snd (run [Call "latency_spike"; Sleep 10] (Chaos.__init__, idle_loop 0))
  = idle_loop 10.
Proof.
  refine (proj1 (proj2 (proj2 (proj2
            (latency_spike_is_stationary Chaos.__init__ 0 10 _))))).
  lia.
Defined.

Lemma demoted_idempotent status : demoted (demoted status) = demoted status.
Proof.
  unfold demoted. destruct (status =? "critical") eqn:E; [reflexivity|].
  now rewrite E.
Qed.

(** The loop of [_begin_recovery] over any list of identifiers. *)
Lemma begin_recovery_loop ids : forall (states : Dict.t string) k,
  Dict.get k
    (fold_left
       (fun acc service_id =>
          match Dict.get service_id acc with
          | Some status =>
              if status =? "critical" then Dict.set service_id "warning" acc
              else acc
          | None => acc
          end)
       ids states)
  = match Dict.get k states with
    | Some status =>
        Some (if existsb (String.eqb k) ids then demoted status else status)
    | None => None
    end.
Proof.
  induction ids as [|id ids IH]; intros states k.
  - cbn [fold_left existsb]. now destruct (Dict.get k states).
  - cbn [fold_left existsb]. rewrite IH. clear IH.
    destruct (String.eqb_spec k id) as [->|Hne]; cbn [orb].
    + destruct (Dict.get id states) as [status|] eqn:Hget;
        [|now rewrite Hget].
      unfold demoted at 2.
      destruct (status =? "critical") eqn:Hc.
      * rewrite get_set_same. now destruct (existsb _ ids).
      * rewrite Hget. unfold demoted. rewrite Hc.
        now destruct (existsb _ ids).
    + assert (Hsame :
          Dict.get k
            match Dict.get id states with
            | Some status =>
                if status =? "critical" then Dict.set id "warning" states
                else states
            | None => states
            end
          = Dict.get k states).
      { destruct (Dict.get id states) as [status|]; [|reflexivity].
        destruct (status =? "critical"); [|reflexivity].
        apply get_set_other. congruence. }
      now rewrite Hsame.
Qed.

Lemma begin_recovery_states self loop k :
  Dict.get k (service_states (fst (_begin_recovery self loop)))
  = match Dict.get k (service_states self) with
    | Some status => Some (demoted status)
    | None => None
    end.
Proof.
  unfold _begin_recovery. cbn [fst service_states with_service_states].
  rewrite begin_recovery_loop.
  destruct (Dict.get k (service_states self)) as [status|] eqn:Hget;
    [|reflexivity].
  assert (Hin : existsb (String.eqb k) (Dict.keys (service_states self))
                = true).
  { apply existsb_exists. exists k. split; [|apply String.eqb_refl].
    apply get_in_keys. unfold Dict.contains. now rewrite Hget. }
  now rewrite Hin.
Qed.

(** X16. Entering [recovery] demotes every critical entity to warning and
    leaves every other status as it is, so that no entity is critical any
    more, and it schedules the completion two time units later. *)
Theorem recovery_entry (self : ChaosEngine) (loop : EventLoop) :
  exists self',
    set_mode "recovery" self loop
    = Ok (self', call_later 2 complete_recovery_cb loop)
    /\ mode self' = "recovery"
    /\ forall k,
        Dict.get k (service_states self')
        = match Dict.get k (service_states self) with
          | Some status => Some (demoted status)
          | None => None
          end
        /\ Dict.get k (service_states self') <> Some "critical".
Proof.
  exists (fst (_begin_recovery (with_mode "recovery" self) loop)).
  split; [reflexivity|]. split; [reflexivity|].
  intros k.
  pose proof (begin_recovery_states (with_mode "recovery" self) loop k) as H.
  cbn [service_states with_mode] in H. split; [exact H|].
  rewrite H. destruct (Dict.get k (service_states self)) as [status|];
    [|discriminate].
  unfold demoted. destruct (status =? "critical") eqn:E; [discriminate|].
  intros Heq. inversion Heq; subst. discriminate.
Qed.

(** X17. Recovery left alone for at least two time units completes: every
    entity is healthy, the mode is back to [steady_state] and nothing is
    left scheduled. *)
Theorem recovery_completes (self : ChaosEngine) (now delay : Z) :
  (2 <= delay)%Z ->
  run [Call "recovery"; Sleep delay] (self, idle_loop now)
  = ({| mode := "steady_state";
        service_states := all_healthy;
        running := running self;
        events_per_second := events_per_second self |},
     idle_loop (now + delay)).
Proof.
  intros Hd. unfold run. cbn [fold_left step].
  change (set_mode "recovery" (fst (self, idle_loop now))
            (snd (self, idle_loop now)))
    with (Ok (_begin_recovery (with_mode "recovery" self) (idle_loop now))).
  cbv iota. unfold _begin_recovery, call_later, idle_loop.
  cbn [fst snd time scheduled app]. unfold sleep.
  cbn [time scheduled budget fold_right callback rank Nat.add].
  erewrite run_until_due; [|reflexivity|cbn [when]; lia].
  cbn [callback when run_handler time]. unfold _complete_recovery.
  cbn [mode with_mode with_service_states].
  change ("recovery" =? "recovery") with true. cbv iota.
  cbn [fst snd run_until time scheduled running events_per_second].
  do 2 f_equal. lia.
Qed.

Lemma recovery_completes_witness :
  run [Call "recovery"; Sleep 2]
    (fst (run [Call "cascading_failure"; Sleep 4]
            (Chaos.__init__, idle_loop 0)), idle_loop 4)
  = (Chaos.__init__, idle_loop 6).
Proof.
  rewrite (recovery_completes _ 4 2) by lia. reflexivity.
Defined.


End OtherModes.

(** ** Chaos engine: what a generated event looks like *)

(** An event generated at [now] for [service_id] while the scenario status
    of that entity is [scenario]. *)
Definition follows_scenario (now : datetime) (service_id scenario : string)
    (event : Chaos.TelemetryEvent.t) : Prop :=
  Chaos.TelemetryEvent.timestamp event = isoformat now
  /\ Chaos.TelemetryEvent.service_id event = service_id
  /\ (Chaos.TelemetryEvent.status event = scenario
      \/ (scenario = "healthy"
          /\ Chaos.TelemetryEvent.status event = "warning"))
  /\ (exists lo hi,
        Dict.get (Chaos.TelemetryEvent.status event) Chaos.LATENCY_RANGES
        = Some (lo, hi)
        /\ (lo <= Chaos.TelemetryEvent.latency_ms event <= hi)%Z)
  /\ (exists lo hi,
        Dict.get (Chaos.TelemetryEvent.status event) Chaos.ERROR_RATE_RANGES
        = Some (lo, hi)
        /\ (lo <= Chaos.TelemetryEvent.error_rate event)%Q
        /\ (Chaos.TelemetryEvent.error_rate event <= hi)%Q)
  /\ (exists lo hi,
        Dict.get (Chaos.TelemetryEvent.status event)
          Chaos.TRAFFIC_VOLUME_RANGES
        = Some (lo, hi)
        /\ (lo <= Chaos.TelemetryEvent.traffic_volume event <= hi)%Z)
  /\ (exists pool,
        Dict.get (Chaos.TelemetryEvent.status event) Chaos.messages
        = Some pool
        /\ In (Chaos.TelemetryEvent.message event) pool)
  /\ Dict.contains "tokens_in" (Chaos.TelemetryEvent.metadata event)
     = (service_id =? "ai-brain")
  /\ Dict.contains "tokens_out" (Chaos.TelemetryEvent.metadata event)
     = (service_id =? "ai-brain")
  /\ Dict.contains "model" (Chaos.TelemetryEvent.metadata event)
     = (service_id =? "ai-brain").

Section GeneratedEventShape.
Import Chaos.
Context {G : Type} {RS : RandomSource G}.

Ltac draw_next :=
  apply returns_bind;
  first
    [ eapply returns_getitem; [reflexivity|]; intros ?g; cbn [fst snd]
    | apply returns_randint; [lia|]; intros ?r ?Hr ?g
    | apply returns_uniform; [unfold Qle; simpl; lia|];
      intros ?x ?Hlo ?Hhi ?g
    | apply returns_choice; [discriminate|]; intros ?c ?Hc ?g ].

Ltac close_event :=
  match goal with
  | |- returns _ (bind (if ?b then _ else _) _) _ =>
      destruct b eqn:?Hai; apply returns_bind;
      [cbv zeta; draw_next; cbv zeta; draw_next|];
      apply returns_ret; intros ?g; apply returns_ret
  end;
  unfold follows_scenario;
  cbn [TelemetryEvent.timestamp TelemetryEvent.service_id
       TelemetryEvent.status TelemetryEvent.latency_ms
       TelemetryEvent.error_rate TelemetryEvent.traffic_volume
       TelemetryEvent.message TelemetryEvent.metadata];
  (split; [reflexivity|]);
  (split; [reflexivity|]);
  (split; [first [left; reflexivity|right; split; reflexivity]|]);
  (split; [eexists; eexists; split; [reflexivity|lia]|]);
  (split;
   [eexists; eexists; split; [reflexivity|];
    match goal with
    | Hlo : (_ <= ?x)%Q, Hhi : (?x <= _)%Q |- context [py_round ?x 4] =>
        first
          [ apply (py_round_within 0.01 0.03 100 300 x 4)
          | apply (py_round_within 0.05 0.10 500 1000 x 4)
          | apply (py_round_within 0.15 0.80 1500 8000 x 4) ];
        [reflexivity|reflexivity|exact Hlo|exact Hhi]
    end|]);
  (split; [eexists; eexists; split; [reflexivity|lia]|]);
  (split; [eexists; split; [reflexivity|assumption]|]);
  match goal with
  | H : (_ =? "ai-brain") = _ |- _ => rewrite H
  end;
  repeat split; reflexivity.

Lemma generate_event_shape (now : datetime) (service_id : string)
    (self : ChaosEngine) (g : G) :
  statuses_in_model (service_states self) ->
  returns
    (follows_scenario now service_id
       (Dict.get_default service_id "healthy" (service_states self)))
    (generate_event now service_id self) g.
Proof.
  intros Hall. pose proof (status_in_model self service_id Hall) as Hstatus.
  unfold generate_event.
  destruct Hstatus as [<-|[<-|[<-|[]]]].
  - change ("healthy" =? "healthy") with true. cbv iota.
    apply returns_bind, returns_bind, returns_random.
    intros u _ _ g0. apply returns_ret. intros g1.
    destruct (negb (Qle_bool 0.05 u)); do 10 draw_next; close_event.
  - change ("warning" =? "healthy") with false. cbv iota.
    apply returns_bind, returns_ret. intros g1.
    do 10 draw_next; close_event.
  - change ("critical" =? "healthy") with false. cbv iota.
    apply returns_bind, returns_ret. intros g1.
    do 10 draw_next; close_event.
Qed.
(** X19. On an engine whose statuses are in the model, a generated event
    carries the clock reading and the entity it was asked for; its status is
    the entity's scenario status, except that a healthy entity may blip to
    warning; latency, error rate, traffic volume and message are drawn from
    the band and the pool of the status the event reports; and the model
    name and the two token counts are attached exactly for ai-brain. *)
Theorem generate_event_follows_scenario (now : datetime)
    (service_id : string) (self : ChaosEngine) (g : G) :
  statuses_in_model (service_states self) ->
  exists event g',
    generate_event now service_id self g = Ok (event, g')
    /\ follows_scenario now service_id
         (Dict.get_default service_id "healthy" (service_states self)) event.
Proof.
  intros Hall.
  exact (returns_elim _ _ _ (generate_event_shape now service_id self g Hall)).
Qed.

Lemma returns_weaken {A : Type} (P P' : A -> Prop) (c : M A) (g : G) :
  returns P c g -> (forall a, P a -> P' a) -> returns P' c g.
Proof.
  unfold returns. destruct (c g) as [[a g']|e]; [|trivial].
  intros H Himp. now apply Himp.
Qed.

Lemma returns_conj {A : Type} (P P' : A -> Prop) (c : M A) (g : G) :
  returns P c g -> returns P' c g -> returns (fun a => P a /\ P' a) c g.
Proof.
  unfold returns. destruct (c g) as [[a g']|e]; [|trivial]. now split.
Qed.

Lemma generate_for_returns (now : datetime) (self : ChaosEngine)
    (services : list service) : forall g : G,
  statuses_in_model (service_states self) ->
  returns
    (fun events =>
       Forall2 (fun s event =>
                  TelemetryEvent.service_id event = id s
                  /\ within_model_bounds event)
               services events)
    (generate_for now services self) g.
Proof.
  induction services as [|s services IH]; intros g Hall.
  - apply returns_ret. constructor.
  - cbn [generate_for]. apply returns_bind.
    apply (returns_weaken _ _ _ _
             (returns_conj _ _ _ _
                (generate_event_shape now (id s) self g Hall)
                (generate_event_returns now (id s) self g Hall))).
    intros event [Hshape Hbounds] g1. apply returns_bind.
    apply (returns_weaken _ _ _ _ (IH g1 Hall)).
    intros events Hevents g2. apply returns_ret.
    constructor; [|exact Hevents].
    split; [|exact Hbounds]. now destruct Hshape as (_ & Hid & _).
Qed.

(** X20. One tick of generation returns exactly one event per entity of
    [SERVICES], in that order, each within the bounds of the event model. *)
Theorem generate_events_one_per_service (now : datetime)
    (self : ChaosEngine) (g : G) :
  statuses_in_model (service_states self) ->
  exists events g',
    generate_events now self g = Ok (events, g')
    /\ map TelemetryEvent.service_id events
       = ["gateway"; "auth"; "payment"; "ai-brain"; "database"]
    /\ Forall within_model_bounds events.
Proof.
  intros Hall.
  destruct (returns_elim _ _ _ (generate_for_returns now self SERVICES g Hall))
    as (events & g' & Hrun & Hall2).
  exists events, g'. split; [exact Hrun|].
  change ["gateway"; "auth"; "payment"; "ai-brain"; "database"]
    with (map id SERVICES).
  clear Hrun. induction Hall2 as [|s event services events [Hid Hb] _ IH].
  - split; constructor.
  - destruct IH as [IHids IHall]. cbn [map]. split.
    + now rewrite Hid, IHids.
    + now constructor.
Qed.
End GeneratedEventShape.

Section GeneratedEventShapeWitnesses.
Import Chaos.

Lemma generate_event_follows_scenario_witness :
  exists event g',
    generate_event (RS := lcg_source) noon "ai-brain" Chaos.__init__ 42%Z
    = Ok (event, g')
    /\ TelemetryEvent.service_id event = "ai-brain".
Proof.
  destruct (generate_event_follows_scenario (RS := lcg_source) noon
              "ai-brain" Chaos.__init__ 42%Z)
    as (event & g' & Hrun & _ & Hid & _).
  - unfold statuses_in_model. repeat constructor; simpl; tauto.
  - exists event, g'. split; [exact Hrun|exact Hid].
Defined.

Lemma generate_events_one_per_service_witness :
  exists events g',
    generate_events (RS := lcg_source) noon Chaos.__init__ 7%Z
    = Ok (events, g')
    /\ List.length events = 5%nat.
Proof.
  destruct (generate_events_one_per_service (RS := lcg_source) noon
              Chaos.__init__ 7%Z)
    as (events & g' & Hrun & Hids & _).
  - unfold statuses_in_model. repeat constructor; simpl; tauto.
  - exists events, g'. split; [exact Hrun|].
    rewrite <- (length_map TelemetryEvent.service_id), Hids. reflexivity.
Defined.
End GeneratedEventShapeWitnesses.

(** ** Chaos engine: invariants of every execution *)

(** The engine is in one of the four modes and assigns one of the three
    statuses to exactly the five entities of [SERVICES]. *)
Definition engine_well_formed (self : Chaos.ChaosEngine) : Prop :=
  In (Chaos.mode self) Chaos.valid_modes
  /\ Dict.keys (Chaos.service_states self) = map Chaos.id Chaos.SERVICES
  /\ statuses_in_model (Chaos.service_states self).

Section EngineInvariant.
Import Chaos.

Lemma set_known_key (states : Dict.t string) k v :
  Dict.keys states = map id SERVICES ->
  In k (map id SERVICES) ->
  Dict.keys (Dict.set k v states) = map id SERVICES.
Proof.
  intros Hkeys Hin. rewrite keys_set_present; [exact Hkeys|].
  apply get_in_keys. now rewrite Hkeys.
Qed.

Lemma begin_recovery_keys self loop :
  Dict.keys (service_states (fst (_begin_recovery self loop)))
  = Dict.keys (service_states self).
Proof.
  unfold _begin_recovery. cbn [fst service_states with_service_states].
  generalize (Dict.keys (service_states self)) at 1 as ids.
  generalize (service_states self) as states.
  intros states ids. revert states.
  induction ids as [|service_id ids IH]; intros states; [reflexivity|].
  cbn [fold_left]. rewrite IH.
  destruct (Dict.get service_id states) as [status|] eqn:E; [|reflexivity].
  destruct (status =? "critical"); [|reflexivity].
  apply keys_set_present. unfold Dict.contains. now rewrite E.
Qed.

Lemma run_handler_well_formed cb self loop :
  engine_well_formed self ->
  engine_well_formed (fst (run_handler cb self loop)).
Proof.
  intros (Hmode & Hkeys & Hstatus).
  split; [|split; [|now apply statuses_run_handler]].
  - destruct cb; cbn [run_handler];
      unfold _escalate_cascade, _final_cascade, _complete_recovery;
      destruct (mode self =? _); cbn [fst mode set_state with_service_states
                                       with_mode];
      try exact Hmode; simpl; tauto.
  - destruct cb; cbn [run_handler];
      unfold _escalate_cascade, _final_cascade, _complete_recovery;
      destruct (mode self =? _); cbn [fst]; try exact Hkeys;
      unfold set_state;
      cbn [service_states with_service_states with_mode];
      try reflexivity;
      repeat (apply set_known_key; [|simpl; tauto]); exact Hkeys.
Qed.

Lemma run_until_well_formed fuel : forall deadline self loop,
  engine_well_formed self ->
  engine_well_formed (fst (run_until fuel deadline self loop)).
Proof.
  induction fuel as [|fuel IH]; intros deadline self loop Hwf; [exact Hwf|].
  cbn [run_until].
  destruct (pop_next (scheduled loop)) as [[t rest]|]; [|exact Hwf].
  destruct (when t <=? deadline)%Z; [|exact Hwf].
  pose proof (run_handler_well_formed (callback t) self
                {| time := Z.max (time loop) (when t); scheduled := rest |}
                Hwf) as Hnext.
  destruct (run_handler _ _ _) as [self' loop']. now apply IH.
Qed.

Lemma step_well_formed a self loop :
  engine_well_formed self ->
  engine_well_formed (fst (step a (self, loop))).
Proof.
  intros Hwf. pose proof Hwf as (Hmode & Hkeys & Hstatus).
  split; [|split; [|now apply statuses_step]].
  - destruct a as [m|delay]; cbn [step fst snd].
    + unfold set_mode.
      destruct (existsb (String.eqb m) valid_modes) eqn:Hvalid; cbn [negb];
        [|exact Hmode].
      assert (Hin : In m valid_modes).
      { apply existsb_exists in Hvalid as (x & Hx & Heq).
        apply String.eqb_eq in Heq. now subst. }
      destruct (m =? "steady_state"); [exact Hin|].
      destruct (m =? "latency_spike"); [exact Hin|].
      destruct (m =? "cascading_failure"); [exact Hin|].
      destruct (m =? "recovery"); exact Hin.
    + unfold sleep.
      pose proof (run_until_well_formed (budget (scheduled loop))
                    (time loop + delay)%Z self loop Hwf) as (Hm & _).
      now destruct (run_until _ _ _ _).
  - destruct a as [m|delay]; cbn [step fst snd].
    + unfold set_mode.
      destruct (negb (existsb (String.eqb m) valid_modes)); [exact Hkeys|].
      destruct (m =? "steady_state"); [reflexivity|].
      destruct (m =? "latency_spike").
      { cbn [fst]. unfold set_state.
        cbn [service_states with_service_states with_mode].
        apply set_known_key; [exact Hkeys|simpl; tauto]. }
      destruct (m =? "cascading_failure").
      { unfold _trigger_cascade, set_state.
        cbn [fst service_states with_service_states with_mode].
        repeat (apply set_known_key; [|simpl; tauto]). exact Hkeys. }
      destruct (m =? "recovery"); [|exact Hkeys].
      rewrite begin_recovery_keys. exact Hkeys.
    + unfold sleep.
      pose proof (run_until_well_formed (budget (scheduled loop))
                    (time loop + delay)%Z self loop Hwf) as (_ & Hk & _).
      now destruct (run_until _ _ _ _).
Qed.

(** X21. However the mode is switched and however much time passes, an
    engine started fresh is always in one of the four modes and always
    assigns one of the three statuses to exactly the five entities. *)
Theorem engine_always_well_formed (trace : list action) (now : Z) :
  engine_well_formed (fst (run trace (Chaos.__init__, idle_loop now))).
Proof.
  unfold run.
  assert (Hgen : forall w,
             engine_well_formed (fst w) ->
             engine_well_formed
               (fst (fold_left (fun w a => step a w) trace w))).
  { induction trace as [|a trace IH]; intros [self loop] Hwf; [exact Hwf|].
    cbn [fold_left]. apply IH.
    now apply (step_well_formed a self loop). }
  apply Hgen. split; [simpl; tauto|].
  split; [reflexivity|exact statuses_all_healthy].
Qed.

Lemma budget_app timers t :
  budget (timers ++ [t]) = (budget timers + rank (callback t))%nat.
Proof.
  unfold budget. induction timers as [|x timers IH]; cbn [app fold_right].
  - lia.
  - rewrite IH. lia.
Qed.

Lemma run_handler_budget cb self loop :
  (budget (scheduled (snd (run_handler cb self loop))) + 1
   <= rank cb + budget (scheduled loop))%nat.
Proof.
  destruct cb; cbn [run_handler rank];
    unfold _escalate_cascade, _final_cascade, _complete_recovery;
    destruct (mode self =? _); cbn [snd]; try lia.
  unfold call_later. cbn [scheduled]. rewrite budget_app. cbn [callback rank].
  lia.
Qed.

(** With fuel for every pending timer and all they can schedule, the loop
    stops only when nothing is due any more. *)
Lemma run_until_complete fuel : forall deadline self loop,
  (budget (scheduled loop) <= fuel)%nat ->
  Forall (fun t => (deadline < when t)%Z)
         (scheduled (snd (run_until fuel deadline self loop))).
Proof.
  induction fuel as [|fuel IH]; intros deadline self loop Hfuel.
  - assert (Hnil : scheduled loop = []) by (apply budget_zero; lia).
    cbn [run_until snd]. rewrite Hnil. constructor.
  - destruct (pop_next (scheduled loop)) as [[t rest]|] eqn:Hpop.
    + destruct (pop_next_least _ _ _ Hpop) as (_ & Hleast & _ & Hbudget).
      destruct (Z.le_gt_cases (when t) deadline) as [Hdue|Hlate].
      * rewrite (run_until_due _ _ _ _ _ _ Hpop Hdue). apply IH.
        pose proof (run_handler_budget (callback t) self
                      {| time := Z.max (time loop) (when t);
                         scheduled := rest |}) as Hb.
        cbn [scheduled] in Hb. lia.
      * rewrite (run_until_not_due _ _ _ _ _ _ Hpop) by lia. cbn [snd].
        apply Forall_forall. intros x Hx. specialize (Hleast x Hx). lia.
    + apply pop_next_none in Hpop.
      rewrite run_until_idle by assumption. cbn [snd]. rewrite Hpop.
      constructor.
Qed.

(** X22. When a sleep returns, every timer whose deadline fell within it
    has run, those it scheduled in turn included: whatever is still pending
    is due strictly later, and the clock has not gone back. *)
Theorem sleep_runs_every_due_timer
    (delay : Z) (self : ChaosEngine) (loop : EventLoop) :
  let after := sleep delay self loop in
  Forall (fun t => (time loop + delay < when t)%Z) (scheduled (snd after))
  /\ time (snd after) = Z.max (time loop) (time loop + delay).
Proof.
  intros after. subst after. unfold sleep.
  pose proof (run_until_complete (budget (scheduled loop))
                (time loop + delay)%Z self loop (Nat.le_refl _)) as Hall.
  pose proof (run_until_time (budget (scheduled loop))
                (time loop + delay)%Z self loop) as Htime.
  destruct (run_until _ _ _ _) as [self' loop']. cbn [fst snd] in *.
  cbn [scheduled time]. now split.
Qed.
End EngineInvariant.

(** ** backend/datadog_client.py *)

Module DatadogClient.

Inductive kind : Type := Gauge | Increment | Histogram.

(** One call made on [statsd]. *)
Record call : Type := {
  call_kind : kind;
  metric : string;
  value : Q;
  tags : list string
}.

(** [statsd] holds the calls the client has made on the agent. *)
Record t : Type := { enabled : bool; prefix : string; statsd : list call }.

Definition __init__ (dd_api_key : string) : t :=
  {| enabled := negb (dd_api_key =? EmptyString);
     prefix := "nexus";
     statsd := [] |}.

Definition _format_tags (tags : Dict.t string) : list string :=
  map (fun kv => ((fst kv ++ ":") ++ snd kv)%string) tags.

Definition emit (k : kind) (name : string) (v : Q) (tags : Dict.t string)
    (self : t) : t :=
  let full_metric := ((prefix self ++ ".") ++ name)%string in
  let tag_list := _format_tags tags in
  if enabled self then
    {| enabled := enabled self;
       prefix := prefix self;
       statsd := statsd self
                 ++ [{| call_kind := k; metric := full_metric; value := v;
                        tags := tag_list |}] |}
  else self.

Definition gauge (name : string) (v : Q) (tags : Dict.t string) (self : t)
    : t :=
  emit Gauge name v tags self.

Definition counter (name : string) (v : Z) (tags : Dict.t string) (self : t)
    : t :=
  emit Increment name (inject_Z v) tags self.

Definition histogram (name : string) (v : Q) (tags : Dict.t string)
    (self : t) : t :=
  emit Histogram name v tags self.

Definition emit_throughput (service_id : string) (traffic_volume : Z)
    (self : t) : t :=
  gauge "service.throughput" (inject_Z traffic_volume)
    [("service_id", service_id)] self.



(** [str(success).lower()] *)
Definition lower_bool (b : bool) : string := if b then "true" else "false".

Definition emit_remediation (service_id action : string) (success : bool)
    (self : t) : t :=
  counter "remediation.count" 1
    [("service_id", service_id);
     ("action", action);
     ("success", lower_bool success)]
    self.

End DatadogClient.

(** ** backend/main.py: endpoints *)

Inductive RemediationAction : Type :=
  RESET_CONTEXT | SCALE_UP | FAILOVER | RATE_LIMIT.

Definition RemediationAction_value (a : RemediationAction) : string :=
  match a with
  | RESET_CONTEXT => "reset_context"
  | SCALE_UP => "scale_up"
  | FAILOVER => "failover"
  | RATE_LIMIT => "rate_limit"
  end.

Module RemediationResponse.
Record t : Type := {
  success : bool;
  service_id : string;
  action : RemediationAction;
  previous_status : ServiceStatus;
  new_status : ServiceStatus;
  message : string
}.
End RemediationResponse.

(** How a request handler ends: with its return value, with the
    [HTTPException] it raises, or with an exception that escapes it. *)
Inductive outcome (A : Type) : Type :=
| Returned (a : A)
| HTTPException (status_code : Z) (detail : string)
| Escaped (e : exn).
Arguments Returned {A} a.
Arguments HTTPException {A} status_code detail.
Arguments Escaped {A} e.

Module Main.

(** The three process-wide singletons the handlers act on. *)
Record world : Type := {
  state_manager : StateManager.t;
  datadog_client : DatadogClient.t;
  ws_manager : WebSocketManager.t
}.

(** [model_dump()] of a [ServiceState] and of a [SystemState]; an enum
    member is written as its value, as [send_json] does. *)
Definition ServiceState_model_dump (s : ServiceState.t) : Dict.t pyval :=
  [("service_id", PStr (ServiceState.service_id s));
   ("status", PStr (ServiceStatus_value (ServiceState.status s)));
   ("latency_ms", PInt (ServiceState.latency_ms s));
   ("error_rate", PFloat (ServiceState.error_rate s));
   ("traffic_volume", PInt (ServiceState.traffic_volume s));
   ("last_updated", PStr (ServiceState.last_updated s));
   ("position",
    let '(x, y, z) := ServiceState.position s in
    PList [PFloat x; PFloat y; PFloat z])].

Definition SystemState_model_dump (s : SystemState.t) : Dict.t pyval :=
  [("timestamp", PStr (SystemState.timestamp s));
   ("system_integrity", PFloat (SystemState.system_integrity s));
   ("services",
    PList (map (fun e => PDict (ServiceState_model_dump e))
               (SystemState.services s)));
   ("active_incidents", PInt (SystemState.active_incidents s));
   ("uptime_seconds", PInt (SystemState.uptime_seconds s))].


(** [apply_remediation]; [now] is the clock reading of the status change. *)
Definition apply_remediation (service_id : string) (action : RemediationAction)
    (now : datetime) (w : world) : outcome (world * RemediationResponse.t) :=
  match StateManager.get_service_state service_id (state_manager w) with
  | None =>
      HTTPException 404 (("Service " ++ service_id) ++ " not found")%string
  | Some service =>
      let previous_status := ServiceState.status service in
      let state :=
        StateManager.set_service_status service_id HEALTHY now
          (state_manager w) in
      let dd :=
        DatadogClient.emit_remediation service_id
          (RemediationAction_value action) true (datadog_client w) in
      match WebSocketManager.broadcast_remediation_result
              [("success", PBool true);
               ("service_id", PStr service_id);
               ("action", PStr (RemediationAction_value action));
               ("message",
                PStr ("Remediation applied: "
                      ++ RemediationAction_value action)%string)]
              (ws_manager w) with
      | Raise e => Escaped e
      | Ok ws =>
          Returned
            ({| state_manager := state; datadog_client := dd;
                ws_manager := ws |},
             {| RemediationResponse.success := true;
                RemediationResponse.service_id := service_id;
                RemediationResponse.action := action;
                RemediationResponse.previous_status := previous_status;
                RemediationResponse.new_status := HEALTHY;
                RemediationResponse.message :=
                  "Remediation applied successfully" |})
      end
  end.

(** [set_service_status] on each identifier in turn; [tick i] is the clock
    reading of the [i]-th call. *)
Definition set_each (ids : list string) (status : ServiceStatus)
    (tick : nat -> datetime) (state : StateManager.t) : StateManager.t :=
  fst (fold_left
         (fun acc service_id =>
            (StateManager.set_service_status service_id status
               (tick (snd acc)) (fst acc),
             S (snd acc)))
         ids (state, 0%nat)).

Definition all_service_ids : list string :=
  ["gateway"; "auth"; "payment"; "ai-brain"; "database"].

(** [set_chaos_mode]: the backend's own, immediate rendering of a mode. *)
Definition set_chaos_mode (mode : string) (tick : nat -> datetime)
    (state : StateManager.t) : outcome (StateManager.t * Dict.t pyval) :=
  if negb (existsb (String.eqb mode) Chaos.valid_modes) then
    HTTPException 400
      "Invalid mode. Choose from: ['steady_state', 'latency_spike', 'cascading_failure', 'recovery']"
  else
    let state :=
      if mode =? "steady_state" then
        set_each all_service_ids HEALTHY tick state
      else if mode =? "latency_spike" then
        StateManager.set_service_status "ai-brain" CRITICAL (tick 0%nat) state
      else if mode =? "cascading_failure" then
        let state :=
          StateManager.set_service_status "ai-brain" CRITICAL (tick 0%nat)
            state in
        let state :=
          StateManager.set_service_status "payment" WARNING (tick 1%nat)
            state in
        StateManager.set_service_status "auth" WARNING (tick 2%nat) state
      else if mode =? "recovery" then
        set_each all_service_ids HEALTHY tick state
      else state in
    Returned (state, [("mode", PStr mode); ("success", PBool true)]).

(** The start of [websocket_endpoint]: [connect], then the initial state
    sent to the new client alone.  The endpoint holds the connections' lock
    three times, twice of them inside [connect]: [queued1] and [queued2]
    are the critical sections that other coroutines run between the first
    and the second and between the second and the third.  [state] is the
    state manager as it is when the snapshot is taken. *)
Definition websocket_open (websocket : WebSocketManager.WebSocket)
    (client_id : string) (connected_at now : datetime)
    (queued1 queued2 : list WebSocketManager.ws_op)
    (state : StateManager.t) (ws : WebSocketManager.t)
    : result WebSocketManager.t :=
  match WebSocketManager.connect websocket client_id connected_at queued1
          ws with
  | Raise e => Raise e
  | Ok ws =>
      let state := StateManager.get_system_state now state in
      match WebSocketManager.ws_run queued2 ws with
      | Raise e => Raise e
      | Ok ws =>
          Ok (WebSocketManager.send_personal client_id
                (Dict.update [("type", PStr "state_update")]
                   (SystemState_model_dump state))
                ws)
      end
  end.

End Main.

(** ** Endpoints and the broadcast tick *)

Section Endpoints.
Import Main.


(** The message that [apply_remediation] broadcasts. *)
Definition remediation_notice (service_id : string)
    (action : RemediationAction) : WebSocketManager.message :=
  WebSocketManager.remediation_result_message
    [("success", PBool true);
     ("service_id", PStr service_id);
     ("action", PStr (RemediationAction_value action));
     ("message",
      PStr ("Remediation applied: " ++ RemediationAction_value action)%string)].

(** X24. [apply_remediation] on an entity the manager does not track ends
    in a 404 and touches nothing.  On a tracked entity it returns the
    status the entity had and [HEALTHY] as the new one, leaves the entity
    healthy at the baseline metrics and at its placement, sends the
    remediation notice to every live subscriber, and makes one call on an
    enabled metrics client: an increment by one of the remediation counter,
    tagged with the entity, the action and the success. *)
Theorem apply_remediation_effect
    (service_id : string) (action : RemediationAction) (now : datetime)
    (w : world) :
  NoDup (Dict.keys (WebSocketManager.active_connections (ws_manager w))) ->
  match Dict.get service_id (StateManager.services (state_manager w)) with
  | None =>
      apply_remediation service_id action now w
      = HTTPException 404 (("Service " ++ service_id) ++ " not found")%string
  | Some service =>
      exists w' response,
        apply_remediation service_id action now w = Returned (w', response)
        /\ RemediationResponse.previous_status response
           = ServiceState.status service
        /\ RemediationResponse.new_status response = HEALTHY
        /\ Dict.get service_id (StateManager.services (state_manager w'))
           = Some {| ServiceState.service_id := service_id;
                     ServiceState.status := HEALTHY;
                     ServiceState.latency_ms := 500;
                     ServiceState.error_rate := 0.02;
                     ServiceState.traffic_volume := 75;
                     ServiceState.last_updated := isoformat now;
                     ServiceState.position := ServiceState.position service |}
        /\ WebSocketManager.active_connections (ws_manager w')
           = map (delivered (remediation_notice service_id action))
               (filter live
                  (WebSocketManager.active_connections (ws_manager w)))
        /\ List.length (DatadogClient.statsd (datadog_client w'))
           = (List.length (DatadogClient.statsd (datadog_client w))
              + if DatadogClient.enabled (datadog_client w) then 1 else 0)%nat
        /\ DatadogClient.statsd (datadog_client w')
           = DatadogClient.statsd (datadog_client w)
             ++ (if DatadogClient.enabled (datadog_client w)
                 then [{| DatadogClient.call_kind := DatadogClient.Increment;
                          DatadogClient.metric :=
                            ((DatadogClient.prefix (datadog_client w) ++ ".")
                             ++ "remediation.count")%string;
                          DatadogClient.value := 1%Q;
                          DatadogClient.tags :=
                            [("service_id:" ++ service_id)%string;
                             ("action:" ++ RemediationAction_value action)
                               %string;
                             "success:true"] |}]
                 else [])
  end.
Proof.
  intros Hnd. destruct w as [state dd ws].
  cbn [ws_manager state_manager datadog_client] in *.
  unfold apply_remediation, StateManager.get_service_state.
  cbn [ws_manager state_manager datadog_client].
  destruct (Dict.get service_id (StateManager.services state))
    as [service|] eqn:Hget; [|reflexivity].
  unfold WebSocketManager.broadcast_remediation_result.
  fold (remediation_notice service_id action).
  rewrite broadcast_spec by assumption.
  eexists. eexists. split; [reflexivity|].
  cbn [RemediationResponse.previous_status RemediationResponse.new_status
       ws_manager state_manager datadog_client
       WebSocketManager.active_connections].
  split; [reflexivity|]. split; [reflexivity|]. split; [|split; [|split]].
  - unfold StateManager.set_service_status. rewrite Hget.
    cbn [StateManager.services ServiceStatus_eqb]. apply get_set_same.
  - reflexivity.
  - unfold DatadogClient.emit_remediation, DatadogClient.counter,
      DatadogClient.emit.
    destruct (DatadogClient.enabled dd); cbn [DatadogClient.statsd].
    + rewrite length_app. reflexivity.
    + lia.
  - unfold DatadogClient.emit_remediation, DatadogClient.counter,
      DatadogClient.emit.
    destruct (DatadogClient.enabled dd);
      cbn [DatadogClient.statsd DatadogClient.prefix];
      [reflexivity|now rewrite app_nil_r].
Qed.

Lemma apply_remediation_effect_witness :
  let w :=
    {| state_manager :=
         StateManager.update_from_event (critical_event "auth")
           (StateManager.__init__ noon noon);
       datadog_client := DatadogClient.__init__ "key";
       ws_manager := WebSocketManager.__init__ |} in
  exists w' response,
    apply_remediation "auth" FAILOVER noon w = Returned (w', response)
    /\ RemediationResponse.previous_status response = CRITICAL.
Proof.
  intros w.
  pose proof (apply_remediation_effect "auth" FAILOVER noon w) as H.
  change (Dict.get "auth" (StateManager.services (state_manager w)))
    with (Some (derived_state (critical_event "auth") (4.76, 0, 1.55)%Q))
    in H.
  cbv iota in H.
  destruct H as (w' & response & Hrun & Hprev & _).
  - constructor.
  - exists w', response. split; [exact Hrun|exact Hprev].
Defined.

(** X25. On a manager that tracks the five entities, the mode endpoint
    with [steady_state] or [recovery] puts every entity at [HEALTHY] with
    the baseline metrics at once, keeps every placement and the history,
    and the next snapshot shows an integrity of 100. *)
Theorem set_chaos_mode_restores_health
    (mode : string) (tick : nat -> datetime) (at_ : datetime)
    (state : StateManager.t) :
  Dict.keys (StateManager.services state) = Dict.keys SERVICE_POSITIONS ->
  mode = "steady_state" \/ mode = "recovery" ->
  exists state',
    set_chaos_mode mode tick state
    = Returned (state', [("mode", PStr mode); ("success", PBool true)])
    /\ Forall (fun e =>
                 ServiceState.status e = HEALTHY
                 /\ ServiceState.latency_ms e = 500%Z
                 /\ ServiceState.error_rate e = 0.02%Q
                 /\ ServiceState.traffic_volume e = 75%Z)
              (Dict.values (StateManager.services state'))
    /\ map ServiceState.position (Dict.values (StateManager.services state'))
       = map ServiceState.position (Dict.values (StateManager.services state))
    /\ StateManager.recent_events state' = StateManager.recent_events state
    /\ SystemState.system_integrity (StateManager.get_system_state at_ state')
       = 100%Q.
Proof.
  intros Hkeys Hmode. destruct state as [services recent mx ai st].
  cbn [StateManager.services] in Hkeys.
  destruct services as [|[k1 v1] [|[k2 v2] [|[k3 v3] [|[k4 v4] [|[k5 v5] [|]]]]]];
    try discriminate Hkeys.
  cbn in Hkeys. injection Hkeys as -> -> -> -> ->.
  destruct Hmode as [->| ->]; eexists; (split; [reflexivity|]);
    cbn; repeat split; repeat constructor.
Qed.

Lemma set_chaos_mode_restores_health_witness :
  exists state',
    set_chaos_mode "recovery" (fun _ => noon)
      (StateManager.update_from_event (critical_event "auth")
         (StateManager.__init__ noon noon))
    = Returned (state', [("mode", PStr "recovery"); ("success", PBool true)])
    /\ SystemState.system_integrity (StateManager.get_system_state noon state')
       = 100%Q.
Proof.
  destruct (set_chaos_mode_restores_health "recovery" (fun _ => noon) noon
              (StateManager.update_from_event (critical_event "auth")
                 (StateManager.__init__ noon noon)))
    as (state' & Hrun & _ & _ & _ & Hint).
  - reflexivity.
  - now right.
  - exists state'. split; [exact Hrun|exact Hint].
Defined.

(** X26. A live client that connects under a fresh identifier is sent the
    acknowledgment and then the state as it was when the endpoint read it,
    whatever other coroutines do to the connections in the meantime: the
    only other frames it gets are the broadcasts that ran between the
    endpoint's critical sections, in their order, and with nothing in
    between it gets the acknowledgment and the state and nothing else.
    The other connections are exactly what the other coroutines make of
    them. *)
Theorem websocket_open_greets_client
    (websocket : WebSocketManager.WebSocket) (client_id : string)
    (connected_at now : datetime)
    (queued1 queued2 : list WebSocketManager.ws_op)
    (state : StateManager.t) (ws : WebSocketManager.t) :
  NoDup (Dict.keys (WebSocketManager.active_connections ws)) ->
  Dict.contains client_id (WebSocketManager.active_connections ws) = false ->
  WebSocketManager.connected websocket = true ->
  foreign_to client_id queued1 = true ->
  foreign_to client_id queued2 = true ->
  let snapshot := StateManager.get_system_state now state in
  let update :=
    WebSocketManager.state_update_message (SystemState_model_dump snapshot) in
  exists others ws',
    WebSocketManager.ws_run (queued1 ++ queued2) ws = Ok others
    /\ websocket_open websocket client_id connected_at now queued1 queued2
         state ws
       = Ok ws'
    /\ Dict.get client_id (WebSocketManager.active_connections ws')
       = Some {| WebSocketManager.connected := true;
                 WebSocketManager.received :=
                   WebSocketManager.received websocket
                   ++ broadcasts queued1
                   ++ [WebSocketManager.connection_ack client_id connected_at]
                   ++ broadcasts queued2
                   ++ [update] |}
    /\ (forall other, client_id <> other ->
          Dict.get other (WebSocketManager.active_connections ws')
          = Dict.get other (WebSocketManager.active_connections others))
    /\ (queued1 = [] -> queued2 = [] ->
        WebSocketManager.active_connections ws'
        = WebSocketManager.active_connections ws
          ++ [(client_id,
               {| WebSocketManager.connected := true;
                  WebSocketManager.received :=
                    WebSocketManager.received websocket
                    ++ [WebSocketManager.connection_ack client_id connected_at;
                        update] |})]).
Proof.
  intros Hnd Hfresh Hlive Hforeign1 Hforeign2 snapshot update.
  destruct (connect_spec websocket client_id connected_at queued1 ws Hnd
              Hfresh Hforeign1)
    as (others1 & Hrun1 & Hnd1 & Habsent1 & Hconnect).
  unfold after_broadcasts in Hconnect. rewrite Hlive in Hconnect.
  destruct Hconnect as (pre1 & post1 & Hothers1 & Hpre1 & Hconnect).
  unfold sent in Hconnect.
  cbn [WebSocketManager.connected WebSocketManager.received] in Hconnect.
  set (acked := {| WebSocketManager.connected := true;
                   WebSocketManager.received :=
                     (WebSocketManager.received websocket
                      ++ broadcasts queued1)
                     ++ [WebSocketManager.connection_ack client_id
                           connected_at] |}) in *.
  assert (Hnd2 : NoDup (Dict.keys (pre1 ++ (client_id, acked) :: post1))).
  { rewrite keys_app. cbn [Dict.keys map fst].
    apply NoDup_Add with (a := client_id) (l := map fst pre1 ++ map fst post1).
    - apply Add_app.
    - rewrite Hothers1, keys_app in Hnd1, Habsent1. now split. }
  destruct (foreign_run queued2 client_id acked pre1 post1 Hforeign2 Hnd2)
    as (others & Hrun2 & _ & Hsim).
  unfold after_broadcasts in Hsim. cbn [acked WebSocketManager.connected] in Hsim.
  destruct Hsim as (pre & post & Hothers & Hwith & Hnd3).
  destruct (NoDup_keys_around _ _ _ _ Hnd3) as (_ & _ & Hpre).
  exists others. eexists.
  split.
  { rewrite ws_run_app, Hrun1. destruct others1 as [d1].
    cbn [WebSocketManager.active_connections] in Hothers1. rewrite Hothers1.
    exact Hrun2. }
  assert (Hopen :
            websocket_open websocket client_id connected_at now queued1
              queued2 state ws
            = Ok {| WebSocketManager.active_connections :=
                      pre ++ (client_id,
                              sent update
                                {| WebSocketManager.connected := true;
                                   WebSocketManager.received :=
                                     WebSocketManager.received acked
                                     ++ broadcasts queued2 |}) :: post |}).
  { unfold websocket_open. rewrite Hconnect, Hwith.
    fold snapshot. fold (WebSocketManager.state_update_message
                           (SystemState_model_dump snapshot)).
    fold update. now rewrite send_personal_in_place. }
  split; [exact Hopen|].
  cbn [WebSocketManager.active_connections]. rewrite Hothers.
  split; [|split].
  - rewrite get_in_place by assumption. unfold sent.
    cbn [acked WebSocketManager.connected WebSocketManager.received].
    now rewrite <- !app_assoc.
  - intros other Hne. now apply get_without_entry.
  - intros -> ->.
    assert (Hdirect :
              websocket_open websocket client_id connected_at now [] [] state
                ws
              = Ok {| WebSocketManager.active_connections :=
                        WebSocketManager.active_connections ws
                        ++ [(client_id,
                             sent update
                               (sent (WebSocketManager.connection_ack
                                        client_id connected_at)
                                  websocket))] |}).
    { unfold websocket_open. rewrite connect_alone by assumption.
      cbn [WebSocketManager.ws_run].
      fold snapshot. fold (WebSocketManager.state_update_message
                             (SystemState_model_dump snapshot)).
      fold update. rewrite send_personal_in_place; [reflexivity|].
      now apply contains_false_keys. }
    rewrite Hopen in Hdirect. injection Hdirect as Hdirect.
    etransitivity; [exact Hdirect|]. unfold sent. rewrite Hlive.
    cbn [WebSocketManager.connected WebSocketManager.received].
    now rewrite <- app_assoc.
Qed.

Lemma websocket_open_greets_client_witness :
  let up := {| WebSocketManager.connected := true;
               WebSocketManager.received := [] |} in
  let alert := [("type", PStr "alert")] in
  let state := StateManager.__init__ noon noon in
  exists ws',
    websocket_open up "c1" noon noon [WebSocketManager.WsBroadcast alert] []
      state WebSocketManager.__init__
    = Ok ws'
    /\ Dict.get "c1" (WebSocketManager.active_connections ws')
       = Some {| WebSocketManager.connected := true;
                 WebSocketManager.received :=
                   [alert;
                    WebSocketManager.connection_ack "c1" noon;
                    WebSocketManager.state_update_message
                      (SystemState_model_dump
                         (StateManager.get_system_state noon state))] |}.
Proof.
  intros up alert state.
  destruct (websocket_open_greets_client up "c1" noon noon
              [WebSocketManager.WsBroadcast alert] [] state
              WebSocketManager.__init__)
    as (others & ws' & _ & Hopen & Hget & _).
  - constructor.
  - reflexivity.
  - reflexivity.
  - reflexivity.
  - reflexivity.
  - exists ws'. split; [exact Hopen|exact Hget].
Defined.
End Endpoints.

(** ** backend/gemini_client.py: the fallback analysis *)

Module GeminiClient.

Definition FALLBACK_RESPONSES : Dict.t (list string) := [
  ("gateway",
   ["Subspace routing fluctuations detected in primary conduit";
    "Gateway harmonics destabilizing under load pressure";
    "Entry point experiencing quantum entanglement delays"]);
  ("auth",
   ["Authentication matrix experiencing temporal drift";
    "Security handshake protocol in subspace interference";
    "Identity verification circuits overloaded"]);
  ("payment",
   ["Transaction buffer overflow in payment substrate";
    "Financial data streams encountering wormhole turbulence";
    "Credit processing nodes experiencing phase variance"]);
  ("ai-brain",
   ["Neural pathway congestion in cognitive subsystem";
    "Token overflow in synthetic thought processors";
    "Inference engine experiencing quantum decoherence"]);
  ("database",
   ["Data crystal lattice showing stress fractures";
    "Storage matrix approaching critical entropy";
    "Query pathways blocked by subspace interference"])
].

Section Fallback.
Context {G : Type} {RS : Chaos.RandomSource G}.

Definition _get_fallback_response (service_id : string) : Chaos.M string :=
  let responses :=
    Dict.get_default service_id
      ["System anomaly detected in unknown subsystem"] FALLBACK_RESPONSES in
  Chaos.choice responses.
End Fallback.

End GeminiClient.

Section FallbackAnalysis.
Context {G : Type} {RS : Chaos.RandomSource G}.

(** X27. The fallback analysis never fails, whatever the service name and
    the random draw: for one of the five entities it is one of that
    entity's three prepared sentences, and for any other name it is the
    one sentence kept for unknown subsystems. *)
Theorem fallback_response_always_available (service_id : string) (g : G) :
  exists response g',
    GeminiClient._get_fallback_response service_id g = Ok (response, g')
    /\ match Dict.get service_id GeminiClient.FALLBACK_RESPONSES with
       | Some prepared =>
           In response prepared /\ List.length prepared = 3%nat
       | None => response = "System anomaly detected in unknown subsystem"
       end.
Proof.
  apply (returns_elim
           (fun response =>
              match Dict.get service_id GeminiClient.FALLBACK_RESPONSES with
              | Some prepared =>
                  In response prepared /\ List.length prepared = 3%nat
              | None =>
                  response = "System anomaly detected in unknown subsystem"
              end)).
  unfold GeminiClient._get_fallback_response, Dict.get_default.
  destruct (Dict.get service_id GeminiClient.FALLBACK_RESPONSES)
    as [prepared|] eqn:Hget.
  - apply get_In_pair in Hget.
    assert (Hlen : List.length prepared = 3%nat).
    { simpl in Hget.
      destruct Hget as [H|[H|[H|[H|[H|[]]]]]]; inversion H; reflexivity. }
    apply returns_choice.
    + intros ->. discriminate Hlen.
    + intros x Hx. now split.
  - apply returns_choice; [discriminate|].
    intros x [<-|[]]. reflexivity.
Qed.
End FallbackAnalysis.

(** ** From the simulation to the state manager *)

Section SimulationToState.
Context {G : Type} {RS : Chaos.RandomSource G}.

(** What [event_callback] hands to the state manager for an event within
    the bounds of the model. *)
Lemma event_callback_accepts (event : Chaos.TelemetryEvent.t)
    (state : StateManager.t) :
  within_model_bounds event ->
  exists member,
    ServiceStatus_value member = Chaos.TelemetryEvent.status event
    /\ event_callback event state
       = Ok (StateManager.update_from_event
               {| TelemetryEvent.timestamp :=
                    Chaos.TelemetryEvent.timestamp event;
                  TelemetryEvent.service_id :=
                    Chaos.TelemetryEvent.service_id event;
                  TelemetryEvent.status := member;
                  TelemetryEvent.latency_ms :=
                    Chaos.TelemetryEvent.latency_ms event;
                  TelemetryEvent.error_rate :=
                    Chaos.TelemetryEvent.error_rate event;
                  TelemetryEvent.traffic_volume :=
                    Chaos.TelemetryEvent.traffic_volume event;
                  TelemetryEvent.message := Chaos.TelemetryEvent.message event;
                  TelemetryEvent.metadata :=
                    Chaos.TelemetryEvent.metadata event |}
               state).
Proof.
  intros (Hstatus & Hlat & Herr1 & Herr2 & Htraffic).
  unfold event_callback, TelemetryEvent.__init__.
  assert (H1 : (0 <=? Chaos.TelemetryEvent.latency_ms event)%Z = true)
    by (apply Z.leb_le; lia).
  assert (H2 : (Chaos.TelemetryEvent.latency_ms event <=? 10000)%Z = true)
    by (apply Z.leb_le; lia).
  assert (H3 : Qle_bool 0 (Chaos.TelemetryEvent.error_rate event) = true)
    by (apply Qle_bool_iff; lra).
  assert (H4 : Qle_bool (Chaos.TelemetryEvent.error_rate event) 1 = true)
    by (apply Qle_bool_iff; lra).
  assert (H5 : (0 <=? Chaos.TelemetryEvent.traffic_volume event)%Z = true)
    by (apply Z.leb_le; lia).
  assert (H6 : (Chaos.TelemetryEvent.traffic_volume event <=? 100)%Z = true)
    by (apply Z.leb_le; lia).
  rewrite H1, H2, H3, H4, H5, H6. cbn [andb].
  destruct Hstatus as [<-|[<-|[<-|[]]]]; cbn;
    [exists HEALTHY|exists WARNING|exists CRITICAL]; now split.
Qed.

(** X28. One simulated event for one of the five entities always reaches
    the state manager: generation succeeds, the callback accepts the event,
    and the manager then shows for that entity exactly the status, latency,
    error rate, traffic volume and time stamp of the event, at the
    entity's registry placement, with the event, field for field, at the
    end of the history. *)
Theorem simulated_event_reaches_state (now : datetime) (service_id : string)
    (engine : Chaos.ChaosEngine) (state : StateManager.t) (g : G) :
  statuses_in_model (Chaos.service_states engine) ->
  Dict.keys (StateManager.services state) = Dict.keys SERVICE_POSITIONS ->
  (List.length (StateManager.recent_events state)
   <= StateManager.max_events state)%nat ->
  In service_id (map Chaos.id Chaos.SERVICES) ->
  exists event g' state' entity telemetry,
    Chaos.generate_event now service_id engine g = Ok (event, g')
    /\ event_callback event state = Ok state'
    /\ Dict.get service_id (StateManager.services state') = Some entity
    /\ ServiceStatus_value (ServiceState.status entity)
       = Chaos.TelemetryEvent.status event
    /\ ServiceState.latency_ms entity = Chaos.TelemetryEvent.latency_ms event
    /\ ServiceState.error_rate entity = Chaos.TelemetryEvent.error_rate event
    /\ ServiceState.traffic_volume entity
       = Chaos.TelemetryEvent.traffic_volume event
    /\ ServiceState.last_updated entity = isoformat now
    /\ Dict.get service_id SERVICE_POSITIONS
       = Some (ServiceState.position entity)
    /\ StateManager.recent_events state'
       = lastn (StateManager.max_events state)
           (StateManager.recent_events state ++ [telemetry])
    /\ TelemetryEvent.service_id telemetry = service_id
    /\ TelemetryEvent.timestamp telemetry
       = Chaos.TelemetryEvent.timestamp event
    /\ ServiceStatus_value (TelemetryEvent.status telemetry)
       = Chaos.TelemetryEvent.status event
    /\ TelemetryEvent.latency_ms telemetry
       = Chaos.TelemetryEvent.latency_ms event
    /\ TelemetryEvent.error_rate telemetry
       = Chaos.TelemetryEvent.error_rate event
    /\ TelemetryEvent.traffic_volume telemetry
       = Chaos.TelemetryEvent.traffic_volume event
    /\ TelemetryEvent.message telemetry = Chaos.TelemetryEvent.message event
    /\ TelemetryEvent.metadata telemetry
       = Chaos.TelemetryEvent.metadata event.
Proof.
  intros Hall Hkeys Hroom Hid.
  destruct (returns_elim _ _ _
              (returns_conj _ _ _ _
                 (generate_event_shape now service_id engine g Hall)
                 (generate_event_returns now service_id engine g Hall)))
    as (event & g' & Hrun & Hshape & Hbounds).
  destruct Hshape as (Htime & Hsid & _).
  destruct (event_callback_accepts event state Hbounds)
    as (member & Hmember & Hcb).
  assert (Hin : Dict.contains service_id (StateManager.services state) = true).
  { apply get_in_keys. now rewrite Hkeys. }
  assert (Hpos : exists placement,
             Dict.get service_id SERVICE_POSITIONS = Some placement).
  { assert (Hc : Dict.contains service_id SERVICE_POSITIONS = true)
      by now apply get_in_keys.
    unfold Dict.contains in Hc.
    destruct (Dict.get service_id SERVICE_POSITIONS) as [placement|];
      [now exists placement|discriminate]. }
  destruct Hpos as [placement Hplacement].
  eexists event, g', _, _, _. split; [exact Hrun|]. split; [exact Hcb|].
  rewrite update_from_event_services by exact Hin.
  cbn [TelemetryEvent.service_id]. rewrite Hsid, String.eqb_refl.
  split; [reflexivity|].
  unfold derived_state.
  cbn [ServiceState.status ServiceState.latency_ms ServiceState.error_rate
       ServiceState.traffic_volume ServiceState.last_updated
       ServiceState.position TelemetryEvent.status TelemetryEvent.latency_ms
       TelemetryEvent.error_rate TelemetryEvent.traffic_volume
       TelemetryEvent.timestamp TelemetryEvent.service_id].
  split; [exact Hmember|]. split; [reflexivity|]. split; [reflexivity|].
  split; [reflexivity|]. split; [exact Htime|]. split.
  - unfold Dict.get_default. now rewrite Hplacement.
  - split; [now rewrite update_from_event_history by lia|].
    cbn [TelemetryEvent.service_id TelemetryEvent.timestamp
         TelemetryEvent.status TelemetryEvent.latency_ms
         TelemetryEvent.error_rate TelemetryEvent.traffic_volume
         TelemetryEvent.message TelemetryEvent.metadata].
    repeat split; try reflexivity; first [exact Hmember|exact Hsid].
Qed.
End SimulationToState.

Section SimulationToStateWitness.

Lemma simulated_event_reaches_state_witness :
  exists event g' state',
    Chaos.generate_event (RS := lcg_source) noon "auth" Chaos.__init__ 42%Z
    = Ok (event, g')
    /\ event_callback event (StateManager.__init__ noon noon) = Ok state'.
Proof.
  destruct (simulated_event_reaches_state (RS := lcg_source) noon "auth"
              Chaos.__init__ (StateManager.__init__ noon noon) 42%Z)
    as (event & g' & state' & _ & _ & Hrun & Hcb & _).
  - unfold statuses_in_model. repeat constructor; simpl; tauto.
  - reflexivity.
  - simpl. lia.
  - simpl. tauto.
  - exists event, g', state'. split; [exact Hrun|exact Hcb].
Defined.

Lemma telemetry_event_validation_witness :
  exists event,
    TelemetryEvent.__init__ "t" "auth" "warning" 10000 1 0 "m" [] = Ok event.
Proof.
  apply (proj1 (proj1 (telemetry_event_validation "t" "auth" "warning" 10000
                         1 0 "m" []))).
  split; [now exists WARNING|].
  repeat split; try lia; unfold Qle; simpl; lia.
Defined.
End SimulationToStateWitness.
